(** * MegaMem bridge: a shallow embedding of the ingestion pipeline and the hub

    The development follows the Python sources:
    - [graphiti_bridge/utils.py]: frontmatter extraction;
    - [graphiti_bridge/sync.py]: namespace and saga resolution, reference
      time, episode construction, the single-note pipeline;
    - [mcp-server/websocket_server.py]: the WebSocket hub and the RPC endpoint.

    Python strings are modelled as [string] (characters are code points
    below 256), dictionaries whose iteration order is observable as
    association lists, the hub's pending-request table as a [gmap],
    floats as IEEE 754 binary64 values, and exceptions as an explicit
    result type. *)

From Stdlib Require Import ZArith Ascii String List Bool Lia SpecFloat DecimalString.
From stdpp Require Import base option list gmap strings.

Local Open Scope nat_scope.

(** ** Python's string primitives, as far as the sources use them *)
Module Py.

Definition code (c : ascii) : nat := nat_of_ascii c.
Definition chr (n : nat) : ascii := ascii_of_nat n.

Definition NL : ascii := chr 10.
Definition QUOTE : ascii := chr 34.
Definition APOS : ascii := chr 39.
Definition nl : string := String NL EmptyString.

Definition between (lo hi n : nat) : bool := (lo <=? n) && (n <=? hi).

(** [str.isspace] on one character, which is also what [\s] matches. *)
Definition isspace_char (c : ascii) : bool :=
  let n := code c in
  between 9 13 n || between 28 32 n || (n =? 133) || (n =? 160).

(** The decimal digits [0-9]: what [int] and [float] accept. *)
Definition is_decimal (c : ascii) : bool := between 48 57 (code c).

(** [str.isdigit] on one character: the decimal digits and the superscript
    digits of Latin-1, which [int] refuses. *)
Definition isdigit_char (c : ascii) : bool :=
  let n := code c in
  between 48 57 n || (n =? 178) || (n =? 179) || (n =? 185).

Definition lower_char (c : ascii) : ascii :=
  let n := code c in
  if between 65 90 n || between 192 214 n || between 216 222 n
  then chr (n + 32) else c.

Definition is_empty (s : string) : bool :=
  match s with EmptyString => true | _ => false end.

(** [s.lower()] *)
Fixpoint lower (s : string) : string :=
  match s with
  | EmptyString => EmptyString
  | String c r => String (lower_char c) (lower r)
  end.

(** [s.startswith(p)] *)
Definition startswith (s p : string) : bool := String.prefix p s.

(** [s[n:]] *)
Fixpoint drop_str (n : nat) (s : string) : string :=
  match n, s with
  | O, _ => s
  | S k, String _ r => drop_str k r
  | S _, EmptyString => EmptyString
  end.

(** [s[:n]] *)
Fixpoint take_str (n : nat) (s : string) : string :=
  match n, s with
  | S k, String c r => String c (take_str k r)
  | _, _ => EmptyString
  end.

(** [sub in s] *)
Fixpoint contains (sub s : string) : bool :=
  String.prefix sub s ||
  match s with
  | EmptyString => false
  | String _ r => contains sub r
  end.

Fixpoint lstrip (s : string) : string :=
  match s with
  | String c r => if isspace_char c then lstrip r else s
  | EmptyString => EmptyString
  end.

(** Dropping a trailing run of characters satisfying [p]. *)
Fixpoint rstrip_by (p : ascii -> bool) (s : string) : string :=
  match s with
  | EmptyString => EmptyString
  | String c r =>
      let r' := rstrip_by p r in
      if p c && is_empty r' then EmptyString else String c r'
  end.

(** [s.strip()] and [s.rstrip('/')] *)
Definition strip (s : string) : string := rstrip_by isspace_char (lstrip s).
Definition rstrip_char (ch : ascii) (s : string) : string :=
  rstrip_by (Ascii.eqb ch) s.

(** [s.split(sep)] for a one-character separator: never the empty list. *)
Fixpoint split_char (sep : ascii) (s : string) : list string :=
  match s with
  | EmptyString => [EmptyString]
  | String c r =>
      if Ascii.eqb c sep then EmptyString :: split_char sep r
      else match split_char sep r with
           | h :: t => String c h :: t
           | [] => [String c EmptyString]
           end
  end.

(** [sep.join(parts)] *)
Fixpoint join (sep : string) (parts : list string) : string :=
  match parts with
  | [] => EmptyString
  | [p] => p
  | p :: rest => p +:+ sep +:+ join sep rest
  end.

(** [s.split(sep, 1)] when [sep] occurs in [s]: the text before the first
    separator and the text after it. *)
Fixpoint split_once (sep : ascii) (s : string) : option (string * string) :=
  match s with
  | EmptyString => None
  | String c r =>
      if Ascii.eqb c sep then Some (EmptyString, r)
      else match split_once sep r with
           | Some (a, b) => Some (String c a, b)
           | None => None
           end
  end.

(** [s.replace(old, new)] for a non-empty [old]: occurrences are replaced
    from the left and do not overlap. [skip] counts the characters of an
    occurrence that are still to be dropped. *)
Fixpoint replace_from (old new s : string) (skip : nat) : string :=
  match s with
  | EmptyString => EmptyString
  | String c r =>
      match skip with
      | S k => replace_from old new r k
      | O => if String.prefix old s
             then new +:+ replace_from old new r (String.length old - 1)
             else String c (replace_from old new r 0)
      end
  end.
Definition replace (old new s : string) : string := replace_from old new s 0.

(** The last character, for [s.endswith(c)]. *)
Fixpoint last_char (s : string) : option ascii :=
  match s with
  | EmptyString => None
  | String c EmptyString => Some c
  | String _ r => last_char r
  end.

Definition first_char (s : string) : option ascii :=
  match s with
  | EmptyString => None
  | String c _ => Some c
  end.

(** [s.startswith(c) and s.endswith(c)] for one character *)
Definition wrapped_in (c : ascii) (s : string) : bool :=
  match first_char s, last_char s with
  | Some a, Some b => Ascii.eqb a c && Ascii.eqb b c
  | _, _ => false
  end.

(** [s[1:-1]] *)
Definition strip_ends (s : string) : string :=
  take_str (String.length s - 2) (drop_str 1 s).

Fixpoint all_chars (p : ascii -> bool) (s : string) : bool :=
  match s with
  | EmptyString => true
  | String c r => p c && all_chars p r
  end.

(** [s.isdigit()]: false on the empty string. *)
Definition isdigit (s : string) : bool :=
  negb (is_empty s) && all_chars isdigit_char s.

(** The value of a run of decimal digits. *)
Fixpoint digits_value (acc : Z) (s : string) : Z :=
  match s with
  | EmptyString => acc
  | String c r => digits_value (10 * acc + Z.of_nat (code c - 48))%Z r
  end.

Fixpoint count_char (ch : ascii) (s : string) : nat :=
  match s with
  | EmptyString => 0
  | String c r => (if Ascii.eqb c ch then 1 else 0) + count_char ch r
  end.

End Py.

(** ** Exceptions and results *)

Inductive Exn :=
| ValueError (msg : string)
| TypeError (msg : string)
| YAMLError (msg : string)
| InfrastructureError (msg : string)
| JSONDecodeError (msg : string)
| TimeoutError (msg : string)
| OtherError (msg : string).

(** What an [await] can meet besides: [asyncio.CancelledError] derives
    from [BaseException], so [except Exception] does not catch it. *)
Inductive BaseExn :=
| Exception (e : Exn)
| CancelledError.

(** The outcome of a computation that can raise: [Res] for code whose
    exceptions are instances of [Exception], [Awaited] for an [await], which
    can also be cancelled. *)
Inductive Result (E A : Type) :=
| Ok (a : A)
| Raise (e : E).
Arguments Ok {E A} a.
Arguments Raise {E A} e.

Abbreviation Res := (Result Exn).
Abbreviation Awaited := (Result BaseExn).

Definition res_bind {A B} (r : Res A) (k : A -> Res B) : Res B :=
  match r with
  | Ok a => k a
  | Raise e => Raise e
  end.

(** [int(digits)] for a run of decimal digits: the interpreter refuses a
    numeral of more than 4300 digits (the default of
    [sys.int_max_str_digits]). *)
Definition int_max_str_digits : nat := 4300.

Definition int_of_digits (digits : string) : Res Z :=
  if String.length digits <=? int_max_str_digits
  then Ok (Py.digits_value 0 digits)
  else Raise (ValueError "Exceeds the limit (4300 digits) for integer string conversion").

(** [str(e)] for an exception *)
Definition exn_text (e : Exn) : string :=
  match e with
  | ValueError m | TypeError m | YAMLError m | InfrastructureError m
  | JSONDecodeError m | TimeoutError m | OtherError m => m
  end.

(** ** Dates and times ([datetime], [strptime], [isoformat]) *)
Module Time.

Local Open Scope Z_scope.

(** A [datetime.datetime]; [tzinfo] is the UTC offset in seconds of an aware
    value and [None] for a naive one. *)
Record Datetime := mkDatetime {
  year : Z; month : Z; day : Z;
  hour : Z; minute : Z; second : Z; microsecond : Z;
  tzinfo : option Z
}.

(** A [datetime.date] *)
Record Date := mkDate { d_year : Z; d_month : Z; d_day : Z }.

Definition utc : option Z := Some 0.

(** [dt.replace(tzinfo=tz)] *)
Definition replace_tzinfo (dt : Datetime) (tz : option Z) : Datetime :=
  mkDatetime (year dt) (month dt) (day dt) (hour dt) (minute dt) (second dt)
             (microsecond dt) tz.

(** [datetime.combine(d, datetime.min.time())] *)
Definition combine_midnight (d : Date) : Datetime :=
  mkDatetime (d_year d) (d_month d) (d_day d) 0 0 0 0 None.

Definition is_aware (dt : Datetime) : bool :=
  match tzinfo dt with Some _ => true | None => false end.

Definition is_leap (y : Z) : bool :=
  (y mod 4 =? 0) && (negb (y mod 100 =? 0) || (y mod 400 =? 0)).

Definition days_in_month (y m : Z) : Z :=
  if m =? 2 then (if is_leap y then 29 else 28)
  else if (m =? 4) || (m =? 6) || (m =? 9) || (m =? 11) then 30 else 31.

(** The checks of the [date] constructor. *)
Definition valid_date (y m d : Z) : bool :=
  (1 <=? y) && (y <=? 9999) && (1 <=? m) && (m <=? 12) &&
  (1 <=? d) && (d <=? days_in_month y m).

Definition days_before_year (y : Z) : Z :=
  let p := y - 1 in p * 365 + p / 4 - p / 100 + p / 400.

Fixpoint days_before_month_from (y : Z) (m : nat) : Z :=
  match m with
  | O => 0
  | S k => days_before_month_from y k + days_in_month y (Z.of_nat (S k))
  end.

Definition days_before_month (y m : Z) : Z :=
  days_before_month_from y (Z.to_nat (m - 1)).

(** [date.toordinal]: 1 for 0001-01-01. *)
Definition ordinal (y m d : Z) : Z :=
  days_before_year y + days_before_month y m + d.

(** Microseconds from 0001-01-01T00:00:00 UTC to an aware value (a naive
    one is read as UTC). *)
Definition instant_us (dt : Datetime) : Z :=
  let off := match tzinfo dt with Some o => o | None => 0 end in
  (((ordinal (year dt) (month dt) (day dt) * 24 + hour dt) * 60 + minute dt)
     * 60 + second dt - off) * 1000000 + microsecond dt.

(** *** Rendering *)

Definition digit_char (n : Z) : ascii := Py.chr (48 + Z.to_nat (n mod 10)).

Definition pad2 (n : Z) : string :=
  String (digit_char (n / 10)) (String (digit_char n) EmptyString).

Definition pad4 (n : Z) : string :=
  String (digit_char (n / 1000)) (String (digit_char (n / 100))
    (String (digit_char (n / 10)) (String (digit_char n) EmptyString))).

Definition pad6 (n : Z) : string := pad2 (n / 10000) +:+ pad4 n.

Definition render_offset (o : Z) : string :=
  let a := Z.abs o in
  (if o <? 0 then "-" else "+") +:+ pad2 (a / 3600) +:+ ":" +:+
  pad2 (a / 60 mod 60) +:+
  (if a mod 60 =? 0 then EmptyString else ":" +:+ pad2 (a mod 60)).

(** [dt.isoformat()] *)
Definition isoformat (dt : Datetime) : string :=
  pad4 (year dt) +:+ "-" +:+ pad2 (month dt) +:+ "-" +:+ pad2 (day dt) +:+
  "T" +:+ pad2 (hour dt) +:+ ":" +:+ pad2 (minute dt) +:+ ":" +:+
  pad2 (second dt) +:+
  (if microsecond dt =? 0 then EmptyString
   else "." +:+ pad6 (microsecond dt)) +:+
  match tzinfo dt with
  | Some o => render_offset o
  | None => EmptyString
  end.

(** *** Parsing: [datetime.strptime] for the directives the sources use

    [strptime] turns the format into a regular expression (matched with
    IGNORECASE), matches it at the start of the text, refuses text that is
    left over, and builds the value with the [datetime] constructor, which
    refuses impossible dates. Each directive is an alternation; because a
    shorter alternative always leaves a digit where the format continues
    with a separator, taking the first alternative that matches is what the
    backtracking matcher does. *)

Definition Parser (A : Type) : Type := string -> option (A * string).

Definition digit_of (c : ascii) : Z := Z.of_nat (Py.code c - 48).

Definition in_range (lo hi : nat) (c : ascii) : bool :=
  Py.between (48 + lo) (48 + hi) (Py.code c).

(** Two characters [a b] with [pa a] and [pb b], read as a number. *)
Definition two (pa pb : ascii -> bool) : Parser Z := fun s =>
  match s with
  | String a (String b r) =>
      if pa a && pb b then Some (10 * digit_of a + digit_of b, r) else None
  | _ => None
  end.

Definition one (pa : ascii -> bool) : Parser Z := fun s =>
  match s with
  | String a r => if pa a then Some (digit_of a, r) else None
  | _ => None
  end.

Definition orelse {A} (p q : Parser A) : Parser A := fun s =>
  match p s with
  | Some r => Some r
  | None => q s
  end.

(** [%Y]: four digits. *)
Definition p_year : Parser Z := fun s =>
  match two Py.is_decimal Py.is_decimal s with
  | Some (hi, r) =>
      match two Py.is_decimal Py.is_decimal r with
      | Some (lo, r') => Some (100 * hi + lo, r')
      | None => None
      end
  | None => None
  end.

(** [%m]: [1[0-2]|0[1-9]|[1-9]] *)
Definition p_month : Parser Z :=
  orelse (two (in_range 1 1) (in_range 0 2))
    (orelse (two (in_range 0 0) (in_range 1 9)) (one (in_range 1 9))).

(** [%d]: [3[0-1]|[1-2]\d|0[1-9]|[1-9]| [1-9]] *)
Definition p_day : Parser Z :=
  orelse (two (in_range 3 3) (in_range 0 1))
    (orelse (two (in_range 1 2) Py.is_decimal)
      (orelse (two (in_range 0 0) (in_range 1 9))
        (orelse (one (in_range 1 9))
          (fun s => match s with
                    | String a r =>
                        if Ascii.eqb a " " then one (in_range 1 9) r else None
                    | _ => None
                    end)))).

(** [%H]: [2[0-3]|[0-1]\d|\d] *)
Definition p_hour : Parser Z :=
  orelse (two (in_range 2 2) (in_range 0 3))
    (orelse (two (in_range 0 1) Py.is_decimal) (one Py.is_decimal)).

(** [%M]: [[0-5]\d|\d] *)
Definition p_minute : Parser Z :=
  orelse (two (in_range 0 5) Py.is_decimal) (one Py.is_decimal).

(** [%S]: [6[0-1]|[0-5]\d|\d] *)
Definition p_second : Parser Z :=
  orelse (two (in_range 6 6) (in_range 0 1))
    (orelse (two (in_range 0 5) Py.is_decimal) (one Py.is_decimal)).

(** A literal character of the format, matched without regard to case. *)
Definition p_lit (ch : ascii) : Parser unit := fun s =>
  match s with
  | String a r =>
      if Ascii.eqb (Py.lower_char a) (Py.lower_char ch) then Some (tt, r)
      else None
  | _ => None
  end.

(** White space in the format: [\s+]. *)
Definition p_spaces : Parser unit := fun s =>
  match s with
  | String a r => if Py.isspace_char a then Some (tt, Py.lstrip r) else None
  | _ => None
  end.

Inductive Format :=
| FmtDate          (* %Y-%m-%d *)
| FmtDateTimeT     (* %Y-%m-%dT%H:%M:%S *)
| FmtDateTimeSp    (* %Y-%m-%d %H:%M:%S *)
| FmtDateMinute.   (* %Y-%m-%d %H:%M *)

Definition p_date : Parser (Z * Z * Z) := fun s =>
  match p_year s with
  | Some (y, s1) =>
    match p_lit "-" s1 with
    | Some (_, s2) =>
      match p_month s2 with
      | Some (m, s3) =>
        match p_lit "-" s3 with
        | Some (_, s4) =>
          match p_day s4 with
          | Some (d, s5) => Some ((y, m, d), s5)
          | None => None
          end
        | None => None
        end
      | None => None
      end
    | None => None
    end
  | None => None
  end.

Definition p_hour_minute : Parser (Z * Z) := fun s =>
  match p_hour s with
  | Some (h, s1) =>
    match p_lit ":" s1 with
    | Some (_, s2) =>
      match p_minute s2 with
      | Some (mi, s3) => Some ((h, mi), s3)
      | None => None
      end
    | None => None
    end
  | None => None
  end.

Definition p_time (with_seconds : bool) : Parser (Z * Z * Z) := fun s =>
  match p_hour_minute s with
  | Some ((h, mi), s1) =>
      if with_seconds then
        match p_lit ":" s1 with
        | Some (_, s2) =>
          match p_second s2 with
          | Some (sec, s3) => Some ((h, mi, sec), s3)
          | None => None
          end
        | None => None
        end
      else Some ((h, mi, 0), s1)
  | None => None
  end.

(** The fields matched by the format's regular expression and the text left
    unconverted. *)
Definition match_format (fmt : Format) : Parser (Z * Z * Z * (Z * Z * Z)) := fun s =>
  match p_date s with
  | Some (ymd, s1) =>
      match fmt with
      | FmtDate => Some ((ymd, (0, 0, 0)), s1)
      | FmtDateTimeT =>
          match p_lit "T" s1 with
          | Some (_, s2) =>
              match p_time true s2 with
              | Some (hms, s3) => Some ((ymd, hms), s3)
              | None => None
              end
          | None => None
          end
      | FmtDateTimeSp | FmtDateMinute =>
          match p_spaces s1 with
          | Some (_, s2) =>
              match p_time (match fmt with FmtDateMinute => false | _ => true end) s2 with
              | Some (hms, s3) => Some ((ymd, hms), s3)
              | None => None
              end
          | None => None
          end
      end
  | None => None
  end.

(** [datetime.strptime(text, fmt)]: a naive value, or [ValueError]. *)
Definition strptime (text : string) (fmt : Format) : Res Datetime :=
  match match_format fmt text with
  | Some ((y, m, d, (h, mi, sec)), rest) =>
      if negb (Py.is_empty rest) then Raise (ValueError "unconverted data remains")
      else if valid_date y m d && (sec <=? 59)
      then Ok (mkDatetime y m d h mi sec 0 None)
      else Raise (ValueError "value out of range")
  | None => Raise (ValueError "time data does not match format")
  end.

End Time.

(** ** Floats ([float], IEEE 754 binary64, rounding to nearest, ties to even) *)
Module Binary64.

Local Open Scope Z_scope.

Definition prec : Z := 53.
Definition emax : Z := 1024.

(** An integer, taken exactly. *)
Definition exact (n : Z) : spec_float :=
  match n with
  | Z0 => S754_zero false
  | Zpos p => S754_finite false p 0
  | Zneg p => S754_finite true p 0
  end.

(** [float(n)] for an integer: the nearest float, and infinity where
    Python raises [OverflowError]. *)
Definition of_Z (n : Z) : spec_float := binary_normalize prec emax n 0 false.

(** [float(text)] for a decimal numeral with [frac] digits after the point
    and the digits [mantissa]: the float nearest to [mantissa / 10 ^ frac]. *)
Definition of_decimal (mantissa : Z) (frac : nat) : spec_float :=
  SFdiv prec emax (exact mantissa) (exact (10 ^ Z.of_nat frac)).

(** [x / y] for a divisor that is not zero *)
Definition div (x y : spec_float) : spec_float := SFdiv prec emax x y.

Definition is_zero (x : spec_float) : bool :=
  match x with S754_zero _ => true | _ => false end.

Definition is_nan (x : spec_float) : bool :=
  match x with S754_nan => true | _ => false end.

Definition is_infinite (x : spec_float) : bool :=
  match x with S754_infinity _ => true | _ => false end.

(** [min(a, b)]: [b] when [b < a], else [a]; a comparison with NaN is
    false, so [min(nan, b)] is NaN. *)
Definition py_min (a b : spec_float) : spec_float :=
  if SFltb b a then b else a.

Definition thousand : spec_float := of_Z 1000.
Definition twenty : spec_float := of_Z 20.
Definition thirty : spec_float := of_Z 30.

End Binary64.

(** ** Values of a frontmatter mapping or of a JSON document *)

#[local] Set Warnings "-register-all".

(** What YAML, the fallback parser or [json.loads] can give. *)
Inductive PyVal :=
| VNone
| VBool (b : bool)
| VInt (n : Z)
| VFloat (x : spec_float)
| VStr (s : string)
| VDate (d : Time.Date)
| VDatetime (dt : Time.Datetime)
| VList (items : list PyVal)
| VDict (items : list (string * PyVal)).

(** A [dict] with string keys, in insertion order. *)
Definition Dict : Type := list (string * PyVal).

(** [d.get(k)] *)
Fixpoint dict_get {V} (k : string) (d : list (string * V)) : option V :=
  match d with
  | [] => None
  | (k', v) :: r => if String.eqb k' k then Some v else dict_get k r
  end.

(** [d[k] = v]: an existing key keeps its position. *)
Fixpoint dict_set {V} (k : string) (v : V) (d : list (string * V)) : list (string * V) :=
  match d with
  | [] => [(k, v)]
  | (k', v') :: r =>
      if String.eqb k' k then (k, v) :: r else (k', v') :: dict_set k v r
  end.

(** Python's truth value of a frontmatter value. *)
Definition truthy (v : PyVal) : bool :=
  match v with
  | VNone => false
  | VBool b => b
  | VInt n => negb (n =? 0)%Z
  | VFloat x => negb (Binary64.is_zero x)
  | VStr s => negb (Py.is_empty s)
  | VDate _ | VDatetime _ => true
  | VList l => match l with [] => false | _ => true end
  | VDict d => match d with [] => false | _ => true end
  end.

(** ** Frontmatter extraction ([graphiti_bridge/utils.py]) *)
Module Frontmatter.

(** *** The pattern [^---\s*\n(.*?)\n---\s*\n] with DOTALL *)

(** [\s*\n] at the start of [s]: what is left after each way of matching, in
    the order the matcher tries them (the longest run of white space
    first). *)
Fixpoint ws_nl_ends (s : string) : list string :=
  match s with
  | String c r =>
      if Py.isspace_char c
      then ws_nl_ends r ++ (if Ascii.eqb c Py.NL then [r] else [])
      else []
  | EmptyString => []
  end.

Definition closing : string := Py.nl +:+ "---".

(** [\n---\s*\n] at the start of [s]: the text after the match. *)
Definition match_closing (s : string) : option string :=
  if String.prefix closing s then head (ws_nl_ends (Py.drop_str 4 s)) else None.

(** [(.*?)\n---\s*\n] at the start of [s]: the lazy group takes as few
    characters as possible. [group] is what it has taken so far. *)
Fixpoint find_closing (group s : string) : option (string * string) :=
  match match_closing s with
  | Some rest => Some (group, rest)
  | None =>
      match s with
      | String c r => find_closing (group +:+ String c EmptyString) r
      | EmptyString => None
      end
  end.

Fixpoint first_success {A B} (f : A -> option B) (l : list A) : option B :=
  match l with
  | [] => None
  | a :: r => match f a with Some b => Some b | None => first_success f r end
  end.

(** [re.match(frontmatter_pattern, content, re.DOTALL)]: [group(1)] and
    [content[match.end():]]. *)
Definition frontmatter_match (content : string) : option (string * string) :=
  if String.prefix "---" content
  then first_success (find_closing EmptyString) (ws_nl_ends (Py.drop_str 3 content))
  else None.

(** *** [parse_simple_frontmatter] *)

(** Removing one pair of surrounding quotes. *)
Definition unquote (value : string) : string :=
  if Py.wrapped_in Py.QUOTE value then Py.strip_ends value
  else if Py.wrapped_in Py.APOS value then Py.strip_ends value
  else value.

(** The digits after the decimal point of a numeral with one point. *)
Definition frac_digits (value : string) : nat :=
  match Py.split_once "." value with
  | Some (_, after) => String.length after
  | None => 0
  end.

(** The conversion of basic types: [int] and [float] raise [ValueError] on
    text that [isdigit] lets through and they cannot read; [float] rounds
    the numeral to the nearest binary64 value. *)
Definition convert_scalar (value : string) : Res PyVal :=
  let low := Py.lower value in
  if String.eqb low "true" || String.eqb low "false"
  then Ok (VBool (String.eqb low "true"))
  else if Py.isdigit value then
    if Py.all_chars Py.is_decimal value
    then res_bind (int_of_digits value) (fun n => Ok (VInt n))
    else Raise (ValueError "invalid literal for int()")
  else
    let bare := Py.replace "." EmptyString value in
    if Py.isdigit bare then
      if Py.all_chars Py.is_decimal bare && (Py.count_char "." value =? 1)
      then Ok (VFloat (Binary64.of_decimal (Py.digits_value 0 bare) (frac_digits value)))
      else Raise (ValueError "could not convert string to float")
    else Ok (VStr value).

(** The body of the loop over the lines. *)
Definition parse_line (frontmatter : Dict) (raw : string) : Res Dict :=
  let line := Py.strip raw in
  if Py.contains ":" line && negb (Py.startswith line "#") then
    match Py.split_once ":" line with
    | Some (key, value) =>
        res_bind (convert_scalar (unquote (Py.strip value)))
          (fun v => Ok (dict_set (Py.strip key) v frontmatter))
    | None => Ok frontmatter
    end
  else Ok frontmatter.

Fixpoint parse_lines (frontmatter : Dict) (lines : list string) : Res Dict :=
  match lines with
  | [] => Ok frontmatter
  | line :: rest => res_bind (parse_line frontmatter line) (fun fm => parse_lines fm rest)
  end.

Definition parse_simple_frontmatter (frontmatter_text : string) : Res Dict :=
  parse_lines [] (Py.split_char Py.NL frontmatter_text).

(** *** [extract_frontmatter] *)

(** PyYAML is optional: [Some safe_load] when the import succeeded. *)
Definition Yaml : Type := option (string -> Res PyVal).

(** The body of the [try]: the mapping parsed from the block. *)
Definition parse_block (yaml : Yaml) (frontmatter_text : string) : Res Dict :=
  match yaml with
  | Some safe_load =>
      res_bind (safe_load frontmatter_text)
        (fun parsed => Ok (match parsed with VDict d => d | _ => [] end))
  | None => parse_simple_frontmatter frontmatter_text
  end.

(** [try: body except Exception: handler] *)
Definition try_except {A} (body : Res A) (handler : Exn -> Res A) : Res A :=
  match body with
  | Ok a => Ok a
  | Raise e => handler e
  end.

Definition extract_frontmatter (yaml : Yaml) (content : string) : Res (Dict * string) :=
  let frontmatter : Dict := [] in
  let remaining_content := content in
  match frontmatter_match content with
  | Some (frontmatter_text, after) =>
      try_except
        (res_bind (parse_block yaml frontmatter_text) (fun fm => Ok (fm, after)))
        (fun _ => Ok (frontmatter, remaining_content))
  | None => Ok (frontmatter, remaining_content)
  end.

(** A note with [block] between the delimiters and [body] after them. *)
Definition note_of (block body : string) : string :=
  "---" +:+ Py.nl +:+ block +:+ Py.nl +:+ "---" +:+ Py.nl +:+ body.

(** A block with one entry of each kind, a comment and a line without a
    colon: [name: "Ada"], [age: 36], [ratio: 2.5], [draft: TRUE]. *)
Definition typed_block : string :=
  "name: " +:+ String Py.QUOTE ("Ada" +:+ String Py.QUOTE EmptyString) +:+ Py.nl +:+
  "# a comment: skipped" +:+ Py.nl +:+
  "age: 36" +:+ Py.nl +:+
  "no colon here" +:+ Py.nl +:+
  "ratio: 2.5" +:+ Py.nl +:+
  "draft: TRUE".

(** The note of the round-trip property: [---\nk: v\n---\nbody]. *)
Definition note_kv : string :=
  "---" +:+ Py.nl +:+ "k: v" +:+ Py.nl +:+ "---" +:+ Py.nl +:+ "body".

(** The same note without the body and without a newline after the
    closing delimiter: [---\nk: v\n---]. *)
Definition note_unclosed : string :=
  "---" +:+ Py.nl +:+ "k: v" +:+ Py.nl +:+ "---".

(** A note with nothing between the delimiters: [---\n---\nbody]. *)
Definition note_empty_block : string :=
  "---" +:+ Py.nl +:+ "---" +:+ Py.nl +:+ "body".

(** A loader that knows the block of that note. *)
Definition kv_loader (text : string) : Res PyVal :=
  if String.eqb text "k: v" then Ok (VDict [("k"%string, VStr "v")])
  else Raise (YAMLError "unexpected document").

(** A note whose block the fallback parser cannot read: [k: 1.2.3]. *)
Definition note_bad_float : string :=
  "---" +:+ Py.nl +:+ "k: 1.2.3" +:+ Py.nl +:+ "---" +:+ Py.nl +:+ "body".

End Frontmatter.

(** ** Configuration ([graphiti_bridge/config.py], the fields the pipeline reads) *)
Module Config.

(** One entry of [folder_namespace_mappings]; a field is [None] when the
    key is missing from the dictionary. *)
Record Mapping := mkMapping {
  folderPath : option string;
  groupId : option string;
  customExtractionInstructions : option string;
  sagaGrouping : option string;
  sagaPropertyKey : option string
}.

Record BridgeConfig := mkConfig {
  database_type : string;
  vault_path : option string;
  use_custom_ontology : bool;
  default_namespace : string;
  enable_folder_namespacing : bool;
  enable_property_namespacing : bool;
  namespace_strategy : string;
  folder_namespace_mappings : option (list Mapping);
  group_id : option string;
  global_extraction_instructions : option string;
  source_description : string;
  previous_episode_uuids : list string;
  debug : bool
}.

(** [x or ''] and the truth value of an optional string *)
Definition or_empty (x : option string) : string :=
  match x with Some s => s | None => EmptyString end.

Definition nonempty (x : option string) : option string :=
  match x with
  | Some s => if Py.is_empty s then None else Some s
  | None => None
  end.

(** [config.folder_namespace_mappings] when it is truthy *)
Definition mappings_of (config : BridgeConfig) : list Mapping :=
  match folder_namespace_mappings config with Some l => l | None => [] end.

End Config.

(** ** Namespace resolution ([graphiti_bridge/sync.py]) *)
Module Namespace.
Import Config.

(** *** [pathlib.Path(p).as_posix()] on a POSIX system *)

(** [posixpath.splitroot]: the root and the rest. *)
Definition splitroot (p : string) : string * string :=
  match p with
  | String "/" (String "/" (String "/" r)) => ("/", Py.drop_str 1 p)
  | String "/" (String "/" r) => ("//", r)
  | String "/" r => ("/", r)
  | _ => (EmptyString, p)
  end.

Definition keep_part (x : string) : bool :=
  negb (Py.is_empty x) && negb (String.eqb x ".").

(** Empty and [.] components are dropped; the empty path is [.]. *)
Definition as_posix (p : string) : string :=
  let (root, rel) := splitroot p in
  let s := root +:+ Py.join "/" (List.filter keep_part (Py.split_char "/" rel)) in
  if Py.is_empty s then "." else s.

(** *** [_resolve_custom_folder_mapping] *)

Definition folder_len (m : Mapping) : nat := String.length (or_empty (folderPath m)).

(** [sorted(..., key=len(folderPath), reverse=True)]: the sort is stable, so
    mappings of equal length keep their order. *)
Fixpoint insert_longest_first (m : Mapping) (sorted : list Mapping) : list Mapping :=
  match sorted with
  | [] => [m]
  | y :: r =>
      if folder_len m <? folder_len y then y :: insert_longest_first m r
      else m :: y :: r
  end.

Fixpoint sort_longest_first (l : list Mapping) : list Mapping :=
  match l with
  | [] => []
  | m :: r => insert_longest_first m (sort_longest_first r)
  end.

(** Longest first: every later element is at most as long. *)
Inductive LongestFirst : list Mapping -> Prop :=
| lf_nil : LongestFirst []
| lf_cons m l :
    (forall x, In x l -> folder_len x <= folder_len m) ->
    LongestFirst l -> LongestFirst (m :: l).

(** The folder of a normalized note path: the path without its last
    component. *)
Definition folder_of (note_path_normalized : string) : string :=
  let path_parts := Py.split_char "/" note_path_normalized in
  if 1 <? List.length path_parts then Py.join "/" (removelast path_parts)
  else EmptyString.

(** The test of the loop: the note's folder is the mapped folder or lies
    below it. *)
Definition folder_matches (note_folder_path folder_path_normalized : string) : bool :=
  String.eqb note_folder_path folder_path_normalized ||
  Py.startswith note_folder_path (folder_path_normalized +:+ "/").

Fixpoint first_matching (note_folder_path : string) (sorted : list Mapping) : option string :=
  match sorted with
  | [] => None
  | mapping :: rest =>
      let folder_path := or_empty (folderPath mapping) in
      let group := or_empty (groupId mapping) in
      if Py.is_empty folder_path || Py.is_empty group
      then first_matching note_folder_path rest
      else if folder_matches note_folder_path (as_posix folder_path)
      then Some group
      else first_matching note_folder_path rest
  end.

(** A mapping the loop does not skip, and one it returns on. *)
Definition usable (m : Mapping) : bool :=
  negb (Py.is_empty (or_empty (folderPath m))) && negb (Py.is_empty (or_empty (groupId m))).

Definition hits (note_folder_path : string) (m : Mapping) : bool :=
  usable m && folder_matches note_folder_path (as_posix (or_empty (folderPath m))).

Definition _resolve_custom_folder_mapping (note_path : string)
    (folder_mappings : list Mapping) : option string :=
  match folder_mappings with
  | [] => None
  | _ =>
      let note_path_normalized := as_posix note_path in
      first_matching (folder_of note_path_normalized)
                     (sort_longest_first folder_mappings)
  end.

(** *** [resolve_namespace] *)

(** The note's path relative to the vault root: the vault prefix is
    recognised without regard to case. *)
Definition vault_relative (note_path : string) (vault : option string) : string :=
  let note_posix := as_posix note_path in
  let vault_posix := Py.rstrip_char "/" (as_posix (or_empty vault)) in
  if negb (Py.is_empty vault_posix) &&
     Py.startswith (Py.lower note_posix) (Py.lower (vault_posix +:+ "/"))
  then Py.drop_str (String.length vault_posix + 1) note_posix
  else note_posix.

Definition _extract_vault_name_from_path (note_path default_ns : string) : string :=
  default_ns.

Section Resolve.

(** [str(v)] for a frontmatter value that is not a string. *)
Variable py_str : PyVal -> string.

Definition str_of (v : PyVal) : string :=
  match v with
  | VStr s => s
  | _ => py_str v
  end.

Definition property_namespace (metadata : Dict) (config : BridgeConfig) : option string :=
  if enable_property_namespacing config then
    match dict_get "g_group_id" metadata with
    | Some v =>
        let namespace := Py.strip (str_of v) in
        if Py.is_empty namespace then None else Some namespace
    | None => None
    end
  else None.

Definition folder_namespace (note_path : string) (config : BridgeConfig) : option string :=
  if enable_folder_namespacing config then
    match mappings_of config with
    | [] => None
    | mappings =>
        let note_path_for_mapping := vault_relative note_path (vault_path config) in
        nonempty (_resolve_custom_folder_mapping note_path_for_mapping mappings)
    end
  else None.

Definition strategy_namespace (note_path : string) (config : BridgeConfig) : string :=
  if String.eqb (namespace_strategy config) "vault"
  then _extract_vault_name_from_path note_path (default_namespace config)
  else if String.eqb (namespace_strategy config) "custom"
  then default_namespace config
  else default_namespace config.

Definition resolve_namespace (note_path : string) (metadata : Dict)
    (config : BridgeConfig) : string :=
  match property_namespace metadata config with
  | Some namespace => namespace
  | None =>
      match folder_namespace note_path config with
      | Some custom_group_id => custom_group_id
      | None => strategy_namespace note_path config
      end
  end.

End Resolve.

(** *** The matching of [process_note] for saga and extraction instructions

    The pipeline walks the same mappings a second time, in their configured
    order, and compares without regard to case. *)
Definition pipeline_matches (rel_path : string) (mapping : Mapping) : bool :=
  let folder_path := or_empty (folderPath mapping) in
  negb (Py.is_empty folder_path) &&
  Py.startswith (Py.lower rel_path)
                (Py.rstrip_char "/" (Py.lower folder_path) +:+ "/").

(** The relative path of that second walk: [Path.as_posix] and the same
    prefix strip. *)
Definition pipeline_mapping (note_path : string) (config : BridgeConfig) : option Mapping :=
  List.find (pipeline_matches (vault_relative note_path (vault_path config)))
            (mappings_of config).

(** *** The configuration of the specification's scenario *)
Definition mapping_p25 : Mapping :=
  mkMapping (Some "Projects/2025"%string) (Some "p25"%string) None None None.

Definition config_books : BridgeConfig :=
  {| database_type := "neo4j"; vault_path := None;
     use_custom_ontology := false; default_namespace := "books";
     enable_folder_namespacing := true; enable_property_namespacing := false;
     namespace_strategy := "vault";
     folder_namespace_mappings := Some [mapping_p25];
     group_id := None; global_extraction_instructions := None;
     source_description := "obsidian_mm_default";
     previous_episode_uuids := []; debug := false |}.

End Namespace.

(** ** Sagas ([graphiti_bridge/sync.py]) *)
Module Saga.

(** One entry of [syncs] in [sync.json]; a field is [None] when the key is
    missing. *)
Record SyncEntry := mkEntry {
  saga_name : option string;
  episode_uuid : option string;
  last_sync : option string
}.

(** One element of [sync_records]. *)
Record SyncRecord := mkRecord { syncs : option (list SyncEntry) }.

Section Names.

Variable py_str : PyVal -> string.

(** [str(v).lower().replace(' ', '-')[:n]] *)
Definition slug (n : nat) (v : PyVal) : string :=
  Py.take_str n (Py.replace " " "-" (Py.lower (Namespace.str_of py_str v))).

Definition truthy_value (v : option PyVal) : option PyVal :=
  match v with
  | Some x => if truthy x then Some x else None
  | None => None
  end.

Definition resolve_saga_name (saga_grouping : string) (saga_property_key : option string)
    (group_id : string) (note_type : option PyVal) (frontmatter : Dict) : option string :=
  if String.eqb saga_grouping "none" then None
  else if String.eqb saga_grouping "singleSaga" then Some ("all-" +:+ group_id)
  else
    match (if String.eqb saga_grouping "customProperty"
           then Config.nonempty saga_property_key else None) with
    | Some key =>
        match truthy_value (dict_get key frontmatter) with
        | Some prop_value => Some (slug 80 prop_value +:+ "-" +:+ group_id)
        | None => None
        end
    | None =>
        match truthy_value note_type with
        | Some t => Some (slug 40 t +:+ "-" +:+ group_id)
        | None => None
        end
    end.

End Names.

(** *** [lookup_saga_previous_uuid] *)

Definition entries_of (record : SyncRecord) : list SyncEntry :=
  match syncs record with Some l => l | None => [] end.

(** The condition of the comprehension. *)
Definition in_saga (target : string) (entry : SyncEntry) : bool :=
  match saga_name entry with
  | Some n => String.eqb n target
  | None => false
  end &&
  match Config.nonempty (episode_uuid entry) with Some _ => true | None => false end.

Definition matching_entries (target : string) (sync_records : list SyncRecord) : list SyncEntry :=
  List.filter (in_saga target) (List.concat (List.map entries_of sync_records)).

(** The sort key [e.get('last_sync', '')]; strings compare by code point. *)
Definition sync_key (e : SyncEntry) : string := Config.or_empty (last_sync e).

(** [matching.sort(key=..., reverse=True)]: stable, latest first. *)
Fixpoint insert_latest_first (e : SyncEntry) (sorted : list SyncEntry) : list SyncEntry :=
  match sorted with
  | [] => [e]
  | y :: r =>
      if String.ltb (sync_key e) (sync_key y) then y :: insert_latest_first e r
      else e :: y :: r
  end.

Fixpoint sort_latest_first (l : list SyncEntry) : list SyncEntry :=
  match l with
  | [] => []
  | e :: r => insert_latest_first e (sort_latest_first r)
  end.

(** The head of a list is not older than any other entry of it. *)
Definition heads_latest (l : list SyncEntry) : Prop :=
  match l with
  | [] => True
  | e :: r => forall x, In x r -> String.ltb (sync_key e) (sync_key x) = false
  end.

Definition lookup_saga_previous_uuid (target : string) (sync_records : list SyncRecord)
    : option string :=
  match sort_latest_first (matching_entries target sync_records) with
  | [] => None
  | first :: _ => episode_uuid first
  end.

(** *** [_load_sync_records] *)

(** What reading [sync.json] can amount to. *)
Inductive SyncFile :=
| Missing                     (* the path does not exist *)
| Unreadable (e : Exn)        (* [open] or [json.load] raises *)
| NotAnObject                 (* JSON that is not an object: [data.get] raises *)
| Document (sync_records : option (list SyncRecord)).
                              (* an object, with or without the key *)

Definition sync_json_path (vault_path : string) : string :=
  Py.rstrip_char "/" vault_path +:+ "/.obsidian/plugins/megamem-mcp/sync.json".

(** The body of the [try]. *)
Definition read_sync_file (file : SyncFile) : Res (option (list SyncRecord)) :=
  match file with
  | Missing => Ok None
  | Unreadable e => Raise e
  | NotAnObject => Raise (OtherError "'list' object has no attribute 'get'")
  | Document recs => Ok (Some (match recs with Some l => l | None => [] end))
  end.

Definition _load_sync_records (fs : string -> SyncFile) (vault_path : option string)
    : list SyncRecord :=
  match Config.nonempty vault_path with
  | None => []
  | Some vault =>
      match read_sync_file (fs (sync_json_path vault)) with
      | Ok (Some recs) => recs
      | Ok None => []
      | Raise _ => []
      end
  end.

(** The records of the specification's scenario. *)
Definition daily_books : list SyncRecord :=
  [ mkRecord (Some [ mkEntry (Some "daily-books"%string) (Some "U1"%string)
                             (Some "2030-01-01T00:00:00Z"%string);
                     mkEntry (Some "daily-books"%string) (Some "U2"%string)
                             (Some "2030-02-01T00:00:00Z"%string) ]) ].

End Saga.

(** ** Reference time ([extract_reference_time]) *)
Module RefTime.
Import Time.

(** The two readings of the clock: [datetime.now()], naive local time, and
    [datetime.now(timezone.utc)]. *)
Record Clock := mkClock {
  local_now : Datetime;
  utc_now : Datetime
}.

Definition now (c : Clock) : Datetime := replace_tzinfo (local_now c) None.
Definition now_utc (c : Clock) : Datetime := replace_tzinfo (utc_now c) utc.

Definition time_fields : list string :=
  ["date"; "created"; "created_at"; "timestamp"; "modified"]%string.

Definition formats : list Format := [FmtDate; FmtDateTimeT; FmtDateTimeSp].

(** The loop over the formats: the first one that parses. *)
Fixpoint parse_first (text : string) (fmts : list Format) : option Datetime :=
  match fmts with
  | [] => None
  | fmt :: rest =>
      match strptime text fmt with
      | Ok dt => Some dt
      | Raise _ => parse_first text rest
      end
  end.

(** What one truthy frontmatter value contributes. *)
Definition time_of_value (v : PyVal) : option Datetime :=
  match v with
  | VStr s => parse_first s formats
  | VDatetime dt => Some dt
  | VDate d => Some (combine_midnight d)
  | _ => None
  end.

(** The loop over the fields: a field counts when it is present and truthy,
    and the loop stops at the first field that gives a time. *)
Fixpoint scan_fields (metadata : Dict) (fields : list string) : option Datetime :=
  match fields with
  | [] => None
  | f :: rest =>
      match Saga.truthy_value (dict_get f metadata) with
      | Some v =>
          match time_of_value v with
          | Some dt => Some dt
          | None => scan_fields metadata rest
          end
      | None => scan_fields metadata rest
      end
  end.

(** What one frontmatter field contributes to the scan. *)
Definition field_time (metadata : Dict) (f : string) : option Datetime :=
  match Saga.truthy_value (dict_get f metadata) with
  | Some v => time_of_value v
  | None => None
  end.

Definition extract_reference_time (clock : Clock) (metadata : Dict)
    (database_type : string) : Datetime :=
  match scan_fields metadata time_fields with
  | None =>
      if String.eqb database_type "falkordb" then now_utc clock else now clock
  | Some reference_time =>
      if String.eqb database_type "falkordb" && negb (is_aware reference_time)
      then replace_tzinfo reference_time utc
      else reference_time
  end.

(** The conversion at the head of both episode builders. *)
Definition formatted_reference_time (reference_time : Datetime) : Datetime :=
  match tzinfo reference_time with
  | None => replace_tzinfo reference_time utc
  | Some _ => reference_time
  end.

End RefTime.

(** ** Episode construction ([create_generic_text_episode],
    [create_custom_entity_episode]) *)
Module Episode.
Import Time.

(** The custom ontology handed to the graph: entity and edge type names and
    the edges allowed between a pair of entity types. *)
Record Schema := mkSchema {
  entity_types : list string;
  edge_types : list string;
  edge_type_map : list (string * string * list string)
}.

(** The keyword arguments of [graphiti.add_episode]; an optional argument
    that is not passed is [None]. The source is always [EpisodeType.text]. *)
Record EpisodeKwargs := mkKwargs {
  name : string;
  episode_body : string;
  source_description : string;
  reference_time : Datetime;
  schema : option Schema;
  group_id : option string;
  previous_episode_uuids : option (list string);
  custom_extraction_instructions : option string;
  saga : option string;
  saga_previous_episode_uuid : option string
}.

(** What the pipeline reads off the graph's answer. *)
Record AddResult := mkAddResult {
  nodes : nat;
  edges : nat;
  uuid : option string
}.

(** The state the pipeline runs in: the graph client, the clock, the
    warnings written to the logger and, as a record of what happened, the
    episodes handed to the graph in the order of the calls. *)
Record World (G : Type) := mkWorld {
  graph : G;
  clock : RefTime.Clock;
  warnings : list string;
  submitted : list EpisodeKwargs
}.
Arguments mkWorld {G}.
Arguments graph {G}.
Arguments clock {G}.
Arguments warnings {G}.
Arguments submitted {G}.

(** Computations that read and change the world and may raise. *)
Definition M (G A : Type) : Type := World G -> Res A * World G.

Definition ret {G A} (a : A) : M G A := fun w => (Ok a, w).
Definition raise {G A} (e : Exn) : M G A := fun w => (Raise e, w).
Definition bind {G A B} (c : M G A) (k : A -> M G B) : M G B := fun w =>
  match c w with
  | (Ok a, w') => k a w'
  | (Raise e, w') => (Raise e, w')
  end.
Definition lift {G A} (r : Res A) : M G A := fun w => (r, w).

(** [try: body except Exception as e: handler(e)]: what the body did before
    it raised stays done. *)
Definition try_with {G A} (body : M G A) (handler : Exn -> M G A) : M G A := fun w =>
  match body w with
  | (Ok a, w') => (Ok a, w')
  | (Raise e, w') => handler e w'
  end.

(** [logger.warning(msg)] *)
Definition warning {G} (msg : string) : M G unit := fun w =>
  (Ok tt, mkWorld (graph w) (clock w) (warnings w ++ [msg]) (submitted w)).

Definition read_clock {G} : M G RefTime.Clock := fun w => (Ok (clock w), w).

Notation "x <- c ;; k" := (bind c (fun x => k))
  (at level 100, c at next level, right associativity).

Definition when_nonempty (s : option string) : option string := Config.nonempty s.

Section Builders.

Context {G : Type}.

(** [str(v)] and [json.dumps(v)] for frontmatter values. *)
Variable py_str : PyVal -> string.
Variable json_dumps : PyVal -> string.

(** The graph client: [await graphiti.add_episode] together with
    the commit that may follow it; time passes while it runs. *)
Variable add_episode :
  EpisodeKwargs -> G -> RefTime.Clock -> Res (option AddResult) * G * RefTime.Clock.

(** The three schema getters of [models.py], read together. *)
Variable get_schema : Res Schema.

(** One call of the graph client. *)
Definition submit (kwargs : EpisodeKwargs) : M G (option AddResult) := fun w =>
  match add_episode kwargs (graph w) (clock w) with
  | (r, g', c') => (r, mkWorld g' c' (warnings w) (submitted w ++ [kwargs]))
  end.

(** [source_description]: the frontmatter's [type] when it is truthy. *)
Definition describe_source (metadata : option Dict) (config : Config.BridgeConfig) : string :=
  match Saga.truthy_value (match metadata with
                           | Some d => dict_get "type" d
                           | None => None
                           end) with
  | Some t => Namespace.str_of py_str t
  | None => Config.source_description config
  end.

Definition render_value (v : PyVal) : string :=
  match v with
  | VDict _ | VList _ => json_dumps v
  | _ => Namespace.str_of py_str v
  end.

(** The frontmatter merged back on top of the text. *)
Definition merge_body (metadata : option Dict) (clean_text : string) : string :=
  match metadata with
  | Some ((_ :: _) as d) =>
      let frontmatter_lines :=
        ["---"%string] ++ List.map (fun kv => fst kv +:+ ": " +:+ render_value (snd kv)) d
        ++ ["---"%string] in
      Py.join Py.nl frontmatter_lines +:+ Py.nl +:+ clean_text
  | _ => clean_text
  end.

(** The arguments both builders share. *)
Definition base_kwargs (note_name clean_text : string) (reference_time : Datetime)
    (group : string) (database_type : string) (config : Config.BridgeConfig)
    (metadata : option Dict) (instructions saga_name saga_previous_uuid : option string)
    (sch : option Schema) : EpisodeKwargs :=
  {| name := note_name;
     episode_body := merge_body metadata clean_text;
     source_description := describe_source metadata config;
     reference_time := RefTime.formatted_reference_time reference_time;
     schema := sch;
     group_id := if String.eqb (Py.lower database_type) "neo4j" then Some group else None;
     previous_episode_uuids :=
       match Config.previous_episode_uuids config with
       | [] => None
       | l => Some l
       end;
     custom_extraction_instructions := when_nonempty instructions;
     saga := when_nonempty saga_name;
     saga_previous_episode_uuid := when_nonempty saga_previous_uuid |}.

Definition create_generic_text_episode (note_name clean_text : string)
    (reference_time : Datetime) (group : string) (database_type : string)
    (config : Config.BridgeConfig) (metadata : option Dict)
    (instructions saga_name saga_previous_uuid : option string) : M G (option AddResult) :=
  submit (base_kwargs note_name clean_text reference_time group database_type config
                      metadata instructions saga_name saga_previous_uuid None).

Definition fallback_warning (e : Exn) : string :=
  "Custom entity episode creation failed: " +:+ exn_text e +:+
  ", falling back to generic episode".

(** The body of the [try] of [create_custom_entity_episode]. With no entity
    types it calls the generic builder, without the frontmatter. *)
Definition custom_attempt (note_name clean_text : string) (reference_time : Datetime)
    (group : string) (metadata : Dict) (database_type : string)
    (config : Config.BridgeConfig)
    (instructions saga_name saga_previous_uuid : option string) : M G (option AddResult) :=
  sch <- lift get_schema ;;
  match entity_types sch with
  | [] =>
      create_generic_text_episode note_name clean_text reference_time group database_type
        config None instructions saga_name saga_previous_uuid
  | _ =>
      submit (base_kwargs note_name clean_text reference_time group database_type config
                          (Some metadata) instructions saga_name saga_previous_uuid
                          (Some sch))
  end.

Definition create_custom_entity_episode (note_name clean_text : string)
    (reference_time : Datetime) (group : string) (metadata : Dict)
    (database_type : string) (config : Config.BridgeConfig)
    (instructions saga_name saga_previous_uuid : option string) : M G (option AddResult) :=
  try_with
    (custom_attempt note_name clean_text reference_time group metadata database_type
                    config instructions saga_name saga_previous_uuid)
    (fun e =>
       _ <- warning (fallback_warning e) ;;
       create_generic_text_episode note_name clean_text reference_time group database_type
         config None instructions saga_name saga_previous_uuid).

(** The arguments of the generic submission that follows a custom attempt:
    the frontmatter is not passed on. *)
Definition fallback_kwargs (note_name clean_text : string) (reference_time : Datetime)
    (group database_type : string) (config : Config.BridgeConfig)
    (instructions saga_name saga_previous_uuid : option string) : EpisodeKwargs :=
  base_kwargs note_name clean_text reference_time group database_type
              config None instructions saga_name saga_previous_uuid None.

(** The arguments of the custom submission. *)
Definition custom_kwargs (note_name clean_text : string) (reference_time : Datetime)
    (group database_type : string) (config : Config.BridgeConfig)
    (instructions saga_name saga_previous_uuid : option string)
    (metadata : Dict) (sch : Schema) : EpisodeKwargs :=
  base_kwargs note_name clean_text reference_time group database_type
              config (Some metadata) instructions saga_name saga_previous_uuid (Some sch).

(** The two builders with the arguments in one order. *)
Definition generic_fallback (note_name clean_text : string) (reference_time : Datetime)
    (group database_type : string) (config : Config.BridgeConfig)
    (instructions saga_name saga_previous_uuid : option string) : M G (option AddResult) :=
  create_generic_text_episode note_name clean_text reference_time group database_type
    config None instructions saga_name saga_previous_uuid.

Definition custom_episode (note_name clean_text : string) (reference_time : Datetime)
    (group database_type : string) (config : Config.BridgeConfig)
    (instructions saga_name saga_previous_uuid : option string) (metadata : Dict)
    : M G (option AddResult) :=
  create_custom_entity_episode note_name clean_text reference_time group metadata
    database_type config instructions saga_name saga_previous_uuid.

(** The world after a failed attempt whose exception has been reported. *)
Definition warned (e : Exn) (w : World G) : World G :=
  mkWorld (graph w) (clock w) (warnings w ++ [fallback_warning e]) (submitted w).

End Builders.

(** *** A graph client for the examples

    The graph is the list of episodes it has accepted. [picky] refuses
    every episode that carries a custom schema; [accepting] takes all. *)
Definition sample_result : AddResult := mkAddResult 1 0 (Some "ep-1"%string).

Definition accepting (kwargs : EpisodeKwargs) (g : list EpisodeKwargs) (c : RefTime.Clock)
    : Res (option AddResult) * list EpisodeKwargs * RefTime.Clock :=
  (Ok (Some sample_result), g ++ [kwargs], c).

Definition picky (kwargs : EpisodeKwargs) (g : list EpisodeKwargs) (c : RefTime.Clock)
    : Res (option AddResult) * list EpisodeKwargs * RefTime.Clock :=
  match schema kwargs with
  | Some _ => (Raise (OtherError "schema rejected"), g, c)
  | None => accepting kwargs g c
  end.

Definition person_schema : Schema := mkSchema ["Person"%string] [] [].
Definition empty_schema : Schema := mkSchema [] [] [].

(** Rendering of frontmatter values for the examples: strings only. *)
Definition plain_str (v : PyVal) : string := EmptyString.

Definition noon : Datetime := mkDatetime 2026 3 1 12 0 0 0 None.

(** A clock in a zone two hours east of Greenwich. *)
Definition clock_east : RefTime.Clock :=
  RefTime.mkClock (mkDatetime 2026 3 1 14 0 0 0 None) (mkDatetime 2026 3 1 12 0 0 0 None).

Definition empty_world : World (list EpisodeKwargs) := mkWorld [] clock_east [] [].

End Episode.

(** ** The single-note pipeline ([process_note]) *)
Module Pipeline.
Import Time Episode.

(** *** Paths *)

Definition components (p : string) : list string :=
  List.filter Namespace.keep_part (Py.split_char "/" (snd (Namespace.splitroot p))).

(** [Path(p).name] *)
Definition path_name (p : string) : string := List.last (components p) EmptyString.

(** [Path(p).parts]: the root, when there is one, comes first. *)
Definition path_parts (p : string) : list string :=
  let root := fst (Namespace.splitroot p) in
  (if Py.is_empty root then [] else [root]) ++ components p.

Definition is_absolute (p : string) : bool := negb (Py.is_empty (fst (Namespace.splitroot p))).

(** [str(Path(a) / b)]: an absolute [b] replaces [a]; otherwise the parts of
    [b] follow those of [a], under the root of [a]. *)
Definition joinpath (a b : string) : string :=
  if is_absolute b then Namespace.as_posix b
  else
    let s := fst (Namespace.splitroot a) +:+ Py.join "/" (components a ++ components b) in
    if Py.is_empty s then "." else s.

(** A part of a path: not empty, not [.], without a slash. *)
Definition is_part (x : string) : Prop :=
  Namespace.keep_part x = true /\ Py.contains "/" x = false.

(** The position of the last [ch] in [s]. *)
Fixpoint rfind_from (ch : ascii) (s : string) (i : nat) (found : option nat) : option nat :=
  match s with
  | EmptyString => found
  | String c r => rfind_from ch r (S i) (if Ascii.eqb c ch then Some i else found)
  end.

(** [Path(p).stem]: the name without its last suffix. *)
Definition path_stem (p : string) : string :=
  let nm := path_name p in
  match rfind_from "." nm 0 None with
  | Some i => if (0 <? i) && (i <? String.length nm - 1) then Py.take_str i nm else nm
  | None => nm
  end.

(** The path the note is read from: the vault is prepended to a relative
    path that does not already start with the vault's directory name. *)
Definition full_note_path (note_path : string) (config : Config.BridgeConfig) : string :=
  match Config.nonempty (Config.vault_path config) with
  | Some vault =>
      let vault_path_norm := path_name vault in
      let starts_with_vault :=
        match path_parts note_path with
        | [] => false
        | first :: _ => String.eqb first vault_path_norm
        end in
      if negb (is_absolute note_path) && negb starts_with_vault
      then joinpath vault note_path
      else note_path
  | None => note_path
  end.

(** *** The provider's texts *)

(** Exactly [n] decimal digits at the start of [s]. *)
Fixpoint take_digits (n : nat) (s : string) : option (string * string) :=
  match n with
  | O => Some (EmptyString, s)
  | S k =>
      match s with
      | String c r =>
          if Py.is_decimal c then
            match take_digits k r with
            | Some (d, rest) => Some (String c d, rest)
            | None => None
            end
          else None
      | EmptyString => None
      end
  end.

(** A literal at the start of [s]. *)
Definition expect (lit s : string) : option string :=
  if String.prefix lit s then Some (Py.drop_str (String.length lit) s) else None.

(** [You will regain access on (\d{4}-\d{2}-\d{2}) at (\d{2}:\d{2}) UTC] at
    the start of [s]: the two groups. *)
Definition match_regain (s : string) : option (string * string) :=
  match expect "You will regain access on " s with
  | Some s1 =>
    match take_digits 4 s1 with
    | Some (y, s2) =>
      match expect "-" s2 with
      | Some s3 =>
        match take_digits 2 s3 with
        | Some (m, s4) =>
          match expect "-" s4 with
          | Some s5 =>
            match take_digits 2 s5 with
            | Some (d, s6) =>
              match expect " at " s6 with
              | Some s7 =>
                match take_digits 2 s7 with
                | Some (h, s8) =>
                  match expect ":" s8 with
                  | Some s9 =>
                    match take_digits 2 s9 with
                    | Some (mi, s10) =>
                      match expect " UTC" s10 with
                      | Some _ => Some (y +:+ "-" +:+ m +:+ "-" +:+ d, h +:+ ":" +:+ mi)
                      | None => None
                      end
                    | None => None
                    end
                  | None => None
                  end
                | None => None
                end
              | None => None
              end
            | None => None
            end
          | None => None
          end
        | None => None
        end
      | None => None
      end
    | None => None
    end
  | None => None
  end.

(** [re.search]: the leftmost position where [m] matches. *)
Fixpoint search {A} (m : string -> option A) (s : string) : option A :=
  match m s with
  | Some a => Some a
  | None =>
      match s with
      | String _ r => search m r
      | EmptyString => None
      end
  end.

(** A literal matched without regard to case. *)
Definition expect_nocase (lit s : string) : option string :=
  if String.prefix (Py.lower lit) (Py.lower (Py.take_str (String.length lit) s))
  then Some (Py.drop_str (String.length lit) s) else None.

Definition is_sep (c : ascii) : bool := Ascii.eqb c ":" || Py.isspace_char c.

Fixpoint skip_while (p : ascii -> bool) (s : string) : string :=
  match s with
  | String c r => if p c then skip_while p r else s
  | EmptyString => EmptyString
  end.

Fixpoint span_digits (s : string) : string :=
  match s with
  | String c r => if Py.is_decimal c then String c (span_digits r) else EmptyString
  | EmptyString => EmptyString
  end.

(** [retry[- ]?after[:\s]+(\d+)] with IGNORECASE at the start of [s]: the
    number of the group, as [int] reads it. *)
Definition match_retry_after (s : string) : option (Res Z) :=
  match expect_nocase "retry" s with
  | Some s1 =>
      let s2 := match s1 with
                | String c r => if Ascii.eqb c "-" || Ascii.eqb c " " then r else s1
                | EmptyString => s1
                end in
      match expect_nocase "after" s2 with
      | Some s3 =>
          match s3 with
          | String c r =>
              if is_sep c then
                let digits := span_digits (skip_while is_sep r) in
                if Py.is_empty digits then None else Some (int_of_digits digits)
              else None
          | EmptyString => None
          end
      | None => None
      end
  | None => None
  end.

(** The test that makes an exception a rate limit. *)
Definition is_rate_limit (original_error : string) : bool :=
  let error_message := Py.lower original_error in
  Py.contains "http/1.1 400 bad request" error_message ||
  Py.contains "rate limit" error_message ||
  Py.contains "too many requests" error_message ||
  Py.contains "usage limits" error_message.

(** The [reset_time] of a result: absent, the ISO text, or the [datetime]
    object itself, which is what the code leaves there when the instant is
    not in the future. *)
Inductive ResetTime :=
| NoReset
| ResetIso (text : string)
| ResetDatetime (dt : Datetime).

Definition default_retry_after : Z := 60.

(** The seconds between two instants, as [int(delta.total_seconds())]. *)
Definition whole_seconds (from to : Datetime) : Z :=
  Z.quot (instant_us to - instant_us from) 1000000.

(** The first step: the provider's reset time, when the text holds one. *)
Definition parse_reset (now_utc : Datetime) (original_error : string) : Z * ResetTime :=
  match search match_regain original_error with
  | Some (date_str, time_str) =>
      match strptime (date_str +:+ " " +:+ time_str) FmtDateMinute with
      | Ok parsed =>
          let reset_time := replace_tzinfo parsed utc in
          if (instant_us now_utc <? instant_us reset_time)%Z
          then (whole_seconds now_utc reset_time, ResetIso (isoformat reset_time))
          else (default_retry_after, ResetDatetime reset_time)
      | Raise _ => (default_retry_after, NoReset)
      end
  | None => (default_retry_after, NoReset)
  end.

(** Both steps: the marker is consulted when [retry_after] is 60; a marker
    whose number [int] refuses makes the handler raise. *)
Definition rate_limit_fields (now_utc : Datetime) (original_error : string)
    : Res (Z * ResetTime) :=
  let (retry_after, reset_time) := parse_reset now_utc original_error in
  if (retry_after =? 60)%Z then
    match search match_retry_after original_error with
    | Some number => res_bind number (fun n => Ok (n, reset_time))
    | None => Ok (retry_after, reset_time)
    end
  else Ok (retry_after, reset_time).

Definition leading_line (text : string) : string :=
  List.hd EmptyString (Py.split_char Py.NL text).

(** *** The result *)

Inductive Status := success | failed | rate_limited | infrastructure_error.

Record Metrics := mkMetrics {
  entities_count : nat;
  relationships_count : nat;
  content_length : nat;
  metadata_fields : nat
}.

(** The dictionary [process_note] returns; a key that is not set is [None]
    (or [NoReset], or [false]). *)
Record NoteResult := mkResult {
  note_path : string;
  note_name : string;
  status : Status;
  namespace : option string;
  episode_uuid : option string;
  saga_name : option string;
  reference_time : option string;
  processing_duration_us : Z;
  start_time : string;
  end_time : string;
  metrics : option Metrics;
  error : option string;
  provider_message : option string;
  retry_after : option Z;
  reset_time : ResetTime;
  cancel_sync : bool
}.

Section Process.

Context {G : Type}.

Variable py_str : PyVal -> string.
Variable json_dumps : PyVal -> string.
Variable add_episode :
  EpisodeKwargs -> G -> RefTime.Clock -> Res (option AddResult) * G * RefTime.Clock.
Variable get_schema : Res Schema.

(** PyYAML, when it is installed. *)
Variable yaml : Frontmatter.Yaml.

(** The substitutions of [extract_text_content] that follow the removal of
    the frontmatter. *)
Variable clean_markdown : string -> string.

(** The files: the text of a note that [validate_note_file] accepts, and
    what reading [sync.json] amounts to. *)
Variable notes : string -> option string.
Variable fs : string -> Saga.SyncFile.

Definition extract_text_content (content : string) : string :=
  match Frontmatter.extract_frontmatter yaml content with
  | Ok (_, clean_content) => clean_markdown clean_content
  | Raise _ => clean_markdown content
  end.

(** The folder mapping the pipeline applies to a note, see
    [Namespace.pipeline_mapping]. *)
Definition instructions_for (note_path : string) (config : Config.BridgeConfig) : option string :=
  let global_instructions := Config.nonempty (Config.global_extraction_instructions config) in
  match Namespace.pipeline_mapping note_path config with
  | Some mapping =>
      match Config.nonempty (Config.customExtractionInstructions mapping) with
      | Some ns_instructions => Some ns_instructions
      | None => global_instructions
      end
  | None => global_instructions
  end.

Definition saga_for (note_path : string) (config : Config.BridgeConfig)
    (group : string) (metadata : Dict) : option string :=
  match Namespace.pipeline_mapping note_path config with
  | Some mapping =>
      Saga.resolve_saga_name py_str
        (match Config.sagaGrouping mapping with Some g => g | None => "byNoteType"%string end)
        (Config.sagaPropertyKey mapping) group (dict_get "type" metadata) metadata
  | None => None
  end.

Definition duration_us (start finish : Datetime) : Z := instant_us finish - instant_us start.

(** The body of the [try], after the note has been read. *)
Definition process_body (note_path content : string) (config : Config.BridgeConfig)
    (note_start_time : Datetime) : M G (option NoteResult) :=
  extracted <- lift (Frontmatter.extract_frontmatter yaml content) ;;
  let metadata : Dict := fst extracted in
  let clean_text := extract_text_content content in
  let note_name := path_stem note_path in
  if match dict_get "private" metadata with Some v => truthy v | None => false end
  then ret None
  else
    let database_type := Config.database_type config in
    c <- read_clock ;;
    let reference_time := RefTime.extract_reference_time c metadata database_type in
    let group :=
      match Config.nonempty (Config.group_id config) with
      | Some group_id_override => group_id_override
      | None => Namespace.resolve_namespace py_str note_path metadata config
      end in
    let custom_extraction_instructions := instructions_for note_path config in
    let saga_name := Config.nonempty (saga_for note_path config group metadata) in
    let saga_previous_uuid :=
      match saga_name with
      | Some s =>
          Saga.lookup_saga_previous_uuid s
            (Saga._load_sync_records fs (Config.vault_path config))
      | None => None
      end in
    graphiti_result <-
      (if Config.use_custom_ontology config
       then create_custom_entity_episode py_str json_dumps add_episode get_schema
              note_name clean_text reference_time group metadata database_type config
              custom_extraction_instructions saga_name saga_previous_uuid
       else create_generic_text_episode py_str json_dumps add_episode
              note_name clean_text reference_time group database_type config
              (Some metadata) custom_extraction_instructions saga_name saga_previous_uuid) ;;
    c' <- read_clock ;;
    let note_end_time := RefTime.now c' in
    match graphiti_result with
    | Some r =>
        ret (Some
          {| note_path := note_path; note_name := note_name; status := success;
             namespace := Some group; episode_uuid := uuid r; saga_name := saga_name;
             reference_time := Some (isoformat reference_time);
             processing_duration_us := duration_us note_start_time note_end_time;
             start_time := isoformat note_start_time;
             end_time := isoformat note_end_time;
             metrics := Some (mkMetrics (nodes r) (edges r) (String.length clean_text)
                                        (List.length metadata));
             error := None; provider_message := None; retry_after := None;
             reset_time := NoReset; cancel_sync := false |})
    | None =>
        ret (Some
          {| note_path := note_path; note_name := note_name; status := failed;
             namespace := Some group; episode_uuid := None; saga_name := None;
             reference_time := Some (isoformat reference_time);
             processing_duration_us := duration_us note_start_time note_end_time;
             start_time := isoformat note_start_time;
             end_time := isoformat note_end_time;
             metrics := None;
             error := Some "Episode creation returned no result"%string;
             provider_message := None; retry_after := None;
             reset_time := NoReset; cancel_sync := false |})
    end.

(** What the results of the two [except] clauses share. *)
Definition error_result (path : string) (note_start_time note_end_time : Datetime)
    (st : Status) (err : string) (provider : string) (retry : option Z)
    (reset : ResetTime) (cancel : bool) : NoteResult :=
  {| note_path := path; note_name := path_stem path; status := st;
     namespace := None; episode_uuid := None; saga_name := None;
     reference_time := None;
     processing_duration_us := duration_us note_start_time note_end_time;
     start_time := isoformat note_start_time;
     end_time := isoformat note_end_time;
     metrics := None; error := Some err; provider_message := Some provider;
     retry_after := retry; reset_time := reset; cancel_sync := cancel |}.

(** The two [except] clauses. *)
Definition on_exception (path : string) (note_start_time : Datetime) (e : Exn)
    : M G (option NoteResult) :=
  c <- read_clock ;;
  let note_end_time := RefTime.now c in
  match e with
  | InfrastructureError msg =>
      ret (Some (error_result path note_start_time note_end_time infrastructure_error
                   "Service provider infrastructure issue - please try again later"
                   msg None NoReset true))
  | _ =>
      let original_error := exn_text e in
      if is_rate_limit original_error then
        fields <- lift (rate_limit_fields (RefTime.now_utc c) original_error) ;;
        ret (Some (error_result path note_start_time note_end_time rate_limited
                     "API rate limit exceeded - sync will pause until reset"
                     (leading_line original_error) (Some (fst fields)) (snd fields) false))
      else raise e
  end.

Definition process_note (note_path : string) (config : Config.BridgeConfig)
    : M G (option NoteResult) :=
  c <- read_clock ;;
  let note_start_time := RefTime.now c in
  match notes (full_note_path note_path config) with
  | None => ret None
  | Some content =>
      try_with (process_body note_path content config note_start_time)
               (on_exception note_path note_start_time)
  end.

End Process.

(** *** Notes, providers and clocks for the examples *)

(** A provider that refuses every episode with the given text. *)
Definition refusing (text : string) (kwargs : EpisodeKwargs) (g : list EpisodeKwargs)
    (c : RefTime.Clock) : Res (option AddResult) * list EpisodeKwargs * RefTime.Clock :=
  (Raise (OtherError text), g, c).

(** The provider's text of the specification's scenario, on two lines. *)
Definition usage_limit_text : string :=
  "HTTP/1.1 400 Bad Request" +:+ Py.nl +:+
  "You will regain access on 2030-01-02 at 03:04 UTC".

(** A text with both a reset time and a retry-after marker. *)
Definition marker_text : string :=
  "Rate limit reached. You will regain access on 2030-01-02 at 03:04 UTC. retry-after: 5".

(** One minute before the reset time, on a machine that runs on UTC. *)
Definition minute_before : RefTime.Clock :=
  RefTime.mkClock (mkDatetime 2030 1 2 3 3 0 0 None) (mkDatetime 2030 1 2 3 3 0 0 None).

Definition world_at (c : RefTime.Clock) : World (list EpisodeKwargs) := mkWorld [] c [] [].

Definition plain_note : string := "Some text.".

Definition private_note : string :=
  "---" +:+ Py.nl +:+ "private: true" +:+ Py.nl +:+ "---" +:+ Py.nl +:+ "A secret.".

(** [process_note] on a file system with one readable note, without YAML
    and without [sync.json]. *)
Definition run_note (provider : EpisodeKwargs -> list EpisodeKwargs -> RefTime.Clock ->
                                Res (option AddResult) * list EpisodeKwargs * RefTime.Clock)
    (content : string) (c : RefTime.Clock)
    : Res (option NoteResult) * World (list EpisodeKwargs) :=
  process_note plain_str plain_str provider (Ok empty_schema) None (fun text => text)
    (fun _ => Some content) (fun _ => Saga.Missing)
    "Projects/2025/notes/today.md" Namespace.config_books (world_at c).

End Pipeline.

(** ** Dictionary keys: hashable values up to [==] *)
Module PyKey.

Local Open Scope Z_scope.

(** A hashable value up to Python's equality: [True], [1] and [1.0] are one
    key. A number is an integer, a fraction [m * 2 ^ e] with [m] odd and
    [e] negative, an infinity or NaN; an aware [datetime] is the instant it
    denotes. *)
Inductive Key :=
| KNone
| KInt (n : Z)
| KFrac (negative : bool) (m : positive) (e : Z)
| KInf (negative : bool)
| KNaN
| KStr (s : string)
| KDate (y m d : Z)
| KNaive (date : Z * Z * Z) (time : Z * Z * Z * Z)
| KAware (instant_us : Z).

(** The odd part of a mantissa, with the exponent that goes with it. *)
Fixpoint odd_part (m : positive) (e : Z) : positive * Z :=
  match m with
  | xO m' => odd_part m' (e + 1)
  | _ => (m, e)
  end.

Definition float_key (x : spec_float) : Key :=
  match x with
  | S754_zero _ => KInt 0
  | S754_infinity s => KInf s
  | S754_nan => KNaN
  | S754_finite s m e =>
      let (m', e') := odd_part m e in
      if 0 <=? e' then KInt ((if s then -1 else 1) * (Zpos m' * 2 ^ e'))
      else KFrac s m' e'
  end.

(** The key of a value; a list or a dict has none ([TypeError: unhashable
    type]). *)
Definition key_of (v : PyVal) : option Key :=
  match v with
  | VNone => Some KNone
  | VBool b => Some (KInt (if b then 1 else 0))
  | VInt n => Some (KInt n)
  | VFloat x => Some (float_key x)
  | VStr s => Some (KStr s)
  | VDate d => Some (KDate (Time.d_year d) (Time.d_month d) (Time.d_day d))
  | VDatetime dt =>
      Some (match Time.tzinfo dt with
            | Some _ => KAware (Time.instant_us dt)
            | None =>
                KNaive (Time.year dt, Time.month dt, Time.day dt)
                       (Time.hour dt, Time.minute dt, Time.second dt,
                        Time.microsecond dt)
            end)
  | VList _ | VDict _ => None
  end.

Definition triple_eqb (a b : Z * Z * Z) : bool :=
  let '(x, y, z) := a in
  let '(x', y', z') := b in
  (x =? x') && (y =? y') && (z =? z').

Definition quad_eqb (a b : Z * Z * Z * Z) : bool :=
  let '(w, x, y, z) := a in
  let '(w', x', y', z') := b in
  (w =? w') && (x =? x') && (y =? y') && (z =? z').

(** The test of a dictionary lookup, [a is b or a == b]. Every NaN that
    [json.loads] reads is the one object [json.decoder.NaN], so as a key it
    is found, by identity. *)
Definition key_eqb (a b : Key) : bool :=
  match a, b with
  | KNone, KNone => true
  | KInt x, KInt y => x =? y
  | KFrac s m e, KFrac s' m' e' => Bool.eqb s s' && (m =? m')%positive && (e =? e')
  | KInf s, KInf s' => Bool.eqb s s'
  | KNaN, KNaN => true
  | KStr s, KStr s' => String.eqb s s'
  | KDate y m d, KDate y' m' d' => triple_eqb (y, m, d) (y', m', d')
  | KNaive d t, KNaive d' t' => triple_eqb d d' && quad_eqb t t'
  | KAware i, KAware i' => i =? i'
  | _, _ => false
  end.

(** [a == b] where [a] has the key [k]: NaN is equal to nothing, itself
    included, and a list or a dict is equal to no hashable value. *)
Definition equals (k : Key) (b : PyVal) : bool :=
  match k, key_of b with
  | KNaN, _ => false
  | _, Some k' => key_eqb k k'
  | _, None => false
  end.

(** The stored key [x] is the one looked up. *)
Definition holds (k : Key) (x : PyVal) : bool :=
  match key_of x with
  | Some k' => key_eqb k' k
  | None => false
  end.

(** A [dict] whose keys are values, in insertion order: [d.get(key)],
    [d[key] = v], which keeps the key object of an entry that exists, and
    [del d[key]]; [k] is the key of [key]. *)
Fixpoint key_get {V} (k : Key) (d : list (PyVal * V)) : option V :=
  match d with
  | [] => None
  | (x, v) :: r => if holds k x then Some v else key_get k r
  end.

Fixpoint key_set {V} (k : Key) (key : PyVal) (v : V) (d : list (PyVal * V))
    : list (PyVal * V) :=
  match d with
  | [] => [(key, v)]
  | (x, v') :: r =>
      if holds k x then (x, v) :: r else (x, v') :: key_set k key v r
  end.

Fixpoint key_del {V} (k : Key) (d : list (PyVal * V)) : list (PyVal * V) :=
  match d with
  | [] => []
  | (x, v) :: r => if holds k x then r else (x, v) :: key_del k r
  end.

(** [key in d] *)
Definition key_in {V} (k : Key) (d : list (PyVal * V)) : bool :=
  match key_get k d with Some _ => true | None => false end.

End PyKey.

(** ** The WebSocket hub ([mcp-server/websocket_server.py]) *)
Module Hub.

(** An [asyncio.Future]. *)
Inductive FutureState :=
| Waiting
| Resolved (response : Dict)
| Cancelled.

Definition is_done (f : FutureState) : bool :=
  match f with Waiting => false | _ => true end.

(** The frame of a [request_file_operation] call that has registered its
    future and has not returned yet: the client it resolved, the vault it
    was asked for and its future. *)
Record Call := mkCall {
  call_client : string;
  call_vault : PyVal;
  call_future : nat
}.

(** The server object, the futures it has created (a future is shared by
    the pending table and by the call that awaits it, so futures live in a
    store and are named by their position), the calls in flight, and the
    messages sent to clients. A vault id is whatever value a client gave as
    its vault name; [active_vault_id] is [VNone] when no vault is active. *)
Record State := mkState {
  auth_token : string;
  clients : gset string;
  vault_info : list (string * PyVal);
  client_to_vault : list (string * PyVal);
  vault_to_client : list (PyVal * string);
  pending_requests : gmap string nat;
  active_vault_id : PyVal;
  futures : list FutureState;
  calls : gmap string Call;
  sent : list (string * Dict)
}.

Definition init (token : string) : State :=
  mkState token ∅ [] [] [] ∅ VNone [] ∅ [].

(** [del d[k]] *)
Fixpoint dict_del {V} (k : string) (d : list (string * V)) : list (string * V) :=
  match d with
  | [] => []
  | (k', v) :: r => if String.eqb k' k then r else (k', v) :: dict_del k r
  end.

Definition set_pending (st : State) (p : gmap string nat) (fs : list FutureState)
    (cs : gmap string Call) : State :=
  mkState (auth_token st) (clients st) (vault_info st) (client_to_vault st)
          (vault_to_client st) p (active_vault_id st) fs cs (sent st).

Definition set_vaults (st : State) (c2v : list (string * PyVal))
    (v2c : list (PyVal * string)) (active : PyVal) : State :=
  mkState (auth_token st) (clients st) (vault_info st) c2v v2c
          (pending_requests st) active (futures st) (calls st) (sent st).

(** [send_to_client]: a message goes out when the client is connected. *)
Definition send_to_client (client_id : string) (message : Dict) (st : State) : State :=
  if decide (client_id ∈ clients st)
  then mkState (auth_token st) (clients st) (vault_info st) (client_to_vault st)
               (vault_to_client st) (pending_requests st) (active_vault_id st)
               (futures st) (calls st) (sent st ++ [(client_id, message)])
  else st.

(** [message.get(k, default)] *)
Definition get_or (k : string) (default : PyVal) (message : Dict) : PyVal :=
  match dict_get k message with Some v => v | None => default end.

(** *** [handle_message] *)

(** The envelope a future is resolved with. *)
Definition response_data (message : Dict) : Dict :=
  [ ("success"%string, get_or "success" (VBool false) message);
    ("payload"%string, get_or "payload" (VDict []) message);
    ("error"%string, get_or "error" VNone message);
    ("timestamp"%string, get_or "timestamp" VNone message) ].

(** ['response' in msg_type] for a truthy [msg_type]. *)
Definition mentions_response (msg_type : PyVal) : Res bool :=
  match msg_type with
  | VStr s => Ok (Py.contains "response" s)
  | VList l => Ok (existsb (fun v => match v with
                                     | VStr s => String.eqb s "response"
                                     | _ => false
                                     end) l)
  | VDict d => Ok (match dict_get "response" d with Some _ => true | None => false end)
  | _ => Raise (TypeError "argument is not iterable")
  end.

(** [vault_name or f"vault_{client_id}"]: the vault name of a registration
    payload, whatever value it is, unless it is missing or falsy. *)
Definition vault_id_of (client_id : string) (payload : Dict) : PyVal :=
  let vault_name := get_or "vaultName" (VStr EmptyString) payload in
  if truthy vault_name then vault_name else VStr ("vault_" +:+ client_id).

(** The branch for [register]. The payload is stored first, so it stays
    stored when reading the vault name off a payload that is not an object
    raises; and the client is mapped to its vault id before the vault id is
    used as a key, so that entry stays when the id is a list or an object,
    which cannot be a key. *)
Definition register (client_id : string) (message : Dict) (st : State) : Res unit * State :=
  let payload := get_or "payload" (VDict []) message in
  let st1 :=
    mkState (auth_token st) (clients st) (dict_set client_id payload (vault_info st))
            (client_to_vault st) (vault_to_client st) (pending_requests st)
            (active_vault_id st) (futures st) (calls st) (sent st) in
  match payload with
  | VDict p =>
      let vault_id := vault_id_of client_id p in
      let c2v := dict_set client_id vault_id (client_to_vault st1) in
      match PyKey.key_of vault_id with
      | Some k =>
          let active :=
            if truthy (active_vault_id st1) then active_vault_id st1 else vault_id in
          let st2 :=
            set_vaults st1 c2v (PyKey.key_set k vault_id client_id (vault_to_client st1))
                       active in
          (Ok tt,
           send_to_client client_id
             [ ("type"%string, VStr "registered");
               ("success"%string, VBool true);
               ("vaultId"%string, vault_id);
               ("isActive"%string, VBool (PyKey.equals k active)) ] st2)
      | None =>
          (Raise (TypeError "unhashable type"),
           set_vaults st1 c2v (vault_to_client st1) (active_vault_id st1))
      end
  | _ => (Raise (OtherError "payload has no attribute 'get'"), st1)
  end.

(** The branch for responses to file operations: the entry is popped and
    the future, unless it is done, is resolved. *)
Definition resolve_response (message : Dict) (st : State) : Res unit * State :=
  match dict_get "id" message with
  | Some (VStr request_id) =>
      if Py.is_empty request_id then (Ok tt, st)
      else
        match pending_requests st !! request_id with
        | Some h =>
            let fs :=
              match futures st !! h with
              | Some Waiting => <[h := Resolved (response_data message)]> (futures st)
              | _ => futures st
              end in
            (Ok tt, set_pending st (delete request_id (pending_requests st)) fs (calls st))
        | None => (Ok tt, st)
        end
  | Some (VList (_ :: _)) | Some (VDict (_ :: _)) =>
      (Raise (TypeError "unhashable type"), st)
  | _ => (Ok tt, st)
  end.

(** The last branch; the text of the error is abridged. *)
Definition unknown_type (client_id : string) (message : Dict) (st : State) : State :=
  send_to_client client_id
    [ ("type"%string, VStr "error");
      ("error"%string, VStr "Unknown message type") ] st.

Definition handle_message (client_id : string) (message : Dict) (st : State)
    : Res unit * State :=
  let msg_type := get_or "type" VNone message in
  match msg_type with
  | VStr "register" => register client_id message st
  | VStr "pong" => (Ok tt, st)
  | _ =>
      if truthy msg_type then
        match mentions_response msg_type with
        | Ok is_response =>
            if is_response &&
               match dict_get "id" message with Some _ => true | None => false end
            then resolve_response message st
            else (Ok tt, unknown_type client_id message st)
        | Raise e => (Raise e, st)
        end
      else (Ok tt, unknown_type client_id message st)
  end.

(** One text frame in the loop of [websocket_handler]: an exception of
    [handle_message] is answered with an error message. *)
Definition on_message (client_id : string) (message : Dict) (st : State) : State :=
  match handle_message client_id message st with
  | (Ok _, st') => st'
  | (Raise _, st') =>
      send_to_client client_id
        [ ("type"%string, VStr "error");
          ("error"%string, VStr "Internal error processing message") ] st'
  end.

(** *** Disconnection: the [finally] of [websocket_handler] *)

Definition future_done (fs : list FutureState) (h : nat) : bool :=
  match fs !! h with
  | Some f => is_done f
  | None => true
  end.

(** The first loop: the requests whose future is not done. *)
Definition requests_to_cancel (st : State) : list (string * nat) :=
  List.filter (fun rh => negb (future_done (futures st) (snd rh)))
              (map_to_list (pending_requests st)).

(** The second loop, one request: pop the entry and cancel its future. *)
Definition cancel_request (acc : gmap string nat * list FutureState) (rh : string * nat)
    : gmap string nat * list FutureState :=
  match fst acc !! fst rh with
  | Some h =>
      (delete (fst rh) (fst acc),
       if future_done (snd acc) h then snd acc else <[h := Cancelled]> (snd acc))
  | None => acc
  end.

(** Both loops. *)
Definition cancel_pending (st : State) : State :=
  let cancelled :=
    List.fold_left cancel_request (requests_to_cancel st)
                   (pending_requests st, futures st) in
  set_pending st (fst cancelled) (snd cancelled) (calls st).

(** The clean-up. The client, its payload and its vault id are removed
    first. A vault id that cannot be a key makes [vault_id in
    self.vault_to_client] raise [TypeError]: the exception leaves the
    [finally] block, and neither the vault table nor the pending requests
    are touched. *)
Definition on_disconnect (client_id : string) (st : State) : State :=
  let st1 :=
    mkState (auth_token st) (clients st ∖ {[client_id]})
            (dict_del client_id (vault_info st))
            (client_to_vault st) (vault_to_client st) (pending_requests st)
            (active_vault_id st) (futures st) (calls st) (sent st) in
  match dict_get client_id (client_to_vault st) with
  | Some vault_id =>
      let c2v := dict_del client_id (client_to_vault st) in
      match PyKey.key_of vault_id with
      | Some k =>
          let v2c := PyKey.key_del k (vault_to_client st) in
          let active :=
            if PyKey.equals k (active_vault_id st)
            then match v2c with
                 | [] => VNone
                 | (first, _) :: _ => first
                 end
            else active_vault_id st in
          cancel_pending (set_vaults st1 c2v v2c active)
      | None => set_vaults st1 c2v (vault_to_client st) (active_vault_id st)
      end
  | None => cancel_pending st1
  end.

(** *** [request_file_operation] *)

(** The fallback loop over the registration payloads; a payload that is
    not an object has no [get]. [k] is the key of the vault id asked for. *)
Fixpoint legacy_lookup (k : PyKey.Key) (infos : list (string * PyVal))
    : Res (option string) :=
  match infos with
  | [] => Ok None
  | (cid, VDict info) :: rest =>
      if PyKey.equals k (get_or "vaultName" VNone info) || PyKey.equals k (VStr cid)
      then Ok (Some cid)
      else legacy_lookup k rest
  | _ :: _ => Raise (OtherError "object has no attribute 'get'")
  end.

(** The client for a vault: the direct table first, then the payloads. A
    vault id that cannot be a key raises. *)
Definition find_client (vault_id : PyVal) (st : State) : Res (option string) :=
  match PyKey.key_of vault_id with
  | Some k =>
      match Config.nonempty (PyKey.key_get k (vault_to_client st)) with
      | Some client_id => Ok (Some client_id)
      | None => legacy_lookup k (vault_info st)
      end
  | None => Raise (TypeError "unhashable type")
  end.

(** The call up to its wait. [Ok None]: no client is connected for the
    vault and the call returns [None] at once. [Ok (Some st')]: the future
    is created and stored under the fresh [request_id] and the request is
    sent. *)
Definition start_request (request_id : string) (vault_id operation params : PyVal)
    (st : State) : Res (option State) :=
  res_bind (find_client vault_id st) (fun found =>
    match found with
    | Some client_id =>
        if negb (Py.is_empty client_id) && bool_decide (client_id ∈ clients st) then
          let h := List.length (futures st) in
          let st' :=
            set_pending st (<[request_id := h]> (pending_requests st))
                        (futures st ++ [Waiting])
                        (<[request_id := mkCall client_id vault_id h]> (calls st)) in
          Ok (Some (send_to_client client_id
                      [ ("id"%string, VStr request_id);
                        ("type"%string, operation);
                        ("payload"%string, params) ] st'))
        else Ok None
    | None => Ok None
    end).

(** How a call that waits can leave. *)
Inductive Exit :=
| Reply (response : Dict)      (* the future was resolved *)
| TimedOut                     (* [asyncio.TimeoutError] *)
| Failed (e : Exn)             (* another exception, caught *)
| CancelledExit.               (* the future was cancelled *)

(** The [finally] clause: the entry is popped on every way out, and the
    frame is gone. *)
Definition finish_request (request_id : string) (st : State) : State :=
  set_pending st (delete request_id (pending_requests st)) (futures st)
              (delete request_id (calls st)).

(** The deadline of [wait_for] passes: the future is cancelled and the call
    leaves with the timeout answer. *)
Definition on_timeout (request_id : string) (st : State) : State * option Exit :=
  match calls st !! request_id with
  | Some c =>
      match futures st !! call_future c with
      | Some Waiting =>
          (finish_request request_id
             (set_pending st (pending_requests st)
                          (<[call_future c := Cancelled]> (futures st)) (calls st)),
           Some TimedOut)
      | _ => (st, None)
      end
  | None => (st, None)
  end.

(** The waiting call resumes because its future is done. *)
Definition on_wake (request_id : string) (st : State) : State * option Exit :=
  match calls st !! request_id with
  | Some c =>
      match futures st !! call_future c with
      | Some (Resolved r) => (finish_request request_id st, Some (Reply r))
      | Some Cancelled => (finish_request request_id st, Some CancelledExit)
      | _ => (st, None)
      end
  | None => (st, None)
  end.

(** The call is resumed with an exception (sending failed, say). *)
Definition on_failure (request_id : string) (e : Exn) (st : State) : State * option Exit :=
  match calls st !! request_id with
  | Some _ => (finish_request request_id st, Some (Failed e))
  | None => (st, None)
  end.

(** *** The hub as a transition system *)

Inductive Event :=
| Connect (client_id : string)
| Receive (client_id : string) (message : Dict)
| Disconnect (client_id : string)
| Request (request_id : string) (vault_id operation params : PyVal)
| Wake (request_id : string)
| Timeout (request_id : string)
| Failure (request_id : string) (e : Exn).

Definition connect (client_id : string) (st : State) : State :=
  send_to_client client_id
    [ ("type"%string, VStr "connected"); ("clientId"%string, VStr client_id) ]
    (mkState (auth_token st) ({[client_id]} ∪ clients st) (vault_info st)
             (client_to_vault st) (vault_to_client st) (pending_requests st)
             (active_vault_id st) (futures st) (calls st) (sent st)).

Definition step (st : State) (ev : Event) : State :=
  match ev with
  | Connect c => connect c st
  | Receive c m => on_message c m st
  | Disconnect c => on_disconnect c st
  | Request r v o p =>
      match start_request r v o p st with
      | Ok (Some st') => st'
      | _ => st
      end
  | Wake r => fst (on_wake r st)
  | Timeout r => fst (on_timeout r st)
  | Failure r e => fst (on_failure r e st)
  end.

(** An event the server can see in a state: request ids are fresh
    ([uuid4]) and only connected clients send or disconnect. *)
Definition enabled (st : State) (ev : Event) : Prop :=
  match ev with
  | Request r _ _ _ => calls st !! r = None
  | Connect c => c ∉ clients st
  | Receive c _ | Disconnect c => c ∈ clients st
  | _ => True
  end.

Inductive Reachable (token : string) : State -> Prop :=
| reach_init : Reachable token (init token)
| reach_step st ev :
    Reachable token st -> enabled st ev -> Reachable token (step st ev).

Definition run (st : State) (evs : list Event) : State := List.fold_left step evs st.

(** A request is in flight when its call waits on a future that is not
    done. *)
Definition in_flight (st : State) (request_id : string) : Prop :=
  exists c, calls st !! request_id = Some c /\ futures st !! call_future c = Some Waiting.

(** The client that owns a pending request. *)
Definition owner (st : State) (request_id : string) : option string :=
  call_client <$> calls st !! request_id.

(** Every event of a run is enabled where it happens. *)
Fixpoint all_enabled (st : State) (evs : list Event) : Prop :=
  match evs with
  | [] => True
  | ev :: rest => enabled st ev /\ all_enabled (step st ev) rest
  end.

(** The pending table, the futures and the calls in flight agree: an entry
    belongs to a call in flight and names its future; the future of a call
    exists; a call whose future is not done has its entry; and two calls
    do not share a future. *)
Definition consistent (p : gmap string nat) (fs : list FutureState)
    (cs : gmap string Call) : Prop :=
  (forall rid h, p !! rid = Some h ->
                 exists c, cs !! rid = Some c /\ call_future c = h) /\
  (forall rid c, cs !! rid = Some c -> call_future c < List.length fs) /\
  (forall rid c, cs !! rid = Some c -> fs !! call_future c = Some Waiting ->
                 p !! rid = Some (call_future c)) /\
  (forall r1 r2 c1 c2, cs !! r1 = Some c1 -> cs !! r2 = Some c2 ->
                       call_future c1 = call_future c2 -> r1 = r2).

Definition Inv (st : State) : Prop :=
  consistent (pending_requests st) (futures st) (calls st).

(** The vault id a client is registered with can be a key, or the client
    has none: the clean-up of its disconnection runs to its end. *)
Definition cleans_up (client_id : string) (st : State) : Prop :=
  forall vault_id,
    dict_get client_id (client_to_vault st) = Some vault_id ->
    PyKey.key_of vault_id <> None.

(** *** A run with two vaults *)

Definition register_msg (vault : string) : Dict :=
  [ ("type"%string, VStr "register");
    ("payload"%string, VDict [ ("vaultName"%string, VStr vault) ]) ].

Definition two_vaults : list Event :=
  [ Connect "A"; Receive "A" (register_msg "va");
    Connect "B"; Receive "B" (register_msg "vb");
    Request "r1" (VStr "vb") (VStr "read_file") VNone ].

(** *** The RPC endpoint ([rpc_handler]) *)

(** [int(text)] in base ten: optional white space around, an optional
    sign, digits with single underscores between them. *)
Fixpoint digits_ok (prev_digit : bool) (s : string) : bool :=
  match s with
  | EmptyString => prev_digit
  | String c r =>
      if Py.is_decimal c then digits_ok true r
      else if Ascii.eqb c "_" then prev_digit && digits_ok false r
      else false
  end.

Definition py_int (text : string) : Res Z :=
  let t := Py.strip text in
  let signed :=
    match t with
    | String "-" r => (true, r)
    | String "+" r => (false, r)
    | _ => (false, t)
    end in
  if digits_ok false (snd signed)
  then res_bind (int_of_digits (Py.replace "_" EmptyString (snd signed)))
         (fun v => Ok (if fst signed then (- v)%Z else v))
  else Raise (ValueError "invalid literal for int() with base 10").

(** A request as the handler sees it. Header names compare without regard
    to case. [body_size] is the number of bytes of the body;
    [json_body] is what [await request.json()] gives when it is awaited. *)
Record HttpRequest := mkRequest {
  headers : list (string * string);
  query : list (string * string);
  body_size : nat;
  json_body : Awaited PyVal
}.

Definition header (name : string) (request : HttpRequest) : option string :=
  option_map snd
    (List.find (fun h => String.eqb (Py.lower (fst h)) (Py.lower name)) (headers request)).

(** What the handler does besides answering: it reads the body, it hands a
    request to [request_file_operation], with a time to wait in seconds. *)
Inductive RpcEffect :=
| ReadBody
| Dispatched (vault_id operation params : PyVal) (timeout : spec_float).

Definition max_payload : Z := 2 * 1024 * 1024.

(** The limit of [web.Application()] on a body it reads, [client_max_size]:
    [request.json()] does not return on a body above it (it raises
    [HTTPRequestEntityTooLarge]). *)
Definition client_max_size : nat := 1024 * 1024.

Definition within_limits (request : HttpRequest) : Prop :=
  client_max_size < body_size request -> forall data, json_body request <> Ok data.

(** The token of a request: the header without its [Bearer ] prefix, else
    the query parameter. *)
Definition request_token (request : HttpRequest) : string :=
  let token :=
    Py.replace "Bearer " EmptyString
               (Config.or_empty (header "Authorization" request)) in
  if Py.is_empty token then Config.or_empty (dict_get "token" (query request)) else token.

Definition authorized (st : State) (request : HttpRequest) : bool :=
  Py.is_empty (auth_token st) || String.eqb (request_token request) (auth_token st).

(** [timeout_ms / 1000.0]: an integer is converted first, which raises
    [OverflowError] when it is too large. *)
Definition seconds_of (timeout_ms : PyVal) : Res spec_float :=
  match timeout_ms with
  | VInt n =>
      let x := Binary64.of_Z n in
      if Binary64.is_infinite x
      then Raise (OtherError "int too large to convert to float")
      else Ok (Binary64.div x Binary64.thousand)
  | VBool b => Ok (Binary64.div (Binary64.of_Z (if b then 1 else 0)) Binary64.thousand)
  | VFloat x => Ok (Binary64.div x Binary64.thousand)
  | _ => Raise (TypeError "unsupported operand type(s) for /")
  end.

(** [min(timeout_ms / 1000.0 if timeout_ms else 20.0, 30.0)], in seconds. *)
Definition request_timeout (timeout_ms : PyVal) : Res spec_float :=
  res_bind (if truthy timeout_ms then seconds_of timeout_ms else Ok Binary64.twenty)
           (fun seconds => Ok (Binary64.py_min seconds Binary64.thirty)).

Definition error_body (text : string) : Dict := [ ("error"%string, VStr text) ].

Definition failure_body (text : string) : Dict :=
  [ ("success"%string, VBool false); ("error"%string, VStr text) ].

Section Rpc.

(** The value of [await self.request_file_operation(...)]: [None] without a
    connected vault, the answer, an exception, or the cancellation that
    reaches the handler when the future it waits for is cancelled. *)
Variable request_file_operation :
  PyVal -> PyVal -> PyVal -> spec_float -> Awaited (option Dict).

(** The [try] block, whose exceptions become answers. *)
Definition rpc_body (request : HttpRequest) : Awaited (nat * Dict) * list RpcEffect :=
  match json_body request with
  | Raise e => (Raise e, [ReadBody])
  | Ok (VDict data) =>
      let operation := get_or "operation" VNone data in
      let vault_id := get_or "vaultId" VNone data in
      let params := get_or "params" (VDict []) data in
      if negb (truthy operation) then (Ok (400, error_body "Missing operation"), [ReadBody])
      else
        match request_timeout (get_or "timeoutMs" VNone data) with
        | Raise e => (Raise (Exception e), [ReadBody])
        | Ok timeout =>
            let effects := [ReadBody; Dispatched vault_id operation params timeout] in
            match request_file_operation vault_id operation params timeout with
            | Raise e => (Raise e, effects)
            | Ok None => (Ok (404, failure_body "No connected vault found"), effects)
            | Ok (Some result) =>
                (Ok (200,
                     [ ("success"%string, get_or "success" (VBool false) result);
                       ("result"%string, get_or "payload" VNone result);
                       ("error"%string, get_or "error" VNone result);
                       ("timestamp"%string, get_or "timestamp" VNone result) ]),
                 effects)
            end
        end
  | Ok _ => (Raise (Exception (OtherError "object has no attribute 'get'")), [ReadBody])
  end.

(** The handler: the answer (an exception that escapes is the framework's
    business) and what was done on the way. The three [except] clauses
    catch instances of [Exception]; a cancellation passes them. *)
Definition rpc_handler (st : State) (request : HttpRequest)
    : Awaited (nat * Dict) * list RpcEffect :=
  if negb (authorized st request) then (Ok (401, error_body "Unauthorized"), [])
  else
    let oversized :=
      match Config.nonempty (header "Content-Length" request) with
      | Some content_length =>
          res_bind (py_int content_length) (fun n => Ok (max_payload <? n)%Z)
      | None => Ok false
      end in
    match oversized with
    | Raise e => (Raise (Exception e), [])
    | Ok true => (Ok (413, error_body "Payload too large"), [])
    | Ok false =>
        match rpc_body request with
        | (Ok answer, effects) => (Ok answer, effects)
        | (Raise (Exception (TimeoutError _)), effects) =>
            (Ok (504, failure_body "Request timeout"), effects)
        | (Raise (Exception (JSONDecodeError _)), effects) =>
            (Ok (400, error_body "Invalid JSON"), effects)
        | (Raise (Exception e), effects) => (Ok (500, failure_body (exn_text e)), effects)
        | (Raise CancelledError, effects) => (Raise CancelledError, effects)
        end
    end.

End Rpc.

(** A hub without a connected vault. *)
Definition no_vault (vault_id operation params : PyVal) (timeout : spec_float)
    : Awaited (option Dict) := Ok None.

(** Three requests with a body of three mebibytes. *)
Definition big : nat := 3 * 1024 * 1024.

Definition rpc_call : PyVal :=
  VDict [ ("operation"%string, VStr "read_file"); ("vaultId"%string, VStr "va") ].

(** Declared length, right token. *)
Definition declared_request : HttpRequest :=
  mkRequest [ ("Authorization"%string, "Bearer secret"%string);
              ("Content-Length"%string, "3145728"%string) ] [] big (Ok rpc_call).

(** Declared length, wrong token. *)
Definition unauthenticated_request : HttpRequest :=
  mkRequest [ ("Authorization"%string, "Bearer wrong"%string);
              ("Content-Length"%string, "3145728"%string) ] [] big (Ok rpc_call).

(** Chunked transfer: no declared length. *)
Definition chunked_request : HttpRequest :=
  mkRequest [ ("Authorization"%string, "Bearer secret"%string);
              ("Transfer-Encoding"%string, "chunked"%string) ] [] big (Ok rpc_call).

End Hub.

(** ** Small helpers ([graphiti_bridge/utils.py], [graphiti_bridge/sync.py]) *)
Module Utils.

(** [s.endswith(suffix)] *)
Fixpoint endswith (s suffix : string) : bool :=
  String.eqb s suffix ||
  match s with
  | EmptyString => false
  | String _ r => endswith r suffix
  end.

(** Dropping a leading run of characters satisfying [p]. *)
Fixpoint lstrip_by (p : ascii -> bool) (s : string) : string :=
  match s with
  | EmptyString => EmptyString
  | String c r => if p c then lstrip_by p r else s
  end.

(** [s.strip(ch)] for one character *)
Definition strip_char (ch : ascii) (s : string) : string :=
  Py.rstrip_by (Ascii.eqb ch) (lstrip_by (Ascii.eqb ch) s).

(** *** [sanitize_property_name] *)

(** The class [[a-zA-Z0-9_]]. *)
Definition is_letter (c : ascii) : bool :=
  Py.between 97 122 (Py.code c) || Py.between 65 90 (Py.code c).

Definition is_word_char (c : ascii) : bool :=
  is_letter c || Py.is_decimal c || Ascii.eqb c "_".

(** [re.sub(r'[^a-zA-Z0-9_]', '_', name)] *)
Fixpoint replace_invalid (name : string) : string :=
  match name with
  | EmptyString => EmptyString
  | String c r =>
      String (if is_word_char c then c else "_"%char) (replace_invalid r)
  end.

(** Whether a string begins with an underscore, by its first character. *)
Definition underscore_first (s : string) : bool :=
  match Py.first_char s with Some d => Ascii.eqb d "_" | None => false end.

(** [re.sub(r'_+', '_', s)]: every run of underscores becomes one. *)
Fixpoint squeeze_underscores (s : string) : string :=
  match s with
  | EmptyString => EmptyString
  | String c r =>
      if Ascii.eqb c "_" && Py.startswith r "_" then squeeze_underscores r
      else String c (squeeze_underscores r)
  end.

Definition sanitize_property_name (name : string) : string :=
  let sanitized := replace_invalid name in
  let sanitized :=
    match sanitized with
    | String c _ =>
        if Py.isdigit_char c then "prop_" +:+ sanitized else sanitized
    | EmptyString => sanitized
    end in
  let sanitized := squeeze_underscores sanitized in
  let sanitized := strip_char "_" sanitized in
  if Py.is_empty sanitized then "property"%string else sanitized.

(** *** [chunk_list] *)

(** [range(start, stop, step)] for a positive step; [fuel] bounds the
    number of elements. *)
Fixpoint range_from (fuel start stop step : nat) : list nat :=
  match fuel with
  | O => []
  | S fuel' =>
      if start <? stop then start :: range_from fuel' (start + step) stop step
      else []
  end.

(** [range(0, stop, step)]: a zero step is refused, a negative one gives
    the empty range. *)
Definition range_0 (stop : nat) (step : Z) : Res (list nat) :=
  if (step =? 0)%Z then Raise (ValueError "range() arg 3 must not be zero")
  else if (step <? 0)%Z then Ok []
  else Ok (range_from stop 0 stop (Z.to_nat step)).

(** [items[i:j]] for [0 <= i] *)
Definition slice {A} (items : list A) (i : nat) (j : Z) : list A :=
  let stop :=
    if (j <? 0)%Z then List.length items - Z.to_nat (- j) else Z.to_nat j in
  firstn (stop - i) (skipn i items).

(** The chunks the generator yields, in order; an exception is raised when
    the generator is first advanced. *)
Definition chunk_list {A} (items : list A) (chunk_size : Z) : Res (list (list A)) :=
  res_bind (range_0 (List.length items) chunk_size) (fun starts =>
    Ok (List.map (fun i => slice items i (Z.of_nat i + chunk_size)) starts)).

(** *** [_get_ollama_base_url] *)

Definition _get_ollama_base_url (url : option string) : string :=
  match Config.nonempty url with
  | None => "http://localhost:11434/v1"
  | Some url =>
      if negb (endswith url "/v1") && negb (endswith url "/v1/")
      then Py.rstrip_char "/" url +:+ "/v1"
      else Py.rstrip_char "/" url
  end.

End Utils.

(** ** The hub's vault registry ([mcp-server/websocket_server.py]) *)
Module HubApi.
Import Hub.

(** [k in d] *)
Definition has_key {V} (k : string) (d : list (string * V)) : bool :=
  match dict_get k d with Some _ => true | None => false end.

Definition with_active (st : State) (active : PyVal) : State :=
  mkState (auth_token st) (clients st) (vault_info st) (client_to_vault st)
          (vault_to_client st) (pending_requests st) active
          (futures st) (calls st) (sent st).

Definition get_active_vault (st : State) : PyVal := active_vault_id st.

(** The answer and the server afterwards; a vault id that cannot be a key
    raises. *)
Definition set_active_vault (vault_id : PyVal) (st : State) : Res bool * State :=
  match PyKey.key_of vault_id with
  | Some k =>
      if PyKey.key_in k (vault_to_client st)
      then (Ok true, with_active st vault_id)
      else (Ok false, st)
  | None => (Raise (TypeError "unhashable type"), st)
  end.

Definition get_connected_vaults (st : State) : list PyVal :=
  List.map fst (vault_to_client st).

(** A registration payload that is not an object has no [copy], or, for a
    list, takes no string index. *)
Definition get_vault_info (vault_id : PyVal) (st : State) : Res (option Dict) :=
  match PyKey.key_of vault_id with
  | Some k =>
      match Config.nonempty (PyKey.key_get k (vault_to_client st)) with
      | Some client_id =>
          match dict_get client_id (vault_info st) with
          | Some (VDict info) =>
              Ok (Some (dict_set "isActive"
                          (VBool (PyKey.equals k (active_vault_id st)))
                          (dict_set "clientId" (VStr client_id)
                             (dict_set "vaultId" vault_id info))))
          | Some (VList _) =>
              Raise (TypeError "list indices must be integers or slices, not str")
          | Some _ => Raise (OtherError "object has no attribute 'copy'")
          | None => Ok None
          end
      | None => Ok None
      end
  | None => Raise (TypeError "unhashable type")
  end.

(** The loop of [get_all_vault_info]. *)
Fixpoint collect_vault_info (vault_ids : list PyVal) (st : State)
    (result : list (PyVal * Dict)) : Res (list (PyVal * Dict)) :=
  match vault_ids with
  | [] => Ok result
  | vault_id :: rest =>
      res_bind (get_vault_info vault_id st) (fun info =>
        match info, PyKey.key_of vault_id with
        | Some i, Some k =>
            collect_vault_info rest st (PyKey.key_set k vault_id i result)
        | _, _ => collect_vault_info rest st result
        end)
  end.

Definition get_all_vault_info (st : State) : Res (list (PyVal * Dict)) :=
  collect_vault_info (get_connected_vaults st) st [].

(** *** The hub with its registry operations *)

Inductive Op :=
| OfEvent (ev : Hub.Event)
| SetActiveVault (vault_id : PyVal).

Definition api_step (st : State) (op : Op) : State :=
  match op with
  | OfEvent ev => step st ev
  | SetActiveVault vault_id => snd (set_active_vault vault_id st)
  end.

Definition api_enabled (st : State) (op : Op) : Prop :=
  match op with
  | OfEvent ev => enabled st ev
  | SetActiveVault _ => True
  end.

Inductive ApiReachable (token : string) : State -> Prop :=
| api_init : ApiReachable token (init token)
| api_next st op :
    ApiReachable token st -> api_enabled st op -> ApiReachable token (api_step st op).

Definition api_run (st : State) (ops : list Op) : State := List.fold_left api_step ops st.

Fixpoint api_all_enabled (st : State) (ops : list Op) : Prop :=
  match ops with
  | [] => True
  | op :: rest => api_enabled st op /\ api_all_enabled (api_step st op) rest
  end.

(** [bool(v)] of a hashable value, read off its key. *)
Definition key_truthy (k : PyKey.Key) : bool :=
  match k with
  | PyKey.KNone => false
  | PyKey.KInt n => negb (n =? 0)%Z
  | PyKey.KStr s => negb (Py.is_empty s)
  | _ => true
  end.

(** No two entries of a table have the same key. *)
Fixpoint distinct_keys {V} (d : list (PyVal * V)) : Prop :=
  match d with
  | [] => True
  | (x, _) :: r =>
      (forall k, PyKey.key_of x = Some k -> PyKey.key_in k r = false) /\
      distinct_keys r
  end.

(** The value is listed as a connected vault, up to the equality of keys. *)
Definition listed (v : PyVal) (st : State) : Prop :=
  exists k, PyKey.key_of v = Some k /\ PyKey.key_in k (vault_to_client st) = true.

(** The registry is in order: the listed vault ids are truthy and can be
    keys, no two of them are the same key, the active vault is [None] or
    truthy, and listed unless it is NaN, there is an active vault as long
    as there is a listed vault, and only connected clients have a payload
    or a vault id. *)
Definition registry_ok (st : State) : Prop :=
  (forall v c, In (v, c) (vault_to_client st) ->
               exists k, PyKey.key_of v = Some k /\ key_truthy k = true) /\
  (active_vault_id st = VNone \/
   exists k, PyKey.key_of (active_vault_id st) = Some k /\ key_truthy k = true /\
             (k <> PyKey.KNaN -> PyKey.key_in k (vault_to_client st) = true)) /\
  (active_vault_id st = VNone -> vault_to_client st = []) /\
  (forall c, has_key c (vault_info st) = true -> c ∈ clients st) /\
  (forall c, has_key c (client_to_vault st) = true -> c ∈ clients st) /\
  NoDup (List.map fst (vault_info st)) /\
  NoDup (List.map fst (client_to_vault st)) /\
  distinct_keys (vault_to_client st).

(** The part of the server the registry is made of. *)
Definition registry (st : State) :=
  (clients st, vault_info st, client_to_vault st, vault_to_client st,
   active_vault_id st).

(** A store of futures that continues another: what was done there is the
    same here, and no future is gone. *)
Definition continues (fs fs' : list FutureState) : Prop :=
  List.length fs <= List.length fs' /\
  forall h f, fs !! h = Some f -> is_done f = true -> fs' !! h = Some f.

(** Two clients register the same vault name, and the first one leaves. *)
Definition both_registered : list Op :=
  [ OfEvent (Connect "A"); OfEvent (Receive "A" (register_msg "notes"));
    OfEvent (Connect "B"); OfEvent (Receive "B" (register_msg "notes")) ].

Definition shared_name : list Op := both_registered ++ [ OfEvent (Disconnect "A") ].

(** A registration whose vault name is any value. *)
Definition register_as (vault_name : PyVal) : Dict :=
  [ ("type"%string, VStr "register");
    ("payload"%string, VDict [ ("vaultName"%string, vault_name) ]) ].

(** A client registers under the name NaN and leaves. *)
Definition nan_vault : list Op :=
  [ OfEvent (Connect "A"); OfEvent (Receive "A" (register_as (VFloat S754_nan)));
    OfEvent (Disconnect "A") ].

(** A client registers twice, under two names, and leaves. *)
Definition renamed_vault : list Op :=
  [ OfEvent (Connect "A"); OfEvent (Receive "A" (register_msg "old"));
    OfEvent (Receive "A" (register_msg "new")); OfEvent (Disconnect "A") ].

(** A client registers under the number 123. *)
Definition numbered_vault : list Op :=
  [ OfEvent (Connect "A"); OfEvent (Receive "A" (register_as (VInt 123))) ].

(** A request is answered; then the same id is answered again, the
    deadline passes and the client leaves. *)
Definition reply_msg (request_id : string) (payload : PyVal) : Dict :=
  [ ("type"%string, VStr "file:read:response"); ("id"%string, VStr request_id);
    ("success"%string, VBool true); ("payload"%string, payload) ].

Definition answered : list Op :=
  List.map OfEvent two_vaults
  ++ [ OfEvent (Receive "B" (reply_msg "r1" (VStr "first"))) ].

Definition afterwards : list Op :=
  [ OfEvent (Receive "B" (reply_msg "r1" (VStr "second")));
    OfEvent (Timeout "r1"); OfEvent (Disconnect "B") ].

(** *** Requests to the RPC endpoint *)

(** A request whose declared length is not a number. *)
Definition malformed_request : HttpRequest :=
  mkRequest [ ("Authorization"%string, "Bearer secret"%string);
              ("Content-Length"%string, "12 bytes"%string) ] [] 12 (Ok rpc_call).

(** A small request with the right token. *)
Definition small_request (data : PyVal) : HttpRequest :=
  mkRequest [ ("Authorization"%string, "Bearer secret"%string);
              ("Content-Length"%string, "64"%string) ] [] 64 (Ok data).

(** A call whose [timeoutMs] is NaN, which [json.loads] accepts. *)
Definition nan_call : PyVal :=
  VDict [ ("operation"%string, VStr "read_file"); ("vaultId"%string, VStr "va");
          ("timeoutMs"%string, VFloat S754_nan) ].

(** A hub whose waiting call is cancelled. *)
Definition cancelled_hub (vault_id operation params : PyVal) (timeout : spec_float)
    : Awaited (option Dict) := Raise CancelledError.

End HubApi.

(** ** Vault validation of the file tools ([mcp-server/file_tools.py]) *)
Module FileTools.
Import Hub HubApi.

(** An error answer: its code and its text. *)
Record VaultError := mkError {
  error_code : string;
  error : string
}.

Section Validate.

(** [str(v)] for a value that is not a string, and the text of a list of
    vault ids inside a message. *)
Variable py_str : PyVal -> string.
Variable repr_list : list PyVal -> string.

(** [server] is the hub of this process, if there is one. The vault
    information is fetched and not used; fetching it can raise. *)
Definition _validate_vault_connection (server : option State) (vault_id : option string)
    : string + VaultError :=
  match server with
  | None => inr (mkError "NO_SERVER" "WebSocket server not available")
  | Some st =>
      let connected_vaults := get_connected_vaults st in
      match get_all_vault_info st with
      | Raise e => inr (mkError "VALIDATION_ERROR" (exn_text e))
      | Ok _ =>
          let active_vault_debug := get_active_vault st in
          match connected_vaults with
          | [] => inr (mkError "NO_VAULTS" "No Obsidian vaults are currently connected")
          | vault_list =>
              match vault_id with
              | Some v =>
                  if existsb (PyKey.equals (PyKey.KStr v)) vault_list then inl v
                  else inr (mkError "INVALID_VAULT"
                              ("Vault '" +:+ v +:+ "' is not connected. Connected vaults: "
                               +:+ repr_list vault_list))
              | None =>
                  let active_vault :=
                    if truthy active_vault_debug
                    then Some (Namespace.str_of py_str active_vault_debug)
                    else None in
                  match Config.nonempty active_vault with
                  | Some active_vault => inl active_vault
                  | None =>
                      inr (mkError "NO_ACTIVE_VAULT"
                             ("No vault specified and no active vault set. Connected vaults: "
                              +:+ repr_list vault_list))
                  end
              end
          end
      end
  end.

End Validate.

End FileTools.

(** ** What a run hands to the graph *)
Module Ledger.
Import Episode.

(** From [w] to [w'] at most [n] episodes were handed to the graph, all of
    them satisfying [P], and none that was there is gone. *)
Definition adds {G} (n : nat) (P : EpisodeKwargs -> Prop) (w w' : World G) : Prop :=
  exists new,
    submitted w' = submitted w ++ new /\
    List.length new <= n /\
    Forall P new.

(** The episodes of the note at [note_path]: named after the stem of the
    path, with a reference time that has a time zone. *)
Definition of_note (note_path : string) (k : EpisodeKwargs) : Prop :=
  name k = Pipeline.path_stem note_path /\
  Time.is_aware (reference_time k) = true.

(** The answer [r] and the world [w'] come from one call of the graph
    client, with an episode named [note_name]. *)
Definition answered_by {G}
    (add_episode : EpisodeKwargs -> G -> RefTime.Clock ->
                   Res (option AddResult) * G * RefTime.Clock)
    (note_name : string) (r : Res (option AddResult)) (w' : World G) : Prop :=
  exists k w0,
    add_episode k (graph w0) (clock w0) = (r, graph w', clock w') /\
    submitted w' = submitted w0 ++ [k] /\
    name k = note_name.

End Ledger.

(** ** The database URL of a configuration ([graphiti_bridge/config.py]) *)
Module DbConfig.

Section Url.

(** [str(v)] inside an f-string, for a value that is not a string. *)
Variable py_str : PyVal -> string.

(** [d.get(a) or d.get(b, default)] *)
Definition get_either (d : Dict) (a b : string) (default : PyVal) : PyVal :=
  let x := Hub.get_or a VNone d in
  if truthy x then x else Hub.get_or b default d.

(** [k in container] *)
Definition py_in (k : string) (container : PyVal) : Res bool :=
  match container with
  | VDict d => Ok (HubApi.has_key k d)
  | VList l =>
      Ok (existsb (fun v => match v with
                             | VStr s => String.eqb s k
                             | _ => false
                             end) l)
  | VStr s => Ok (Py.contains k s)
  | _ => Raise (TypeError "argument is not iterable")
  end.

(** [container[k]], after [k in container] was true *)
Definition py_item (k : string) (container : PyVal) : Res PyVal :=
  match container with
  | VDict d =>
      match dict_get k d with
      | Some v => Ok v
      | None => Raise (OtherError "KeyError")
      end
  | _ => Raise (TypeError "indices must be integers")
  end.

(** [obj.get(k, default)] *)
Definition py_get (k : string) (default : PyVal) (obj : PyVal) : Res PyVal :=
  match obj with
  | VDict d => Ok (Hub.get_or k default d)
  | _ => Raise (OtherError "object has no attribute 'get'")
  end.

Definition is_str (v : PyVal) (s : string) : bool :=
  match v with
  | VStr t => String.eqb t s
  | _ => false
  end.

(** The last step: the default of the database type. *)
Definition default_url (database_type : PyVal) : PyVal :=
  if is_str database_type "falkordb" then VStr "falkor://localhost:6379"
  else VStr "bolt://localhost:7687".

Definition _get_database_url_from_config (config_dict : Dict) : Res PyVal :=
  let direct_url := get_either config_dict "databaseUrl" "database_url" VNone in
  if truthy direct_url then Ok direct_url
  else
    let database_type :=
      get_either config_dict "database_type" "databaseType" (VStr "neo4j") in
    let database_configs := Hub.get_or "databaseConfigs" (VDict []) config_dict in
    if is_str database_type "neo4j" then
      res_bind (py_in "neo4j" database_configs) (fun present =>
        if present then
          res_bind (py_item "neo4j" database_configs) (fun neo4j_config =>
            res_bind (py_get "uri" VNone neo4j_config) (fun neo4j_uri =>
              if truthy neo4j_uri then Ok neo4j_uri
              else Ok (default_url database_type)))
        else Ok (default_url database_type))
    else if is_str database_type "falkordb" then
      res_bind (py_in "falkordb" database_configs) (fun present =>
        if present then
          res_bind (py_item "falkordb" database_configs) (fun falkor_config =>
            res_bind (py_get "host" (VStr "localhost") falkor_config) (fun host =>
              res_bind (py_get "port" (VInt 6379) falkor_config) (fun port =>
                Ok (VStr ("falkor://" +:+ Namespace.str_of py_str host +:+ ":"
                          +:+ Namespace.str_of py_str port)))))
        else Ok (default_url database_type))
    else Ok (default_url database_type).

End Url.

(** [databaseConfigs], when it is there, is an object of objects. *)
Definition configs_are_objects (config_dict : Dict) : bool :=
  match dict_get "databaseConfigs" config_dict with
  | None => true
  | Some (VDict configs) =>
      forallb (fun kv => match snd kv with VDict _ => true | _ => false end) configs
  | Some _ => false
  end.

(** [databaseConfigs[name]], when both are objects. *)
Definition settings_of (name : string) (config_dict : Dict) : option Dict :=
  match dict_get "databaseConfigs" config_dict with
  | Some (VDict configs) =>
      match dict_get name configs with
      | Some (VDict settings) => Some settings
      | _ => None
      end
  | _ => None
  end.

(** [str(v)] of an int, as the examples need it for a port. *)
Definition int_str (v : PyVal) : string :=
  match v with
  | VInt n => NilZero.string_of_int (Z.to_int n)
  | _ => EmptyString
  end.

(** The settings of a FalkorDB on another host. *)
Definition falkor_settings : Dict :=
  [ ("databaseType"%string, VStr "falkordb");
    ("databaseUrl"%string, VStr EmptyString);
    ("databaseConfigs"%string,
     VDict [ ("falkordb"%string, VDict [ ("host"%string, VStr "db.local") ]) ]) ].

End DbConfig.

(** * Properties *)

#[local] Arguments append : simpl nomatch.

(** ** Dates and times *)

Example strptime_date_only :
  Time.strptime "2024-02-29" Time.FmtDate
  = Ok (Time.mkDatetime 2024 2 29 0 0 0 0 None).
Proof. reflexivity. Qed.

Example strptime_short_fields :
  Time.strptime "2024-1-5" Time.FmtDate
  = Ok (Time.mkDatetime 2024 1 5 0 0 0 0 None).
Proof. reflexivity. Qed.

Example strptime_bad_day :
  Time.strptime "2023-02-29" Time.FmtDate = Raise (ValueError "value out of range").
Proof. reflexivity. Qed.

Example strptime_leftover :
  Time.strptime "2024-01-05T10:00:00" Time.FmtDate
  = Raise (ValueError "unconverted data remains").
Proof. reflexivity. Qed.

Example strptime_with_time :
  Time.strptime "2024-01-05T10:20:30" Time.FmtDateTimeT
  = Ok (Time.mkDatetime 2024 1 5 10 20 30 0 None).
Proof. reflexivity. Qed.

Example isoformat_utc :
  Time.isoformat (Time.mkDatetime 2030 1 2 3 4 0 0 Time.utc)
  = "2030-01-02T03:04:00+00:00"%string.
Proof. reflexivity. Qed.

Example ordinal_epoch : Time.ordinal 1970 1 1 = 719163%Z.
Proof. reflexivity. Qed.


(** ** Frontmatter *)

Section StringFacts.

Lemma append_assoc (a b c : string) : (a +:+ b) +:+ c = a +:+ (b +:+ c).
Proof. induction a as [|x a IH]; simpl; [reflexivity | now rewrite IH]. Qed.

Lemma append_empty_r (a : string) : a +:+ EmptyString = a.
Proof. induction a as [|x a IH]; simpl; [reflexivity | now rewrite IH]. Qed.

Lemma prefix_split (p s : string) :
  String.prefix p s = true -> s = p +:+ Py.drop_str (String.length p) s.
Proof.
  revert s; induction p as [|x p IH]; intros s H.
  - reflexivity.
  - destruct s as [|y s]; simpl in H; [discriminate|].
    destruct (ascii_dec x y) as [->|]; [|discriminate].
    simpl. f_equal. now apply IH.
Qed.

Lemma prefix_append (p s : string) : String.prefix p (p +:+ s) = true.
Proof.
  induction p as [|x p IH]; simpl; [now destruct s|].
  destruct (ascii_dec x x); [exact IH | congruence].
Qed.

Lemma first_success_some {A B} (f : A -> option B) (l : list A) (b : B) :
  Frontmatter.first_success f l = Some b -> exists a, In a l /\ f a = Some b.
Proof.
  induction l as [|a l IH]; simpl; [discriminate|].
  destruct (f a) eqn:E.
  - intros [= <-]. exists a. auto.
  - intros H. destruct (IH H) as (a' & Hin & Hf). exists a'. auto.
Qed.

End StringFacts.

Section FrontmatterPattern.
Import Frontmatter.

(** Every way [\s*\n] can match consumes white space and one newline. *)
Lemma ws_nl_ends_sound (s r : string) :
  In r (ws_nl_ends s) ->
  exists ws, s = ws +:+ Py.nl +:+ r /\ Py.all_chars Py.isspace_char ws = true.
Proof.
  induction s as [|c s IH]; simpl; [tauto|].
  destruct (Py.isspace_char c) eqn:Hc; [|simpl; tauto].
  rewrite in_app_iff. intros [H|H].
  - destruct (IH H) as (ws & -> & Hws).
    exists (String c ws). simpl. now rewrite Hc.
  - destruct (Ascii.eqb c Py.NL) eqn:Hnl; simpl in H; [|tauto].
    destruct H as [<-|[]]. apply Ascii.eqb_eq in Hnl. subst c.
    exists EmptyString. split; reflexivity.
Qed.

Lemma match_closing_sound (s after : string) :
  match_closing s = Some after ->
  exists ws, s = closing +:+ ws +:+ Py.nl +:+ after /\
             Py.all_chars Py.isspace_char ws = true.
Proof.
  unfold match_closing. destruct (String.prefix closing s) eqn:Hp; [|discriminate].
  intros H. apply prefix_split in Hp. change (String.length closing) with 4 in Hp.
  destruct (ws_nl_ends (Py.drop_str 4 s)) as [|r l] eqn:Hl; [discriminate|].
  simpl in H. injection H as <-.
  destruct (ws_nl_ends_sound (Py.drop_str 4 s) r) as (ws & Hs & Hws).
  { rewrite Hl. now left. }
  exists ws. split; [|exact Hws]. rewrite Hp at 1. now rewrite Hs.
Qed.

(** The lazy group and the closing delimiter. *)
Lemma find_closing_sound (s group text after : string) :
  find_closing group s = Some (text, after) ->
  exists mid ws,
    text = group +:+ mid /\
    s = mid +:+ closing +:+ ws +:+ Py.nl +:+ after /\
    Py.all_chars Py.isspace_char ws = true.
Proof.
  revert group; induction s as [|c s IH]; intros group; simpl.
  - discriminate.
  - destruct (match_closing (String c s)) eqn:E.
    + intros [= <- <-]. destruct (match_closing_sound _ _ E) as (ws & Hs & Hws).
      exists EmptyString, ws. rewrite append_empty_r. auto.
    + intros H. destruct (IH _ H) as (mid & ws & -> & -> & Hws).
      exists (String c mid), ws. rewrite append_assoc. auto.
Qed.

(** A match of the pattern: the opening delimiter on the first line, the
    block, a later closing delimiter on a line of its own. *)
Lemma frontmatter_match_sound (content text after : string) :
  frontmatter_match content = Some (text, after) ->
  exists ws1 ws2,
    content = "---" +:+ ws1 +:+ Py.nl +:+ text +:+ closing +:+ ws2 +:+ Py.nl +:+ after /\
    Py.all_chars Py.isspace_char ws1 = true /\
    Py.all_chars Py.isspace_char ws2 = true.
Proof.
  unfold frontmatter_match.
  destruct (String.prefix "---" content) eqn:Hp; [|discriminate].
  intros H. apply first_success_some in H. destruct H as (s & Hin & Hf).
  apply ws_nl_ends_sound in Hin. destruct Hin as (ws1 & Hs & Hws1).
  apply find_closing_sound in Hf. destruct Hf as (mid & ws2 & Ht & Hs' & Hws2).
  simpl in Ht. subst text. exists ws1, ws2. split; [|auto].
  apply prefix_split in Hp. change (String.length "---") with 3 in Hp.
  rewrite Hp at 1. rewrite Hs, Hs'. reflexivity.
Qed.

(** The result of [extract_frontmatter] in terms of the match and the
    parse. *)
Lemma extract_frontmatter_cases (yaml : Yaml) (content : string) :
  extract_frontmatter yaml content =
  match frontmatter_match content with
  | Some (text, after) =>
      match parse_block yaml text with
      | Ok fm => Ok (fm, after)
      | Raise _ => Ok ([], content)
      end
  | None => Ok ([], content)
  end.
Proof.
  unfold extract_frontmatter.
  destruct (frontmatter_match content) as [[text after]|]; [|reflexivity].
  destruct (parse_block yaml text); reflexivity.
Qed.

End FrontmatterPattern.

Section SimpleParser.
Import Frontmatter.

Lemma decimal_isdigit (s : string) :
  Py.all_chars Py.is_decimal s = true -> Py.all_chars Py.isdigit_char s = true.
Proof.
  induction s as [|c s IH]; simpl; [reflexivity|].
  intros H. apply andb_prop in H. destruct H as [Hc Hs].
  rewrite (IH Hs), andb_true_r.
  unfold Py.isdigit_char. unfold Py.is_decimal in Hc. now rewrite Hc.
Qed.

Lemma decimal_lower (s : string) :
  Py.all_chars Py.is_decimal s = true -> Py.lower s = s.
Proof.
  induction s as [|c s IH]; simpl; [reflexivity|].
  intros H. apply andb_prop in H. destruct H as [Hc Hs].
  rewrite (IH Hs). f_equal.
  unfold Py.lower_char, Py.is_decimal, Py.between in *.
  apply andb_prop in Hc. destruct Hc as [H1 H2].
  apply Nat.leb_le in H1, H2.
  replace (65 <=? Py.code c) with false by (symmetry; apply Nat.leb_gt; lia).
  replace (192 <=? Py.code c) with false by (symmetry; apply Nat.leb_gt; lia).
  replace (216 <=? Py.code c) with false by (symmetry; apply Nat.leb_gt; lia).
  reflexivity.
Qed.

(** A run of decimal digits is converted to its integer, up to the number
    of digits [int] accepts. *)
Lemma convert_integer (s : string) :
  s <> EmptyString -> Py.all_chars Py.is_decimal s = true ->
  String.length s <= int_max_str_digits ->
  convert_scalar s = Ok (VInt (Py.digits_value 0 s)).
Proof.
  intros Hne Hd Hlen. unfold convert_scalar.
  rewrite (decimal_lower s Hd).
  assert (Hb : String.eqb s "true" || String.eqb s "false" = false).
  { destruct s as [|c s]; [congruence|]. simpl in Hd.
    apply andb_prop in Hd. destruct Hd as [Hc _].
    apply orb_false_intro; apply String.eqb_neq; intros [= -> _]; discriminate. }
  rewrite Hb. unfold Py.isdigit.
  rewrite (decimal_isdigit s Hd), Hd. unfold int_of_digits.
  apply Nat.leb_le in Hlen. rewrite Hlen.
  destruct s; [congruence | reflexivity].
Qed.

(** A longer run of digits makes the parser raise. *)
Lemma convert_long_integer (s : string) :
  Py.all_chars Py.is_decimal s = true ->
  int_max_str_digits < String.length s ->
  exists e, convert_scalar s = Raise e.
Proof.
  intros Hd Hlen. unfold convert_scalar.
  rewrite (decimal_lower s Hd).
  assert (Hne : s <> EmptyString) by (intros ->; simpl in Hlen; lia).
  assert (Hb : String.eqb s "true" || String.eqb s "false" = false).
  { destruct s as [|c s]; [congruence|]. simpl in Hd.
    apply andb_prop in Hd. destruct Hd as [Hc _].
    apply orb_false_intro; apply String.eqb_neq; intros [= -> _]; discriminate. }
  rewrite Hb. unfold Py.isdigit.
  rewrite (decimal_isdigit s Hd), Hd. unfold int_of_digits.
  apply Nat.leb_gt in Hlen. rewrite Hlen.
  destruct s; [congruence | eexists; reflexivity].
Qed.

End SimpleParser.

Section LineParser.
Import Frontmatter.

Lemma contains_char (c x : ascii) (r : string) :
  Py.contains (String c EmptyString) (String x r)
  = Ascii.eqb x c || Py.contains (String c EmptyString) r.
Proof.
  change (Py.contains (String c EmptyString) (String x r))
    with (String.prefix (String c EmptyString) (String x r)
          || Py.contains (String c EmptyString) r).
  f_equal.
  change (String.prefix (String c EmptyString) (String x r))
    with (if ascii_dec c x then String.prefix EmptyString r else false).
  destruct (ascii_dec c x) as [<-|Hn].
  - rewrite Ascii.eqb_refl. now destruct r.
  - symmetry. apply Ascii.eqb_neq. congruence.
Qed.

Lemma contains_char_app (c : ascii) (a b : string) :
  Py.contains (String c EmptyString) (a +:+ b)
  = Py.contains (String c EmptyString) a || Py.contains (String c EmptyString) b.
Proof.
  induction a as [|x a IH].
  - now destruct b.
  - change (String x a +:+ b) with (String x (a +:+ b)).
    rewrite !contains_char, IH. now rewrite orb_assoc.
Qed.

Lemma lstrip_app (a : string) (c : ascii) (b : string) :
  Py.isspace_char c = false ->
  Py.lstrip (a +:+ String c b) = Py.lstrip a +:+ String c b.
Proof.
  intros Hc. induction a as [|x a IH]; simpl.
  - now rewrite Hc.
  - destruct (Py.isspace_char x); [exact IH | reflexivity].
Qed.

Lemma rstrip_by_app_keep (p : ascii -> bool) (a : string) (c : ascii) (b : string) :
  p c = false ->
  Py.rstrip_by p (a +:+ String c b) = a +:+ String c (Py.rstrip_by p b).
Proof.
  intros Hc. induction a as [|x a IH]; simpl.
  - now rewrite Hc.
  - rewrite IH. destruct (a +:+ String c (Py.rstrip_by p b)) eqn:E.
    + destruct a; discriminate E.
    + now rewrite andb_false_r.
Qed.

Lemma lstrip_idem (s : string) : Py.lstrip (Py.lstrip s) = Py.lstrip s.
Proof.
  induction s as [|c s IH]; simpl; [reflexivity|].
  destruct (Py.isspace_char c) eqn:E; [exact IH|]. simpl. now rewrite E.
Qed.

Lemma rstrip_by_idem (p : ascii -> bool) (s : string) :
  Py.rstrip_by p (Py.rstrip_by p s) = Py.rstrip_by p s.
Proof.
  induction s as [|c s IH]; simpl; [reflexivity|].
  destruct (p c && Py.is_empty (Py.rstrip_by p s)) eqn:E; [reflexivity|].
  simpl. now rewrite IH, E.
Qed.

Lemma rstrip_empty_lstrip (s : string) :
  Py.rstrip_by Py.isspace_char s = EmptyString -> Py.lstrip s = EmptyString.
Proof.
  induction s as [|c s IH]; simpl; [reflexivity|].
  destruct (Py.isspace_char c) eqn:Ec; simpl.
  - destruct (Py.rstrip_by Py.isspace_char s); [auto | discriminate].
  - discriminate.
Qed.

Lemma lstrip_rstrip (s : string) :
  Py.lstrip (Py.rstrip_by Py.isspace_char s)
  = Py.rstrip_by Py.isspace_char (Py.lstrip s).
Proof.
  induction s as [|c s IH]; [reflexivity|].
  cbn [Py.lstrip Py.rstrip_by].
  destruct (Py.isspace_char c) eqn:Ec; cbn [andb].
  - destruct (Py.rstrip_by Py.isspace_char s) as [|y r] eqn:Er; cbn [Py.is_empty].
    + rewrite (rstrip_empty_lstrip s Er). reflexivity.
    + cbn [Py.lstrip]. rewrite Ec. exact IH.
  - cbn [Py.lstrip Py.rstrip_by]. now rewrite Ec.
Qed.

Lemma strip_lstrip (s : string) : Py.strip (Py.lstrip s) = Py.strip s.
Proof. unfold Py.strip. now rewrite lstrip_idem. Qed.

Lemma strip_rstrip (s : string) :
  Py.strip (Py.rstrip_by Py.isspace_char s) = Py.strip s.
Proof. unfold Py.strip. now rewrite lstrip_rstrip, rstrip_by_idem. Qed.

Lemma lstrip_no_colon (s : string) :
  Py.contains ":" s = false -> Py.contains ":" (Py.lstrip s) = false.
Proof.
  induction s as [|c s IH]; [auto|]. rewrite contains_char. intros H.
  apply orb_false_elim in H as [Hc Hs]. cbn [Py.lstrip].
  destruct (Py.isspace_char c); [auto|]. now rewrite contains_char, Hc, Hs.
Qed.

Lemma split_once_app (c : ascii) (a b : string) :
  Py.contains (String c EmptyString) a = false ->
  Py.split_once c (a +:+ String c b) = Some (a, b).
Proof.
  induction a as [|x a IH]; intros H.
  - simpl. now rewrite Ascii.eqb_refl.
  - rewrite contains_char in H. apply orb_false_elim in H as [Hx Ha].
    change (String x a +:+ String c b) with (String x (a +:+ String c b)).
    cbn [Py.split_once]. now rewrite Hx, (IH Ha).
Qed.

(** The line [key:value] as the loop sees it. *)
Lemma stripped_line (key value : string) :
  Py.strip (key +:+ String ":" value)
  = Py.lstrip key +:+ String ":" (Py.rstrip_by Py.isspace_char value).
Proof.
  unfold Py.strip. rewrite lstrip_app by reflexivity.
  now rewrite rstrip_by_app_keep by reflexivity.
Qed.

Lemma startswith_app (a b : string) (c : ascii) :
  a <> EmptyString ->
  Py.startswith (a +:+ b) (String c EmptyString) = Py.startswith a (String c EmptyString).
Proof.
  destruct a as [|x a]; [congruence|]. intros _. unfold Py.startswith.
  change (String x a +:+ b) with (String x (a +:+ b)).
  change (String.prefix (String c EmptyString) (String x (a +:+ b)))
    with (if ascii_dec c x then String.prefix EmptyString (a +:+ b) else false).
  change (String.prefix (String c EmptyString) (String x a))
    with (if ascii_dec c x then String.prefix EmptyString a else false).
  destruct (ascii_dec c x); [|reflexivity].
  now destruct a, b.
Qed.

(** An entry: the key is what stands before the first colon, the value the
    text after it, both stripped, the value without its quotes and
    converted. *)
Lemma parse_line_entry (frontmatter : Dict) (key value : string) :
  Py.contains ":" key = false ->
  Py.startswith (Py.lstrip key) "#" = false ->
  parse_line frontmatter (key +:+ String ":" value)
  = res_bind (convert_scalar (unquote (Py.strip value)))
             (fun v => Ok (dict_set (Py.strip key) v frontmatter)).
Proof.
  intros Hk Hc. unfold parse_line. rewrite stripped_line.
  assert (Hcolon : Py.contains ":" (Py.lstrip key
                     +:+ String ":" (Py.rstrip_by Py.isspace_char value)) = true).
  { rewrite contains_char_app, contains_char. simpl. apply orb_true_r. }
  assert (Hhash : Py.startswith (Py.lstrip key
                     +:+ String ":" (Py.rstrip_by Py.isspace_char value)) "#" = false).
  { destruct (Py.lstrip key) as [|x r] eqn:E; [reflexivity|].
    rewrite startswith_app by discriminate. exact Hc. }
  rewrite Hcolon, Hhash. cbn [negb andb].
  rewrite split_once_app by now apply lstrip_no_colon.
  now rewrite strip_lstrip, strip_rstrip.
Qed.

Lemma strip_no_colon (s : string) :
  Py.contains ":" s = false -> Py.contains ":" (Py.strip s) = false.
Proof.
  intros H. apply lstrip_no_colon in H. unfold Py.strip.
  induction (Py.lstrip s) as [|c r IH]; [reflexivity|].
  rewrite contains_char in H. apply orb_false_elim in H as [Hc Hr].
  cbn [Py.rstrip_by].
  destruct (Py.isspace_char c && Py.is_empty (Py.rstrip_by Py.isspace_char r));
    [reflexivity|].
  now rewrite contains_char, Hc, (IH Hr).
Qed.

Lemma rstrip_first (s : string) (c : ascii) :
  Py.isspace_char c = false ->
  Py.startswith s (String c EmptyString) = true ->
  Py.startswith (Py.rstrip_by Py.isspace_char s) (String c EmptyString) = true.
Proof.
  intros Hc. destruct s as [|x r]; [discriminate|]. unfold Py.startswith.
  change (String.prefix (String c EmptyString) (String x r))
    with (if ascii_dec c x then String.prefix EmptyString r else false).
  destruct (ascii_dec c x) as [<-|]; [|discriminate]. intros _.
  cbn [Py.rstrip_by]. rewrite Hc. cbn [andb].
  change (String.prefix (String c EmptyString)
            (String c (Py.rstrip_by Py.isspace_char r)))
    with (if ascii_dec c c
          then String.prefix EmptyString (Py.rstrip_by Py.isspace_char r) else false).
  destruct (ascii_dec c c); [|congruence].
  now destruct (Py.rstrip_by Py.isspace_char r).
Qed.

(** A line without a colon and a comment line add nothing. *)
Lemma parse_line_skipped (frontmatter : Dict) (raw : string) :
  Py.contains ":" raw = false \/ Py.startswith (Py.lstrip raw) "#" = true ->
  parse_line frontmatter raw = Ok frontmatter.
Proof.
  intros [H|H]; unfold parse_line.
  - now rewrite (strip_no_colon raw H).
  - unfold Py.strip. rewrite (rstrip_first _ "#" eq_refl H).
    now rewrite andb_false_r.
Qed.

Lemma split_char_app (sep : ascii) (a b : string) :
  Py.contains (String sep EmptyString) a = false ->
  Py.split_char sep (a +:+ String sep b) = a :: Py.split_char sep b.
Proof.
  induction a as [|x a IH]; intros H.
  - simpl. now rewrite Ascii.eqb_refl.
  - rewrite contains_char in H. apply orb_false_elim in H as [Hx Ha].
    change (String x a +:+ String sep b) with (String x (a +:+ String sep b)).
    cbn [Py.split_char]. now rewrite Hx, (IH Ha).
Qed.

Lemma split_char_one (sep : ascii) (a : string) :
  Py.contains (String sep EmptyString) a = false -> Py.split_char sep a = [a].
Proof.
  induction a as [|x a IH]; intros H; [reflexivity|].
  rewrite contains_char in H. apply orb_false_elim in H as [Hx Ha].
  cbn [Py.split_char]. now rewrite Hx, (IH Ha).
Qed.

(** The lines of a text are the lines it was joined from. *)
Lemma split_join (lines : list string) :
  lines <> [] ->
  Forall (fun line => Py.contains Py.nl line = false) lines ->
  Py.split_char Py.NL (Py.join Py.nl lines) = lines.
Proof.
  intros Hne Hl. induction Hl as [|line rest Hline Hrest IH]; [congruence|].
  destruct rest as [|next rest].
  - simpl. now apply split_char_one.
  - change (Py.join Py.nl (line :: next :: rest))
      with (line +:+ String Py.NL (Py.join Py.nl (next :: rest))).
    rewrite split_char_app by exact Hline. f_equal. apply IH. discriminate.
Qed.

Lemma replace_from_plain (old new s : string) (c : ascii) :
  old = String c EmptyString ->
  Py.contains old s = false -> Py.replace_from old new s 0 = s.
Proof.
  intros ->. induction s as [|x s IH]; intros H; [reflexivity|].
  rewrite contains_char in H. apply orb_false_elim in H as [Hx Hs].
  cbn [Py.replace_from].
  change (String.prefix (String c EmptyString) (String x s))
    with (if ascii_dec c x then String.prefix EmptyString s else false).
  destruct (ascii_dec c x) as [<-|Hn].
  - now rewrite Ascii.eqb_refl in Hx.
  - now rewrite (IH Hs).
Qed.

Lemma replace_point (a b : string) :
  Py.contains "." a = false -> Py.contains "." b = false ->
  Py.replace "." EmptyString (a +:+ String "." b) = a +:+ b.
Proof.
  intros Ha Hb. unfold Py.replace. induction a as [|x a IH].
  - simpl. replace (String.prefix EmptyString b) with true by now destruct b.
    now apply (replace_from_plain "." EmptyString b ".").
  - rewrite contains_char in Ha. apply orb_false_elim in Ha as [Hx Ha].
    change (String x a +:+ String "." b) with (String x (a +:+ String "." b)).
    cbn [Py.replace_from].
    change (String.prefix "." (String x (a +:+ String "." b)))
      with (if ascii_dec "." x then String.prefix EmptyString (a +:+ String "." b)
            else false).
    destruct (ascii_dec "." x) as [<-|Hn]; [discriminate Hx|].
    now rewrite (IH Ha).
Qed.

Lemma decimal_no_point (s : string) :
  Py.all_chars Py.is_decimal s = true -> Py.contains "." s = false.
Proof.
  induction s as [|c s IH]; [reflexivity|]. simpl Py.all_chars. intros H.
  apply andb_prop in H as [Hc Hs]. rewrite contains_char, (IH Hs), orb_false_r.
  apply Ascii.eqb_neq. intros ->. discriminate Hc.
Qed.

Lemma count_char_app (c : ascii) (a b : string) :
  Py.count_char c (a +:+ b) = Py.count_char c a + Py.count_char c b.
Proof. induction a as [|x a IH]; simpl; [reflexivity | rewrite IH; lia]. Qed.

Lemma decimal_count_point (s : string) :
  Py.all_chars Py.is_decimal s = true -> Py.count_char "." s = 0.
Proof.
  induction s as [|c s IH]; [reflexivity|]. simpl. intros H.
  apply andb_prop in H as [Hc Hs]. rewrite (IH Hs).
  destruct (Ascii.eqb_spec c ".") as [->|]; [discriminate Hc | reflexivity].
Qed.

Lemma lower_app (a b : string) : Py.lower (a +:+ b) = Py.lower a +:+ Py.lower b.
Proof. induction a as [|x a IH]; simpl; [reflexivity | now rewrite IH]. Qed.

Lemma all_chars_append (p : ascii -> bool) (a b : string) :
  Py.all_chars p (a +:+ b) = Py.all_chars p a && Py.all_chars p b.
Proof.
  induction a as [|x a IH]; simpl; [reflexivity|]. now rewrite IH, andb_assoc.
Qed.

(** A numeral with one point is converted to the float nearest to it:
    the digits before and after the point give the mantissa, the number of
    digits after it the power of ten. *)
Lemma convert_float (whole fraction : string) :
  Py.all_chars Py.is_decimal whole = true ->
  Py.all_chars Py.is_decimal fraction = true ->
  whole +:+ fraction <> EmptyString ->
  convert_scalar (whole +:+ String "." fraction)
  = Ok (VFloat (Binary64.of_decimal (Py.digits_value 0 (whole +:+ fraction))
                                    (String.length fraction))).
Proof.
  intros Hw Hf Hne. unfold convert_scalar.
  assert (Hlow : Py.lower (whole +:+ String "." fraction) = whole +:+ String "." fraction).
  { rewrite lower_app. simpl. now rewrite (decimal_lower _ Hw), (decimal_lower _ Hf). }
  rewrite Hlow.
  assert (Hb : String.eqb (whole +:+ String "." fraction) "true"
               || String.eqb (whole +:+ String "." fraction) "false" = false).
  { destruct whole as [|c w]; [reflexivity|]. simpl in Hw.
    apply andb_prop in Hw as [Hc _].
    apply orb_false_intro; apply String.eqb_neq; intros [= -> _]; discriminate. }
  rewrite Hb.
  assert (Hd : Py.isdigit (whole +:+ String "." fraction) = false).
  { unfold Py.isdigit. rewrite all_chars_append. simpl.
    now rewrite andb_false_r, andb_false_r. }
  rewrite Hd.
  rewrite (replace_point whole fraction (decimal_no_point _ Hw) (decimal_no_point _ Hf)).
  assert (Hall : Py.all_chars Py.is_decimal (whole +:+ fraction) = true).
  { now rewrite all_chars_append, Hw, Hf. }
  assert (Hdig : Py.isdigit (whole +:+ fraction) = true).
  { unfold Py.isdigit. rewrite (decimal_isdigit _ Hall).
    destruct (whole +:+ fraction); [congruence | reflexivity]. }
  rewrite Hdig, Hall.
  assert (Hcount : Py.count_char "." (whole +:+ String "." fraction) = 1).
  { rewrite count_char_app. simpl.
    rewrite (decimal_count_point _ Hw), (decimal_count_point _ Hf). reflexivity. }
  rewrite Hcount. cbn [Nat.eqb andb].
  unfold frac_digits. now rewrite (split_once_app "." whole fraction (decimal_no_point _ Hw)).
Qed.

End LineParser.

Section Quotes.
Import Frontmatter.

Lemma last_char_snoc (s : string) (q : ascii) :
  Py.last_char (s +:+ String q EmptyString) = Some q.
Proof.
  induction s as [|c s IH]; [reflexivity|].
  simpl. destruct (s +:+ String q EmptyString) eqn:E; [|exact IH].
  destruct s; discriminate.
Qed.

Lemma length_snoc (s : string) (q : ascii) :
  String.length (s +:+ String q EmptyString) = S (String.length s).
Proof. induction s as [|c s IH]; simpl; [reflexivity | now rewrite IH]. Qed.

Lemma take_snoc (s : string) (q : ascii) :
  Py.take_str (String.length s) (s +:+ String q EmptyString) = s.
Proof. induction s as [|c s IH]; simpl; [reflexivity | now rewrite IH]. Qed.

(** A value between two quotes of the same kind loses exactly them. *)
Lemma unquote_quoted (q : ascii) (s : string) :
  q = Py.QUOTE \/ q = Py.APOS ->
  unquote (String q (s +:+ String q EmptyString)) = s.
Proof.
  intros Hq. unfold unquote, Py.wrapped_in, Py.strip_ends.
  change (Py.first_char (String q (s +:+ String q EmptyString))) with (Some q).
  assert (Hl : Py.last_char (String q (s +:+ String q EmptyString)) = Some q).
  { change (String q (s +:+ String q EmptyString))
      with (String q s +:+ String q EmptyString).
    apply last_char_snoc. }
  rewrite Hl.
  assert (Ht : Py.take_str (String.length (String q (s +:+ String q EmptyString)) - 2)
                 (Py.drop_str 1 (String q (s +:+ String q EmptyString))) = s).
  { simpl. rewrite length_snoc. simpl. rewrite Nat.sub_0_r. apply take_snoc. }
  rewrite Ht.
  destruct Hq as [-> | ->]; reflexivity.
Qed.

End Quotes.

Section Delimiters.
Import Frontmatter.

Lemma lstrip_length (s : string) : String.length (Py.lstrip s) <= String.length s.
Proof.
  induction s as [|c s IH]; simpl; [lia|].
  destruct (Py.isspace_char c); simpl; lia.
Qed.

Lemma rstrip_by_length (p : ascii -> bool) (s : string) :
  String.length (Py.rstrip_by p s) <= String.length s.
Proof.
  induction s as [|c s IH]; simpl; [lia|].
  destruct (p c && Py.is_empty (Py.rstrip_by p s)); simpl; lia.
Qed.

(** A text that [lstrip] leaves alone does not begin with white space. *)
Lemma lstrip_fixed (c : ascii) (r : string) :
  Py.lstrip (String c r) = String c r -> Py.isspace_char c = false.
Proof.
  simpl. destruct (Py.isspace_char c); [|reflexivity]. intros H.
  pose proof (lstrip_length r) as Hl. rewrite H in Hl. simpl in Hl. lia.
Qed.

Lemma strip_fixed_lstrip (s : string) : Py.strip s = s -> Py.lstrip s = s.
Proof.
  intros H. destruct s as [|c r]; [reflexivity|].
  simpl. destruct (Py.isspace_char c) eqn:Ec; [|reflexivity].
  exfalso. unfold Py.strip in H. simpl in H. rewrite Ec in H.
  pose proof (rstrip_by_length Py.isspace_char (Py.lstrip r)) as H1.
  pose proof (lstrip_length r) as H2. rewrite H in H1. simpl in H1. lia.
Qed.

Lemma ws_nl_ends_none (s : string) : Py.lstrip s = s -> ws_nl_ends s = [].
Proof.
  destruct s as [|c r]; [reflexivity|]. intros H.
  simpl. now rewrite (lstrip_fixed c r H).
Qed.

(** The closing delimiter where it stands. *)
Lemma match_closing_here (body : string) :
  Py.lstrip body = body ->
  match_closing (Py.nl +:+ "---" +:+ Py.nl +:+ body) = Some body.
Proof.
  intros H. unfold match_closing.
  change (String.prefix closing (Py.nl +:+ "---" +:+ Py.nl +:+ body))
    with (String.prefix EmptyString (Py.nl +:+ body)).
  change (Py.drop_str 4 (Py.nl +:+ "---" +:+ Py.nl +:+ body)) with (String Py.NL body).
  cbn. now rewrite (ws_nl_ends_none body H).
Qed.

Lemma prefix_cons (x y : ascii) (p s : string) :
  String.prefix (String x p) (String y s) = Ascii.eqb x y && String.prefix p s.
Proof.
  change (String.prefix (String x p) (String y s))
    with (if ascii_dec x y then String.prefix p s else false).
  destruct (ascii_dec x y) as [<-|Hn].
  - now rewrite Ascii.eqb_refl.
  - apply Ascii.eqb_neq in Hn. now rewrite Hn.
Qed.

Lemma prefix_empty (s : string) : String.prefix EmptyString s = true.
Proof. now destruct s. Qed.

(** A pattern without a newline that does not begin a text does not begin
    it either when a new line is added to the text. *)
Lemma prefix_before_newline (p b tail : string) :
  Py.contains Py.nl p = false ->
  String.prefix p b = false ->
  String.prefix p (b +:+ String Py.NL tail) = false.
Proof.
  revert b. induction p as [|x p IH]; intros b Hp Hb.
  - now rewrite prefix_empty in Hb.
  - unfold Py.nl in Hp. rewrite contains_char in Hp.
    apply orb_false_elim in Hp as [Hx Hp].
    destruct b as [|y b].
    + change (EmptyString +:+ String Py.NL tail) with (String Py.NL tail).
      now rewrite prefix_cons, Hx.
    + change (String y b +:+ String Py.NL tail) with (String y (b +:+ String Py.NL tail)).
      rewrite prefix_cons in *.
      destruct (Ascii.eqb x y); [|reflexivity]. cbn [andb] in *.
      now apply IH.
Qed.

(** The closing delimiter does not begin inside a block that does not hold
    it, whatever line follows the block. *)
Lemma prefix_closing_inside (c : ascii) (b tail : string) :
  String.prefix closing (String c b) = false ->
  String.prefix closing (String c (b +:+ String Py.NL tail)) = false.
Proof.
  change closing with (String Py.NL "---"). rewrite !prefix_cons.
  destruct (Ascii.eqb Py.NL c); [|reflexivity]. cbn [andb].
  now apply prefix_before_newline.
Qed.

(** The lazy group stops at the first closing delimiter. *)
Lemma find_closing_first (block group tail after : string) :
  Py.contains closing block = false ->
  match_closing (String Py.NL tail) = Some after ->
  find_closing group (block +:+ String Py.NL tail) = Some (group +:+ block, after).
Proof.
  revert group. induction block as [|c b IH]; intros group Hb Hm.
  - change (EmptyString +:+ String Py.NL tail) with (String Py.NL tail).
    cbn [find_closing]. rewrite Hm. now rewrite append_empty_r.
  - change (Py.contains closing (String c b))
      with (String.prefix closing (String c b) || Py.contains closing b) in Hb.
    apply orb_false_elim in Hb as [Hp Hc].
    change (String c b +:+ String Py.NL tail) with (String c (b +:+ String Py.NL tail)).
    cbn [find_closing].
    assert (Hnone : match_closing (String c (b +:+ String Py.NL tail)) = None).
    { unfold match_closing.
      now rewrite (prefix_closing_inside c b tail Hp). }
    rewrite Hnone, (IH _ Hc Hm), append_assoc. reflexivity.
Qed.

(** A block that begins with a character that is not white space and holds
    no closing delimiter, followed by a body that does not begin with white
    space, is found, with that body. *)
Lemma frontmatter_match_complete (block body : string) :
  block <> EmptyString ->
  Py.lstrip block = block ->
  Py.contains closing block = false ->
  Py.lstrip body = body ->
  frontmatter_match (note_of block body) = Some (block, body).
Proof.
  intros Hne Hblock Hclosing Hbody. unfold frontmatter_match, note_of.
  change (String.prefix "---"
            ("---" +:+ Py.nl +:+ block +:+ Py.nl +:+ "---" +:+ Py.nl +:+ body))
    with (String.prefix EmptyString
            (Py.nl +:+ block +:+ Py.nl +:+ "---" +:+ Py.nl +:+ body)).
  change (Py.drop_str 3 ("---" +:+ Py.nl +:+ block +:+ Py.nl +:+ "---" +:+ Py.nl +:+ body))
    with (String Py.NL (block +:+ Py.nl +:+ "---" +:+ Py.nl +:+ body)).
  cbn [String.prefix append Py.nl].
  assert (Hends : ws_nl_ends (String Py.NL (block +:+ String Py.NL ("---" +:+ String Py.NL body)))
                  = [block +:+ String Py.NL ("---" +:+ String Py.NL body)]).
  { destruct block as [|c b]; [congruence|].
    change (ws_nl_ends (String Py.NL (String c b +:+ String Py.NL ("---" +:+ String Py.NL body))))
      with (ws_nl_ends (String c (b +:+ String Py.NL ("---" +:+ String Py.NL body)))
            ++ [String c b +:+ String Py.NL ("---" +:+ String Py.NL body)]).
    cbn [ws_nl_ends]. now rewrite (lstrip_fixed c b Hblock). }
  cbn [append] in Hends. rewrite Hends. cbn [first_success].
  pose proof (find_closing_first block EmptyString ("---" +:+ String Py.NL body) body
                Hclosing (match_closing_here body Hbody)) as Hfound.
  cbn [append] in Hfound. rewrite Hfound. reflexivity.
Qed.

Lemma no_newline_no_closing (s : string) :
  Py.contains Py.nl s = false -> Py.contains closing s = false.
Proof.
  induction s as [|c s IH]; [reflexivity|]. unfold Py.nl. rewrite contains_char.
  intros H. apply orb_false_elim in H as [Hc Hs].
  change (Py.contains closing (String c s))
    with (String.prefix closing (String c s) || Py.contains closing s).
  rewrite (IH Hs), orb_false_r. change closing with (String Py.NL "---").
  rewrite prefix_cons. rewrite Ascii.eqb_sym, Hc. reflexivity.
Qed.

(** One entry with a plain value comes back as it was written. *)
Lemma simple_round_trip (key value body : string) :
  key <> EmptyString -> Py.strip key = key ->
  Py.contains ":" key = false -> Py.contains Py.nl key = false ->
  Py.startswith key "#" = false ->
  Py.strip value = value -> Py.contains Py.nl value = false ->
  convert_scalar (unquote value) = Ok (VStr value) ->
  Py.lstrip body = body ->
  extract_frontmatter None (note_of (key +:+ ": " +:+ value) body)
  = Ok ([(key, VStr value)], body).
Proof.
  intros Hne Hkey Hcolon Hnl Hhash Hvalue Hvnl Hconv Hbody.
  pose proof (strip_fixed_lstrip key Hkey) as Hl.
  assert (Hblock_nl : Py.contains Py.nl (key +:+ ": " +:+ value) = false).
  { unfold Py.nl in *. rewrite contains_char_app, Hnl.
    change (": " +:+ value) with (String ":" (String " " value)).
    now rewrite !contains_char, Hvnl. }
  rewrite extract_frontmatter_cases.
  rewrite frontmatter_match_complete; try assumption.
  - cbn [parse_block]. unfold parse_simple_frontmatter.
    rewrite (split_char_one Py.NL _ Hblock_nl). cbn [parse_lines].
    change (key +:+ ": " +:+ value) with (key +:+ String ":" (String " " value)).
    rewrite parse_line_entry; [|exact Hcolon | now rewrite Hl].
    assert (Hs : Py.strip (String " " value) = value).
    { unfold Py.strip in *. exact Hvalue. }
    rewrite Hs, Hconv, Hkey. reflexivity.
  - destruct key; [congruence | discriminate].
  - destruct key as [|c k]; [congruence|].
    change (String c k +:+ ": " +:+ value) with (String c (k +:+ ": " +:+ value)).
    cbn [Py.lstrip]. now rewrite (lstrip_fixed c k Hl).
  - now apply no_newline_no_closing.
Qed.

End Delimiters.

Section RoundTrip.
Import Frontmatter.




(** C10. [extract_frontmatter] never raises, and when a block is present
    whose contents cannot be parsed it returns the empty mapping and the
    content as it was given, the block included. *)
Theorem extract_frontmatter_total_atomic (yaml : Yaml) (content : string) :
  (exists fm body, extract_frontmatter yaml content = Ok (fm, body)) /\
  (forall text after e,
      frontmatter_match content = Some (text, after) ->
      parse_block yaml text = Raise e ->
      extract_frontmatter yaml content = Ok ([], content)).
Proof.
  rewrite extract_frontmatter_cases. split.
  - destruct (frontmatter_match content) as [[text after]|]; [|eauto].
    destruct (parse_block yaml text); eauto.
  - intros text after e Hm Hp. now rewrite Hm, Hp.
Qed.

Lemma extract_frontmatter_total_atomic_witness :
  frontmatter_match note_bad_float = Some ("k: 1.2.3"%string, "body"%string) /\
  parse_block None "k: 1.2.3" = Raise (ValueError "could not convert string to float") /\
  extract_frontmatter None note_bad_float = Ok ([], note_bad_float).
Proof.
  assert (Hm : frontmatter_match note_bad_float = Some ("k: 1.2.3"%string, "body"%string))
    by reflexivity.
  assert (Hp : parse_block None "k: 1.2.3"
               = Raise (ValueError "could not convert string to float"))
    by reflexivity.
  split; [exact Hm | split; [exact Hp|]].
  exact (proj2 (extract_frontmatter_total_atomic None note_bad_float) _ _ _ Hm Hp).
Defined.

End RoundTrip.

(** ** Namespace resolution *)

Section FolderMapping.
Import Config Namespace.

Lemma first_matching_find (folder : string) (l : list Mapping) :
  first_matching folder l
  = option_map (fun m => or_empty (groupId m)) (List.find (hits folder) l).
Proof.
  induction l as [|m l IH]; [reflexivity|].
  simpl. unfold hits at 1, usable.
  destruct (Py.is_empty (or_empty (folderPath m))); simpl; [exact IH|].
  destruct (Py.is_empty (or_empty (groupId m))); simpl; [exact IH|].
  destruct (folder_matches folder (as_posix (or_empty (folderPath m)))); [reflexivity | exact IH].
Qed.

Lemma insert_longest_first_in (m x : Mapping) (l : list Mapping) :
  In x (insert_longest_first m l) <-> x = m \/ In x l.
Proof.
  induction l as [|y l IH]; simpl; [intuition|].
  destruct (folder_len m <? folder_len y); simpl; [rewrite IH|]; intuition.
Qed.

Lemma sort_longest_first_in (x : Mapping) (l : list Mapping) :
  In x (sort_longest_first l) <-> In x l.
Proof.
  induction l as [|m l IH]; simpl; [tauto|].
  rewrite insert_longest_first_in, IH. intuition.
Qed.

Lemma insert_longest_first_sorted (m : Mapping) (l : list Mapping) :
  LongestFirst l -> LongestFirst (insert_longest_first m l).
Proof.
  induction 1 as [|y l Hy Hl IH]; simpl.
  - constructor; [intros x []|constructor].
  - destruct (folder_len m <? folder_len y) eqn:E.
    + apply Nat.ltb_lt in E. constructor; [|exact IH].
      intros x Hx. apply insert_longest_first_in in Hx.
      destruct Hx as [->|Hx]; [lia | now apply Hy].
    + apply Nat.ltb_ge in E. constructor; [|now constructor].
      intros x [<-|Hx]; [exact E|]. specialize (Hy x Hx). lia.
Qed.

Lemma sort_longest_first_sorted (l : list Mapping) : LongestFirst (sort_longest_first l).
Proof.
  induction l as [|m l IH]; simpl; [constructor|].
  now apply insert_longest_first_sorted.
Qed.

Lemma find_longest (p : Mapping -> bool) (l : list Mapping) (m : Mapping) :
  LongestFirst l -> List.find p l = Some m ->
  In m l /\ p m = true /\
  forall x, In x l -> p x = true -> folder_len x <= folder_len m.
Proof.
  induction 1 as [|y l Hy Hl IH]; simpl; [discriminate|].
  destruct (p y) eqn:E.
  - intros [= <-]. split; [now left|]. split; [exact E|].
    intros x [<-|Hx] _; [lia | now apply Hy].
  - intros Hf. destruct (IH Hf) as (Hin & Hp & Hmax).
    split; [now right|]. split; [exact Hp|].
    intros x [<-|Hx] Hpx; [congruence | now apply Hmax].
Qed.

Lemma resolve_custom_unfold (note_path : string) (mappings : list Mapping) :
  _resolve_custom_folder_mapping note_path mappings
  = first_matching (folder_of (as_posix note_path)) (sort_longest_first mappings).
Proof. destruct mappings; reflexivity. Qed.

(** What the folder step returns: the group of a usable mapping whose
    normalized folder is the note's folder or one above it, compared
    character by character, and no such mapping has a longer folder path. *)
Lemma folder_mapping_longest_match (note_path : string) (mappings : list Mapping) (g : string) :
  _resolve_custom_folder_mapping note_path mappings = Some g ->
  exists m,
    In m mappings /\ groupId m = Some g /\ g <> EmptyString /\
    hits (folder_of (as_posix note_path)) m = true /\
    forall x, In x mappings -> hits (folder_of (as_posix note_path)) x = true ->
              folder_len x <= folder_len m.
Proof.
  rewrite resolve_custom_unfold, first_matching_find.
  destruct (List.find _ _) as [m|] eqn:Hf; [|discriminate].
  simpl. intros [= <-].
  destruct (find_longest _ _ _ (sort_longest_first_sorted mappings) Hf) as (Hin & Hp & Hmax).
  exists m. split; [now apply sort_longest_first_in|].
  assert (Hu : usable m = true).
  { unfold hits in Hp. now apply andb_prop in Hp. }
  unfold usable in Hu. apply andb_prop in Hu. destruct Hu as [_ Hg].
  destruct (groupId m) as [gid|]; simpl in *; [|discriminate].
  split; [reflexivity|]. split; [now destruct gid|]. split; [exact Hp|].
  intros x Hx. apply Hmax. now apply sort_longest_first_in.
Qed.

(** And it returns nothing only when no usable mapping matches. *)
Lemma folder_mapping_none (note_path : string) (mappings : list Mapping) :
  _resolve_custom_folder_mapping note_path mappings = None ->
  forall x, In x mappings -> hits (folder_of (as_posix note_path)) x = false.
Proof.
  rewrite resolve_custom_unfold, first_matching_find.
  destruct (List.find _ _) as [m|] eqn:Hf; [discriminate|].
  intros _ x Hx. apply (find_none _ _ Hf). now apply sort_longest_first_in.
Qed.

End FolderMapping.

Section NamespaceScenario.
Import Config Namespace.

(** C1. The folder step returns the group of a usable mapping whose
    normalized folder is the folder of the vault-relative note path or lies
    above it, and no such mapping has a longer folder path; with the
    mapping [Projects/2025 -> p25] the note [Projects/2025/notes/today.md]
    resolves to [p25]. But the comparison is case-sensitive: the same note
    reached as [projects/2025/notes/today.md] falls through to the default
    namespace [books], although the pipeline's own walk over the mappings,
    which ignores case, selects that very mapping for the note. *)
Theorem resolve_namespace_case_mismatch (py_str : PyVal -> string) :
  (forall note_path mappings g,
      _resolve_custom_folder_mapping note_path mappings = Some g ->
      exists m,
        In m mappings /\ groupId m = Some g /\ g <> EmptyString /\
        hits (folder_of (as_posix note_path)) m = true /\
        forall x, In x mappings -> hits (folder_of (as_posix note_path)) x = true ->
                  folder_len x <= folder_len m) /\
  (forall note_path vault,
      Py.is_empty (Py.rstrip_char "/" (as_posix (or_empty vault))) = false ->
      Py.startswith (Py.lower (as_posix note_path))
                    (Py.lower (Py.rstrip_char "/" (as_posix (or_empty vault)) +:+ "/")) = true ->
      vault_relative note_path vault
      = Py.drop_str (String.length (Py.rstrip_char "/" (as_posix (or_empty vault))) + 1)
                    (as_posix note_path)) /\
  resolve_namespace py_str "Projects/2025/notes/today.md" [] config_books = "p25"%string /\
  vault_relative "projects/2025/notes/today.md" (vault_path config_books)
    = "projects/2025/notes/today.md"%string /\
  Py.startswith (Py.lower "projects/2025/notes/today.md")
                (Py.lower "Projects/2025" +:+ "/") = true /\
  _resolve_custom_folder_mapping "projects/2025/notes/today.md" [mapping_p25] = None /\
  resolve_namespace py_str "projects/2025/notes/today.md" [] config_books = "books"%string /\
  pipeline_mapping "projects/2025/notes/today.md" config_books = Some mapping_p25.
Proof.
  split; [|split].
  - intros note_path mappings g H.
    destruct (folder_mapping_longest_match note_path mappings g H)
      as (m & Hin & Hg & Hne & Hhit & Hmax).
    exists m. auto.
  - intros note_path vault Hv Hp. unfold vault_relative.
    now rewrite Hv, Hp.
  - repeat split; reflexivity.
Qed.

(** The scenario of the specification, through the general statement. *)
Lemma resolve_namespace_case_mismatch_witness :
  _resolve_custom_folder_mapping "Projects/2025/notes/today.md" [mapping_p25]
    = Some "p25"%string /\
  exists m,
    In m [mapping_p25] /\ groupId m = Some "p25"%string /\
    hits (folder_of (as_posix "Projects/2025/notes/today.md")) m = true.
Proof.
  assert (H : _resolve_custom_folder_mapping "Projects/2025/notes/today.md" [mapping_p25]
              = Some "p25"%string) by reflexivity.
  split; [exact H|].
  destruct (proj1 (resolve_namespace_case_mismatch Episode.plain_str) _ _ _ H)
    as (m & Hin & Hg & _ & Hhit & _).
  exists m. auto.
Defined.

End NamespaceScenario.

(** ** Saga chain *)

Section StringOrder.

Lemma ascii_gt_trans (x y z : ascii) :
  Ascii.compare x y = Gt -> Ascii.compare y z = Gt -> Ascii.compare x z = Gt.
Proof.
  unfold Ascii.compare. rewrite !N.compare_gt_iff. lia.
Qed.

(** "Not smaller" is transitive for the code-point order of strings. *)
Lemma compare_not_lt_trans (a b c : string) :
  String.compare a b <> Lt -> String.compare b c <> Lt -> String.compare a c <> Lt.
Proof.
  revert b c; induction a as [|x a IH]; intros [|y b] [|z c]; simpl; try congruence.
  destruct (Ascii.compare x y) eqn:Exy; [| congruence |].
  - apply Ascii.compare_eq_iff in Exy. subst y.
    destruct (Ascii.compare x z); [apply IH | congruence | congruence].
  - intros _. destruct (Ascii.compare y z) eqn:Eyz; [| congruence |].
    + apply Ascii.compare_eq_iff in Eyz. subst z. rewrite Exy. congruence.
    + rewrite (ascii_gt_trans x y z Exy Eyz). congruence.
Qed.

Lemma ltb_false_trans (a b c : string) :
  String.ltb a b = false -> String.ltb b c = false -> String.ltb a c = false.
Proof.
  unfold String.ltb. intros H1 H2.
  assert (String.compare a c <> Lt) as H.
  { apply (compare_not_lt_trans a b c).
    - destruct (String.compare a b); congruence.
    - destruct (String.compare b c); congruence. }
  destruct (String.compare a c); congruence.
Qed.

Lemma ltb_asym (a b : string) : String.ltb a b = true -> String.ltb b a = false.
Proof.
  unfold String.ltb. rewrite (String.compare_antisym a b).
  destruct (String.compare b a); simpl; congruence.
Qed.

End StringOrder.

Section SagaChain.
Import Saga.

Lemma insert_latest_first_in (e x : SyncEntry) (l : list SyncEntry) :
  In x (insert_latest_first e l) <-> x = e \/ In x l.
Proof.
  induction l as [|y l IH]; simpl; [intuition|].
  destruct (String.ltb (sync_key e) (sync_key y)); simpl; [rewrite IH|]; intuition.
Qed.

Lemma sort_latest_first_in (x : SyncEntry) (l : list SyncEntry) :
  In x (sort_latest_first l) <-> In x l.
Proof.
  induction l as [|e l IH]; simpl; [tauto|].
  rewrite insert_latest_first_in, IH. intuition.
Qed.

Lemma insert_latest_first_head (e : SyncEntry) (l : list SyncEntry) :
  heads_latest l -> heads_latest (insert_latest_first e l).
Proof.
  destruct l as [|y l]; simpl; [intros _ x []|].
  intros Hy. destruct (String.ltb (sync_key e) (sync_key y)) eqn:E; simpl.
  - intros x Hx. apply insert_latest_first_in in Hx.
    destruct Hx as [->|Hx]; [now apply ltb_asym | now apply Hy].
  - intros x [<-|Hx]; [exact E|].
    apply (ltb_false_trans _ (sync_key y)); [exact E | now apply Hy].
Qed.

Lemma sort_latest_first_head (l : list SyncEntry) : heads_latest (sort_latest_first l).
Proof.
  induction l as [|e l IH]; simpl; [exact I|].
  now apply insert_latest_first_head.
Qed.

Lemma ltb_irrefl (a : string) : String.ltb a a = false.
Proof.
  unfold String.ltb. pose proof (String.compare_antisym a a) as H.
  destruct (String.compare a a); simpl in H; congruence.
Qed.

Lemma matching_entries_in (target : string) (sync_records : list SyncRecord) (e : SyncEntry) :
  In e (matching_entries target sync_records) <->
  (exists r, In r sync_records /\ In e (entries_of r)) /\
  saga_name e = Some target /\
  exists u, episode_uuid e = Some u /\ u <> EmptyString.
Proof.
  unfold matching_entries. rewrite filter_In, in_concat. split.
  - intros [(l & Hl & He) Hs]. apply in_map_iff in Hl. destruct Hl as (r & <- & Hr).
    split; [eauto|]. unfold in_saga in Hs. apply andb_prop in Hs. destruct Hs as [Hn Hu].
    destruct (saga_name e) as [n|]; [|discriminate].
    apply String.eqb_eq in Hn. subst n. split; [reflexivity|].
    destruct (episode_uuid e) as [u|]; simpl in Hu; [|discriminate].
    exists u. split; [reflexivity|]. now destruct u.
  - intros ((r & Hr & He) & Hn & u & Hu & Hne). split.
    + exists (entries_of r). split; [|exact He]. apply in_map_iff. eauto.
    + unfold in_saga. rewrite Hn, Hu, String.eqb_refl. simpl. now destruct u.
Qed.



End SagaChain.

(** ** Reference time *)

Section ReferenceTime.
Import Time RefTime.

Lemma scan_fields_first (metadata : Dict) (pre post : list string) (f : string) (t : Datetime) :
  (forall g, In g pre -> field_time metadata g = None) ->
  field_time metadata f = Some t ->
  scan_fields metadata (pre ++ f :: post) = Some t.
Proof.
  unfold field_time. induction pre as [|g pre IH]; intros Hpre Hf; simpl.
  - destruct (Saga.truthy_value (dict_get f metadata)) as [v|]; [|discriminate].
    now rewrite Hf.
  - pose proof (Hpre g (or_introl eq_refl)) as Hg.
    destruct (Saga.truthy_value (dict_get g metadata)) as [v|].
    + rewrite Hg. apply IH; [|exact Hf]. intros g' Hg'. apply Hpre. now right.
    + apply IH; [|exact Hf]. intros g' Hg'. apply Hpre. now right.
Qed.

Lemma scan_fields_none (metadata : Dict) (fields : list string) :
  scan_fields metadata fields = None <->
  forall g, In g fields -> field_time metadata g = None.
Proof.
  unfold field_time. induction fields as [|f fields IH]; simpl.
  - split; [intros _ g [] | reflexivity].
  - destruct (Saga.truthy_value (dict_get f metadata)) as [v|] eqn:Ev.
    + destruct (time_of_value v) eqn:Et.
      * split; [discriminate|]. intros H. specialize (H f (or_introl eq_refl)).
        rewrite Ev in H. congruence.
      * rewrite IH. split.
        -- intros H g [<-|Hg]; [now rewrite Ev | now apply H].
        -- intros H g Hg. apply H. now right.
    + rewrite IH. split.
      * intros H g [<-|Hg]; [now rewrite Ev | now apply H].
      * intros H g Hg. apply H. now right.
Qed.

(** A date without a time parses to midnight, without a zone. *)
Lemma strptime_date_midnight (s : string) (dt : Datetime) :
  strptime s FmtDate = Ok dt ->
  hour dt = 0%Z /\ minute dt = 0%Z /\ second dt = 0%Z /\ microsecond dt = 0%Z /\
  tzinfo dt = None.
Proof.
  unfold strptime, match_format.
  destruct (p_date s) as [[[[y m] d] rest]|]; [|discriminate].
  destruct (negb (Py.is_empty rest)); [discriminate|].
  destruct (valid_date y m d && (0 <=? 59)%Z); [|discriminate].
  intros [= <-]. repeat split.
Qed.

Lemma formatted_is_aware (t : Datetime) : is_aware (formatted_reference_time t) = true.
Proof.
  unfold formatted_reference_time, is_aware.
  destruct (tzinfo t) eqn:E; simpl; now rewrite ?E.
Qed.




End ReferenceTime.

(** ** Episode construction *)

Section EpisodeFacts.
Import Time Episode.

Context {G : Type}.
Variable py_str : PyVal -> string.
Variable json_dumps : PyVal -> string.
Variable add_episode :
  EpisodeKwargs -> G -> RefTime.Clock -> Res (option AddResult) * G * RefTime.Clock.
Variable get_schema : Res Schema.

Variables (note_name clean_text : string) (reference_time : Datetime)
          (group database_type : string) (config : Config.BridgeConfig)
          (instructions saga_name saga_previous_uuid : option string).

Abbreviation fallback_kwargs :=
  (Episode.fallback_kwargs py_str json_dumps note_name clean_text reference_time group
     database_type config instructions saga_name saga_previous_uuid).
Abbreviation custom_kwargs :=
  (Episode.custom_kwargs py_str json_dumps note_name clean_text reference_time group
     database_type config instructions saga_name saga_previous_uuid).
Abbreviation generic_fallback :=
  (Episode.generic_fallback py_str json_dumps add_episode note_name clean_text
     reference_time group database_type config instructions saga_name saga_previous_uuid).
Abbreviation custom_episode :=
  (Episode.custom_episode py_str json_dumps add_episode get_schema note_name clean_text
     reference_time group database_type config instructions saga_name saga_previous_uuid).

Lemma submit_run (kwargs : EpisodeKwargs) (w : World G) :
  submit add_episode kwargs w =
  (fst (fst (add_episode kwargs (graph w) (clock w))),
   mkWorld (snd (fst (add_episode kwargs (graph w) (clock w))))
           (snd (add_episode kwargs (graph w) (clock w)))
           (warnings w) (submitted w ++ [kwargs])).
Proof.
  unfold submit. destruct (add_episode kwargs (graph w) (clock w)) as [[r g'] c'].
  reflexivity.
Qed.

(** One generic submission: one episode handed over, no warning. *)
Lemma generic_fallback_run (w : World G) :
  submitted (snd (generic_fallback w)) = submitted w ++ [fallback_kwargs] /\
  warnings (snd (generic_fallback w)) = warnings w.
Proof.
  unfold generic_fallback, create_generic_text_episode. rewrite submit_run.
  split; reflexivity.
Qed.

(** Both submissions carry the same group and the same reference time,
    which has a time zone. *)
Lemma fallback_same_group_and_time (metadata : Dict) (sch : Schema) :
  Episode.group_id fallback_kwargs = Episode.group_id (custom_kwargs metadata sch) /\
  Episode.reference_time fallback_kwargs = Episode.reference_time (custom_kwargs metadata sch) /\
  Episode.name fallback_kwargs = Episode.name (custom_kwargs metadata sch) /\
  is_aware (Episode.reference_time fallback_kwargs) = true.
Proof.
  repeat split. simpl. unfold RefTime.formatted_reference_time.
  destruct (tzinfo reference_time) eqn:E; unfold is_aware; simpl; now rewrite ?E.
Qed.

(** The custom submission raises: warning, then the generic submission. *)
Lemma custom_raises (metadata : Dict) (sch : Schema) (e : Exn) (w : World G) g1 c1 :
  get_schema = Ok sch -> entity_types sch <> [] ->
  add_episode (custom_kwargs metadata sch) (graph w) (clock w) = (Raise e, g1, c1) ->
  custom_episode metadata w =
  generic_fallback
    (warned e (mkWorld g1 c1 (warnings w) (submitted w ++ [custom_kwargs metadata sch]))).
Proof.
  intros Hs Hne Ha.
  unfold custom_episode, create_custom_entity_episode, try_with, custom_attempt, bind, lift.
  rewrite Hs. destruct (entity_types sch) as [|t ts] eqn:Et; [congruence|].
  fold (custom_kwargs metadata sch). rewrite submit_run, Ha. simpl.
  unfold warning. reflexivity.
Qed.

(** The schema cannot be loaded: warning, then the generic submission. *)
Lemma schema_raises (metadata : Dict) (e : Exn) (w : World G) :
  get_schema = Raise e ->
  custom_episode metadata w = generic_fallback (warned e w).
Proof.
  intros Hs.
  unfold custom_episode, create_custom_entity_episode, try_with, custom_attempt, bind, lift.
  rewrite Hs. simpl. unfold warning. destruct w; reflexivity.
Qed.

(** No entity types: the generic submission, and nothing is reported when
    it goes through. *)
Lemma schema_empty (metadata : Dict) (sch : Schema) (w : World G) r :
  get_schema = Ok sch -> entity_types sch = [] ->
  fst (generic_fallback w) = Ok r ->
  custom_episode metadata w = generic_fallback w.
Proof.
  intros Hs He Hr.
  unfold custom_episode, create_custom_entity_episode, try_with, custom_attempt, bind, lift.
  rewrite Hs, He. fold generic_fallback.
  destruct (generic_fallback w) as [[a|e'] w'] eqn:Eg; [reflexivity | discriminate].
Qed.

End EpisodeFacts.

Section CustomFallback.
Import Time Episode.

Context {G : Type}.
Variable py_str : PyVal -> string.
Variable json_dumps : PyVal -> string.
Variable add_episode :
  EpisodeKwargs -> G -> RefTime.Clock -> Res (option AddResult) * G * RefTime.Clock.
Variable get_schema : Res Schema.

Variables (note_name clean_text : string) (reference_time : Datetime)
          (group database_type : string) (config : Config.BridgeConfig)
          (instructions saga_name saga_previous_uuid : option string)
          (metadata : Dict).

Abbreviation custom :=
  (custom_episode py_str json_dumps add_episode get_schema note_name clean_text
     reference_time group database_type config instructions saga_name saga_previous_uuid
     metadata).
Abbreviation generic :=
  (generic_fallback py_str json_dumps add_episode note_name clean_text reference_time
     group database_type config instructions saga_name saga_previous_uuid).
Abbreviation kw_generic :=
  (fallback_kwargs py_str json_dumps note_name clean_text reference_time group
     database_type config instructions saga_name saga_previous_uuid).
Abbreviation kw_custom :=
  (custom_kwargs py_str json_dumps note_name clean_text reference_time group
     database_type config instructions saga_name saga_previous_uuid metadata).


End CustomFallback.

Section CustomFallbackExamples.
Import Time Episode.



End CustomFallbackExamples.

(** ** The single-note pipeline *)

Section PipelineFacts.
Import Time Episode Pipeline.

Context {G : Type}.
Variable py_str : PyVal -> string.
Variable json_dumps : PyVal -> string.
Variable add_episode :
  EpisodeKwargs -> G -> RefTime.Clock -> Res (option AddResult) * G * RefTime.Clock.
Variable get_schema : Res Schema.
Variable yaml : Frontmatter.Yaml.
Variable clean_markdown : string -> string.
Variable notes : string -> option string.
Variable fs : string -> Saga.SyncFile.

Abbreviation process :=
  (process_note py_str json_dumps add_episode get_schema yaml clean_markdown notes fs).

(** C9. A note whose extracted frontmatter has a truthy [private] key is
    skipped: the pipeline returns no result, nothing is handed to the
    graph, and the graph, the clock and the log are as they were. *)
Theorem private_note_is_skipped (note_path : string) (config : Config.BridgeConfig)
    (w : World G) (content : string) (metadata : Dict) (body : string) (v : PyVal) :
  notes (full_note_path note_path config) = Some content ->
  Frontmatter.extract_frontmatter yaml content = Ok (metadata, body) ->
  dict_get "private" metadata = Some v ->
  truthy v = true ->
  process note_path config w = (Ok None, w) /\
  submitted (snd (process note_path config w)) = submitted w /\
  graph (snd (process note_path config w)) = graph w.
Proof.
  intros Hnote Hfm Hp Ht.
  assert (H : process note_path config w = (Ok None, w)).
  { unfold process_note, bind, read_clock. rewrite Hnote.
    unfold try_with, process_body, bind, lift. rewrite Hfm. simpl.
    rewrite Hp, Ht. reflexivity. }
  rewrite H. repeat split.
Qed.

(** The answer to an exception that carries a rate limit. *)
Lemma rate_limited_answer (note_path : string) (start : Datetime) (e : Exn) (w : World G)
    (fields : Z * ResetTime) :
  (forall msg, e <> InfrastructureError msg) ->
  is_rate_limit (exn_text e) = true ->
  rate_limit_fields (RefTime.now_utc (clock w)) (exn_text e) = Ok fields ->
  exists r,
    on_exception note_path start e w = (Ok (Some r), w) /\
    status r = rate_limited /\
    provider_message r = Some (leading_line (exn_text e)) /\
    retry_after r = Some (fst fields) /\
    reset_time r = snd fields.
Proof.
  intros Hinfra Hrate Hfields. unfold on_exception, bind, read_clock, lift.
  destruct e as [m|m|m|m|m|m|m];
    try (simpl in *; rewrite Hrate, Hfields; eexists; repeat split).
  exfalso. now apply (Hinfra m).
Qed.

(** The fields are there unless the text holds a retry-after marker whose
    number [int] refuses. *)
Lemma rate_limit_fields_defined (now_utc : Datetime) (text : string) :
  (forall number, search match_retry_after text = Some number ->
                  exists n, number = Ok n) ->
  exists fields, rate_limit_fields now_utc text = Ok fields.
Proof.
  intros H. unfold rate_limit_fields.
  destruct (parse_reset now_utc text) as [n reset].
  destruct (n =? 60)%Z; [|eauto].
  destruct (search match_retry_after text) as [number|]; [|eauto].
  destruct (H number eq_refl) as [m ->]. simpl. eauto.
Qed.

(** The pipeline on a provider's rate limit: when the body of the [try]
    raises an exception that is not an [InfrastructureError] and whose text
    carries a rate limit, the result is [rate_limited] with the leading
    line of that text. *)
Lemma process_note_rate_limited (note_path : string) (config : Config.BridgeConfig)
    (w w' : World G) (content : string) (e : Exn) (fields : Z * ResetTime) :
  notes (full_note_path note_path config) = Some content ->
  process_body py_str json_dumps add_episode get_schema yaml clean_markdown fs
    note_path content config (RefTime.now (clock w)) w = (Raise e, w') ->
  (forall msg, e <> InfrastructureError msg) ->
  is_rate_limit (exn_text e) = true ->
  rate_limit_fields (RefTime.now_utc (clock w')) (exn_text e) = Ok fields ->
  exists r,
    process note_path config w = (Ok (Some r), w') /\
    status r = rate_limited /\
    provider_message r = Some (leading_line (exn_text e)) /\
    retry_after r = Some (fst fields) /\
    reset_time r = snd fields.
Proof.
  intros Hnote Hbody Hinfra Hrate Hf.
  destruct (rate_limited_answer note_path (RefTime.now (clock w)) e w' fields
              Hinfra Hrate Hf)
    as (r & Hr & Hfields).
  exists r. split; [|exact Hfields].
  unfold process_note, bind, read_clock. rewrite Hnote.
  unfold try_with. now rewrite Hbody.
Qed.

(** The reset time has priority whenever the delay it gives is not the
    default of sixty seconds. *)
Lemma reset_time_first (now_utc : Datetime) (text : string) (n : Z) (reset : ResetTime) :
  parse_reset now_utc text = (n, reset) -> n <> 60%Z ->
  rate_limit_fields now_utc text = Ok (n, reset).
Proof.
  intros Hp Hn. unfold rate_limit_fields. rewrite Hp.
  destruct (n =? 60)%Z eqn:E; [|reflexivity].
  apply Z.eqb_eq in E. contradiction.
Qed.

End PipelineFacts.

Section PipelineExamples.
Import Time Episode Pipeline.

Lemma private_note_is_skipped_witness :
  Frontmatter.extract_frontmatter None private_note
    = Ok ([("private"%string, VBool true)], "A secret."%string) /\
  run_note accepting private_note clock_east = (Ok None, world_at clock_east) /\
  submitted (snd (run_note accepting private_note clock_east)) = [].
Proof.
  assert (Hfm : Frontmatter.extract_frontmatter None private_note
                = Ok ([("private"%string, VBool true)], "A secret."%string))
    by reflexivity.
  split; [exact Hfm|].
  destruct (private_note_is_skipped plain_str plain_str accepting (Ok empty_schema) None
              (fun text => text) (fun _ => Some private_note) (fun _ => Saga.Missing)
              "Projects/2025/notes/today.md" Namespace.config_books (world_at clock_east)
              private_note _ _ (VBool true) eq_refl Hfm eq_refl eq_refl)
    as (Hrun & Hsub & _).
  split; [exact Hrun | exact Hsub].
Defined.

(** C5. An exception of the submission that carries a rate limit is
    answered with [rate_limited] and the leading line of the provider's
    text, and a reset time in the text decides the delay whenever the delay
    it gives is not 60: on the text of the scenario the delay is the whole
    seconds until 2030-01-02T03:04:00+00:00 and the reset time its ISO 8601
    form. The marker is meant to be consulted only when the reset time gave
    nothing, but the code tests for that by comparing the delay with the
    default of 60: one minute before the reset, a text that also holds
    [retry-after: 5] gets the delay 5, although its reset time is present,
    lies in the future and gives 60. (The delay and the reset time are
    there unless the text holds a marker with a number of more than 4300
    digits, which [int] refuses.) *)
Theorem rate_limit_default_collision :
  (forall now_utc text n reset,
      parse_reset now_utc text = (n, reset) -> n <> 60%Z ->
      rate_limit_fields now_utc text = Ok (n, reset)) /\
  (forall now_utc text,
      (forall number, search match_retry_after text = Some number ->
                      exists n, number = Ok n) ->
      exists fields, rate_limit_fields now_utc text = Ok fields) /\
  (forall (note_path : string) (start : Datetime) (e : Exn)
          (w : World (list EpisodeKwargs)) (fields : Z * ResetTime),
      (forall msg, e <> InfrastructureError msg) ->
      is_rate_limit (exn_text e) = true ->
      rate_limit_fields (RefTime.now_utc (clock w)) (exn_text e) = Ok fields ->
      exists r,
        on_exception note_path start e w = (Ok (Some r), w) /\
        status r = rate_limited /\
        provider_message r = Some (leading_line (exn_text e)) /\
        retry_after r = Some (fst fields) /\
        reset_time r = snd fields) /\
  (* the scenario of the specification *)
  (exists r,
      run_note (refusing usage_limit_text) plain_note clock_east
        = (Ok (Some r), snd (run_note (refusing usage_limit_text) plain_note clock_east)) /\
      status r = rate_limited /\
      provider_message r = Some "HTTP/1.1 400 Bad Request"%string /\
      retry_after r = Some 121187040%Z /\
      retry_after r =
        Some (whole_seconds (RefTime.now_utc clock_east) (mkDatetime 2030 1 2 3 4 0 0 utc)) /\
      reset_time r = ResetIso "2030-01-02T03:04:00+00:00") /\
  (* one minute before the reset, with a marker in the text *)
  search match_regain marker_text = Some ("2030-01-02"%string, "03:04"%string) /\
  parse_reset (RefTime.now_utc minute_before) marker_text
    = (60%Z, ResetIso "2030-01-02T03:04:00+00:00") /\
  search match_retry_after marker_text = Some (Ok 5%Z) /\
  rate_limit_fields (RefTime.now_utc minute_before) marker_text
    = Ok (5%Z, ResetIso "2030-01-02T03:04:00+00:00") /\
  (exists r,
      fst (run_note (refusing marker_text) plain_note minute_before) = Ok (Some r) /\
      status r = rate_limited /\
      retry_after r = Some 5%Z /\
      reset_time r = ResetIso "2030-01-02T03:04:00+00:00").
Proof.
  split; [|split; [|split; [|split]]].
  - exact reset_time_first.
  - exact rate_limit_fields_defined.
  - intros note_path start e w fields. apply rate_limited_answer.
  - eexists. split; [vm_compute; reflexivity|]. repeat split.
  - repeat split; try reflexivity.
    eexists. split; [vm_compute; reflexivity|]. repeat split.
Qed.

(** The text of the scenario, through the general statement: the seconds
    to the reset are not 60, so they are the delay. *)
Lemma rate_limit_default_collision_witness :
  parse_reset (RefTime.now_utc clock_east) usage_limit_text
    = (121187040%Z, ResetIso "2030-01-02T03:04:00+00:00") /\
  rate_limit_fields (RefTime.now_utc clock_east) usage_limit_text
    = Ok (121187040%Z, ResetIso "2030-01-02T03:04:00+00:00").
Proof.
  assert (H : parse_reset (RefTime.now_utc clock_east) usage_limit_text
              = (121187040%Z, ResetIso "2030-01-02T03:04:00+00:00")) by reflexivity.
  split; [exact H|].
  apply (proj1 rate_limit_default_collision _ _ _ _ H). discriminate.
Defined.

End PipelineExamples.

(** ** The RPC endpoint *)

Section RpcCap.
Import Hub.

Variable request_file_operation :
  PyVal -> PyVal -> PyVal -> spec_float -> Awaited (option Dict).

Abbreviation handler := (rpc_handler request_file_operation).

(** C7. A [POST /rpc] request that passes authentication and
    declares, in its [Content-Length] header, more than 2 MiB is answered
    with 413 before the body is read and before anything is handed to a
    vault, whatever the operation, the vault id and the body are. *)
Theorem rpc_payload_cap (st : State) (request : HttpRequest) (declared : string) (n : Z) :
  authorized st request = true ->
  header "Content-Length" request = Some declared ->
  py_int declared = Ok n ->
  (max_payload < n)%Z ->
  handler st request = (Ok (413, error_body "Payload too large"), []).
Proof.
  intros Hauth Hlen Hint Hbig. unfold rpc_handler.
  rewrite Hauth, Hlen. simpl.
  assert (Hne : Py.is_empty declared = false).
  { destruct declared; [discriminate Hint | reflexivity]. }
  rewrite Hne, Hint. simpl.
  replace (max_payload <? n)%Z with true by (symmetry; now apply Z.ltb_lt).
  reflexivity.
Qed.

(** The handler reads the body whenever it gets as far as the [try]. *)
Lemma rpc_body_reads (request : HttpRequest) :
  exists rest, snd (rpc_body request_file_operation request) = ReadBody :: rest.
Proof.
  unfold rpc_body.
  destruct (json_body request) as [[| | | | | | | |data]|e]; try (eexists; reflexivity).
  destruct (negb (truthy (get_or "operation" VNone data))); [eexists; reflexivity|].
  destruct (request_timeout (get_or "timeoutMs" VNone data)); [|eexists; reflexivity].
  destruct (request_file_operation _ _ _ _) as [[r|]|e]; eexists; reflexivity.
Qed.

(** The answers of the [try] block itself are 200, 400 and 404. *)
Lemma rpc_body_status (request : HttpRequest) (status : nat) (body : Dict) :
  fst (rpc_body request_file_operation request) = Ok (status, body) -> status <> 413.
Proof.
  unfold rpc_body.
  destruct (json_body request) as [[| | | | | | | |data]|e]; try discriminate.
  destruct (negb (truthy (get_or "operation" VNone data))); [intros [= <- _]; lia|].
  destruct (request_timeout (get_or "timeoutMs" VNone data)); [|discriminate].
  destruct (request_file_operation _ _ _ _) as [[r|]|e];
    [intros [= <- _]; lia | intros [= <- _]; lia | discriminate].
Qed.

(** Without a declared length the handler reads the body, and its answer
    is never 413. *)
Lemma undeclared_length_is_read (st : State) (request : HttpRequest) :
  authorized st request = true ->
  header "Content-Length" request = None ->
  (exists rest, snd (handler st request) = ReadBody :: rest) /\
  (forall status body, fst (handler st request) = Ok (status, body) -> status <> 413).
Proof.
  intros Hauth Hlen. unfold rpc_handler. rewrite Hauth, Hlen. simpl.
  destruct (rpc_body_reads request) as (rest & Hrest).
  pose proof (rpc_body_status request) as Hstatus.
  destruct (rpc_body request_file_operation request) as [[[s b]|e] effects]; simpl in *.
  - split; [eauto|]. intros status body [= <- <-]. now apply (Hstatus s b).
  - destruct e as [[]|]; simpl; (split; [eauto|]);
      intros status body; try discriminate; intros [= <- _]; lia.
Qed.

End RpcCap.

Section RpcExamples.
Import Hub.

Lemma rpc_payload_cap_witness :
  authorized (init "secret") declared_request = true /\
  header "Content-Length" declared_request = Some "3145728"%string /\
  py_int "3145728" = Ok 3145728%Z /\
  (max_payload < 3145728)%Z /\
  rpc_handler no_vault (init "secret") declared_request
    = (Ok (413, error_body "Payload too large"), []).
Proof.
  assert (H1 : authorized (init "secret") declared_request = true) by reflexivity.
  assert (H2 : header "Content-Length" declared_request = Some "3145728"%string)
    by reflexivity.
  assert (H3 : py_int "3145728" = Ok 3145728%Z) by reflexivity.
  assert (H4 : (max_payload < 3145728)%Z) by reflexivity.
  repeat (split; [assumption|]).
  exact (rpc_payload_cap no_vault (init "secret") declared_request _ _ H1 H2 H3 H4).
Defined.

(** Two requests with a body of 3 MiB that are not answered with 413: one
    with a wrong token, which is answered with 401, and one sent in chunks,
    without a declared length, whose body the handler reads. *)
Lemma rpc_payload_cap_exceptions :
  (max_payload < Z.of_nat (body_size unauthenticated_request))%Z /\
  rpc_handler no_vault (init "secret") unauthenticated_request
    = (Ok (401, error_body "Unauthorized"), []) /\
  (max_payload < Z.of_nat (body_size chunked_request))%Z /\
  (forall outcome,
      let request := mkRequest (headers chunked_request) [] big outcome in
      (exists rest, snd (rpc_handler no_vault (init "secret") request) = ReadBody :: rest) /\
      (forall status body,
          fst (rpc_handler no_vault (init "secret") request) = Ok (status, body) ->
          status <> 413)).
Proof.
  split; [reflexivity|]. split; [reflexivity|]. split; [reflexivity|].
  intros outcome request.
  apply undeclared_length_is_read; reflexivity.
Qed.

End RpcExamples.


(** ** The pending requests of the hub *)

Section HubInvariant.
Import Hub.

Lemma send_keeps (client_id : string) (message : Dict) (st : State) :
  pending_requests (send_to_client client_id message st) = pending_requests st /\
  futures (send_to_client client_id message st) = futures st /\
  calls (send_to_client client_id message st) = calls st.
Proof. unfold send_to_client. destruct (decide _); repeat split. Qed.

Lemma send_inv (client_id : string) (message : Dict) (st : State) :
  Inv st -> Inv (send_to_client client_id message st).
Proof.
  unfold Inv. destruct (send_keeps client_id message st) as (-> & -> & ->). auto.
Qed.

(** A registration leaves the requests alone. *)
Lemma register_keeps (client_id : string) (message : Dict) (st : State) :
  pending_requests (snd (register client_id message st)) = pending_requests st /\
  futures (snd (register client_id message st)) = futures st /\
  calls (snd (register client_id message st)) = calls st.
Proof.
  unfold register.
  destruct (get_or "payload" (VDict []) message) as [| | | | | | | |p];
    try (repeat split; fail).
  destruct (PyKey.key_of (vault_id_of client_id p)) as [k|]; [|repeat split].
  cbn [snd].
  destruct (send_keeps client_id
              [("type"%string, VStr "registered"); ("success"%string, VBool true);
               ("vaultId"%string, vault_id_of client_id p);
               ("isActive"%string,
                VBool (PyKey.equals k
                         (if truthy (active_vault_id st) then active_vault_id st
                          else vault_id_of client_id p)))]
              (set_vaults
                 (mkState (auth_token st) (clients st)
                    (dict_set client_id (VDict p) (vault_info st))
                    (client_to_vault st) (vault_to_client st) (pending_requests st)
                    (active_vault_id st) (futures st) (calls st) (sent st))
                 (dict_set client_id (vault_id_of client_id p) (client_to_vault st))
                 (PyKey.key_set k (vault_id_of client_id p) client_id
                    (vault_to_client st))
                 (if truthy (active_vault_id st) then active_vault_id st
                  else vault_id_of client_id p)))
    as (H1 & H2 & H3).
  cbn [vault_info client_to_vault vault_to_client active_vault_id] in *.
  rewrite H1, H2, H3. repeat split.
Qed.

Lemma register_inv (client_id : string) (message : Dict) (st : State) :
  Inv st -> Inv (snd (register client_id message st)).
Proof.
  unfold Inv. destruct (register_keeps client_id message st) as (-> & -> & ->). auto.
Qed.

(** Resolving a response: the entry goes, its future is done, the rest
    stays. *)
Lemma resolve_response_inv (message : Dict) (st : State) :
  Inv st -> Inv (snd (resolve_response message st)).
Proof.
  intros H. unfold resolve_response.
  destruct (dict_get "id" message) as [[| | | |rid| | |[|? ?]|[|? ?]]|]; simpl; try exact H.
  destruct (Py.is_empty rid); simpl; [exact H|].
  destruct (pending_requests st !! rid) as [h|] eqn:Hp; simpl; [|exact H].
  destruct H as (Ha & Hb & Hc & Hd). unfold Inv. simpl.
  destruct (Ha _ _ Hp) as (c & Hcall & Hfut).
  assert (Hkeep : forall h', h' <> h ->
            match futures st !! h with
            | Some Waiting => <[h:=Resolved (response_data message)]> (futures st)
            | _ => futures st
            end !! h' = futures st !! h').
  { intros h' Hne. destruct (futures st !! h) as [[]|]; try reflexivity.
    now apply list_lookup_insert_ne. }
  assert (Hdone : match futures st !! h with
                  | Some Waiting => <[h:=Resolved (response_data message)]> (futures st)
                  | _ => futures st
                  end !! h <> Some Waiting).
  { destruct (futures st !! h) as [[]|] eqn:Hf; rewrite ?Hf; try congruence.
    rewrite list_lookup_insert_eq; [congruence|]. apply lookup_lt_Some in Hf. exact Hf. }
  repeat split.
  - intros rid' h' Hl. apply lookup_delete_Some in Hl. destruct Hl as [_ Hl]. now apply Ha.
  - intros rid' c' Hc'. specialize (Hb _ _ Hc').
    destruct (futures st !! h) as [[]|]; rewrite ?length_insert; exact Hb.
  - intros rid' c' Hc' Hw.
    destruct (decide (call_future c' = h)) as [He|Hne].
    + rewrite He in Hw. contradiction.
    + rewrite (Hkeep _ Hne) in Hw. pose proof (Hc _ _ Hc' Hw) as Hp'.
      rewrite lookup_delete_ne; [exact Hp'|].
      intros <-. rewrite Hcall in Hc'. injection Hc' as <-. contradiction.
  - exact Hd.
Qed.

Lemma handle_message_inv (client_id : string) (message : Dict) (st : State) :
  Inv st -> Inv (snd (handle_message client_id message st)).
Proof.
  intros H. unfold handle_message.
  set (t := get_or "type" VNone message).
  assert (Hother : Inv (snd (if truthy t
            then match mentions_response t with
                 | Ok is_response =>
                     if is_response &&
                        match dict_get "id" message with Some _ => true | None => false end
                     then resolve_response message st
                     else (Ok tt, unknown_type client_id message st)
                 | Raise e => (Raise e, st)
                 end
            else (Ok tt, unknown_type client_id message st)))).
  { destruct (truthy t); [|now apply send_inv].
    destruct (mentions_response t) as [b|e]; [|exact H].
    destruct (b && _); [now apply resolve_response_inv | now apply send_inv]. }
  destruct t as [| | | |s| | | |]; try exact Hother.
  destruct (String.eqb s "register") eqn:E1.
  - apply String.eqb_eq in E1. subst s. now apply register_inv.
  - destruct (String.eqb s "pong") eqn:E2.
    + apply String.eqb_eq in E2. subst s. exact H.
    + revert Hother. clear -E1 E2.
      repeat (destruct s as [|[[] [] [] [] [] [] [] []] s]; try exact (fun x => x);
              try discriminate).
Qed.

Lemma on_message_inv (client_id : string) (message : Dict) (st : State) :
  Inv st -> Inv (on_message client_id message st).
Proof.
  intros H. unfold on_message.
  pose proof (handle_message_inv client_id message st H) as Hm.
  destruct (handle_message client_id message st) as [[[]|e] st']; simpl in Hm.
  - exact Hm.
  - now apply send_inv.
Qed.

(** *** The loop that cancels *)

Lemma cancel_request_facts (p : gmap string nat) (fs : list FutureState) (rh : string * nat) :
  let r := cancel_request (p, fs) rh in
  (forall rid h, fst r !! rid = Some h -> p !! rid = Some h) /\
  List.length (snd r) = List.length fs /\
  (forall h, snd r !! h = Some Waiting -> fs !! h = Some Waiting) /\
  (forall h, p !! fst rh = Some h -> snd r !! h <> Some Waiting) /\
  (forall rid, rid <> fst rh -> fst r !! rid = p !! rid).
Proof.
  unfold cancel_request. simpl.
  destruct (p !! fst rh) as [h0|] eqn:Hp; simpl.
  - assert (Hmono : forall h,
              (if future_done fs h0 then fs else <[h0:=Cancelled]> fs) !! h = Some Waiting ->
              fs !! h = Some Waiting).
    { intros h. destruct (future_done fs h0); [auto|].
      destruct (decide (h = h0)) as [->|Hne].
      - destruct (fs !! h0) eqn:Hf.
        + rewrite list_lookup_insert_eq; [discriminate|]. now apply lookup_lt_Some in Hf.
        + rewrite list_insert_ge; [congruence|]. now apply lookup_ge_None.
      - now rewrite list_lookup_insert_ne. }
    split; [|split; [|split; [|split]]].
    + intros rid h Hl. apply lookup_delete_Some in Hl. tauto.
    + destruct (future_done fs h0); [reflexivity | apply length_insert].
    + exact Hmono.
    + intros h [= <-]. unfold future_done.
      destruct (fs !! h0) as [f|] eqn:Hf.
      * destruct f; simpl; rewrite ?Hf; try congruence.
        rewrite list_lookup_insert_eq; [discriminate|]. now apply lookup_lt_Some in Hf.
      * simpl. rewrite Hf. discriminate.
    + intros rid Hne. now rewrite lookup_delete_ne.
  - repeat split; auto; discriminate.
Qed.

(** What the table and a future can become in one round of the loop. *)
Lemma cancel_request_effect (p : gmap string nat) (fs : list FutureState) (rh : string * nat) :
  let r := cancel_request (p, fs) rh in
  fst r !! fst rh = None /\
  (forall h, snd r !! h = fs !! h \/ snd r !! h = Some Cancelled).
Proof.
  unfold cancel_request. simpl.
  destruct (p !! fst rh) as [h0|] eqn:Hp; simpl.
  - split; [apply lookup_delete_eq|]. intros h.
    destruct (future_done fs h0); [now left|].
    destruct (decide (h = h0)) as [->|Hne].
    + destruct (fs !! h0) eqn:Hf.
      * right. apply list_lookup_insert_eq. now apply lookup_lt_Some in Hf.
      * left. rewrite list_insert_ge; [exact Hf|]. now apply lookup_ge_None.
    + left. now apply list_lookup_insert_ne.
  - split; [exact Hp | now left].
Qed.

Lemma cancel_loop_effect (l : list (string * nat)) (p : gmap string nat)
    (fs : list FutureState) :
  let r := List.fold_left cancel_request l (p, fs) in
  (forall rid, In rid (List.map fst l) -> fst r !! rid = None) /\
  (forall rid, p !! rid = None -> fst r !! rid = None) /\
  (forall h, snd r !! h = fs !! h \/ snd r !! h = Some Cancelled).
Proof.
  revert p fs; induction l as [|rh l IH]; intros p fs; simpl.
  - repeat split; auto; intros rid [].
  - destruct (cancel_request_effect p fs rh) as (E1 & E2).
    destruct (cancel_request_facts p fs rh) as (H1 & _).
    destruct (cancel_request (p, fs) rh) as [p1 fs1] eqn:Hstep. simpl in *.
    destruct (IH p1 fs1) as (I1 & I2 & I3). simpl in *.
    split; [|split].
    + intros rid [<-|Hin]; [now apply I2 | now apply I1].
    + intros rid Hnone. apply I2.
      destruct (p1 !! rid) as [h|] eqn:Hl; [|reflexivity].
      apply H1 in Hl. congruence.
    + intros h. destruct (I3 h) as [-> | ->]; [apply E2 | now right].
Qed.

Lemma cancel_loop_facts (l : list (string * nat)) (p : gmap string nat)
    (fs : list FutureState) :
  let r := List.fold_left cancel_request l (p, fs) in
  (forall rid h, fst r !! rid = Some h -> p !! rid = Some h) /\
  List.length (snd r) = List.length fs /\
  (forall h, snd r !! h = Some Waiting -> fs !! h = Some Waiting) /\
  (forall rid h, In rid (List.map fst l) -> p !! rid = Some h -> snd r !! h <> Some Waiting).
Proof.
  revert p fs; induction l as [|rh l IH]; intros p fs; simpl.
  - repeat split; auto; intros rid h [].
  - destruct (cancel_request_facts p fs rh) as (H1 & H2 & H3 & H4 & H5).
    destruct (cancel_request (p, fs) rh) as [p1 fs1] eqn:Hstep. simpl in *.
    destruct (IH p1 fs1) as (I1 & I2 & I3 & I4). simpl in *.
    repeat split.
    + intros rid h Hl. apply H1. now apply I1.
    + now rewrite I2.
    + intros h Hl. apply H3. now apply I3.
    + intros rid h Hin Hp Hw.
      destruct (decide (rid = fst rh)) as [->|Hne].
      * apply (H4 h Hp). now apply I3.
      * destruct Hin as [He|Hin]; [congruence|].
        apply (I4 rid h Hin); [|exact Hw]. now rewrite H5.
Qed.

(** After the two loops no future in the table is left waiting. *)
Lemma cancel_pending_inv (st : State) : Inv st -> Inv (cancel_pending st).
Proof.
  intros (Ha & Hb & Hc & Hd). unfold Inv, cancel_pending. simpl.
  destruct (cancel_loop_facts (requests_to_cancel st) (pending_requests st) (futures st))
    as (I1 & I2 & I3 & I4).
  repeat split.
  - intros rid h Hl. apply Ha. now apply I1.
  - intros rid c Hcall. rewrite I2. now apply (Hb rid).
  - intros rid c Hcall Hw. exfalso.
    pose proof (I3 _ Hw) as Hw0. pose proof (Hc _ _ Hcall Hw0) as Hp.
    apply (I4 rid (call_future c)); [|exact Hp|exact Hw].
    apply in_map_iff. exists (rid, call_future c). split; [reflexivity|].
    unfold requests_to_cancel. apply filter_In. split.
    + apply list_elem_of_In. now apply elem_of_map_to_list.
    + simpl. unfold future_done. now rewrite Hw0.
  - exact Hd.
Qed.

(** The two loops remove every waiting request from the table and cancel
    its future. *)
Lemma cancel_pending_cancels (request_id : string) (st : State) (h : nat) :
  pending_requests st !! request_id = Some h ->
  futures st !! h = Some Waiting ->
  pending_requests (cancel_pending st) !! request_id = None /\
  futures (cancel_pending st) !! h = Some Cancelled.
Proof.
  intros Hp Hw. unfold cancel_pending. simpl.
  assert (Hin : In request_id (List.map fst (requests_to_cancel st))).
  { apply in_map_iff. exists (request_id, h). split; [reflexivity|].
    unfold requests_to_cancel. apply filter_In. split.
    - apply list_elem_of_In. now apply elem_of_map_to_list.
    - simpl. unfold future_done. now rewrite Hw. }
  destruct (cancel_loop_effect (requests_to_cancel st) (pending_requests st) (futures st))
    as (E1 & _ & E3).
  destruct (cancel_loop_facts (requests_to_cancel st) (pending_requests st) (futures st))
    as (_ & _ & _ & I4).
  split; [now apply E1|].
  destruct (E3 h) as [He|He]; [|exact He].
  exfalso. apply (I4 request_id h Hin Hp). now rewrite He.
Qed.

(** The clean-up of a disconnection is the two loops on a server with the
    same requests, or, when the vault id of the client cannot be a key,
    leaves the requests as they are. *)
Lemma on_disconnect_cases (client_id : string) (st : State) :
  (exists st1,
      on_disconnect client_id st = cancel_pending st1 /\
      pending_requests st1 = pending_requests st /\
      futures st1 = futures st /\ calls st1 = calls st) \/
  ((exists vault_id,
       dict_get client_id (client_to_vault st) = Some vault_id /\
       PyKey.key_of vault_id = None) /\
   pending_requests (on_disconnect client_id st) = pending_requests st /\
   futures (on_disconnect client_id st) = futures st /\
   calls (on_disconnect client_id st) = calls st).
Proof.
  unfold on_disconnect.
  destruct (dict_get client_id (client_to_vault st)) as [vault_id|].
  - destruct (PyKey.key_of vault_id) as [k|] eqn:Ek.
    + left. eexists. split; [reflexivity|]. repeat split.
    + right. split; [exists vault_id; auto|]. repeat split.
  - left. eexists. split; [reflexivity|]. repeat split.
Qed.

Lemma on_disconnect_inv (client_id : string) (st : State) :
  Inv st -> Inv (on_disconnect client_id st).
Proof.
  intros H.
  destruct (on_disconnect_cases client_id st)
    as [(st1 & -> & Hp & Hf & Hc)|(_ & Hp & Hf & Hc)].
  - apply cancel_pending_inv. unfold Inv. now rewrite Hp, Hf, Hc.
  - unfold Inv. now rewrite Hp, Hf, Hc.
Qed.

(** The disconnection of any client, whoever it is, removes every waiting
    request from the table and cancels its future, provided the clean-up
    runs to its end. *)
Lemma disconnect_cancels_every_waiting_request (client_id request_id : string)
    (st : State) (h : nat) :
  cleans_up client_id st ->
  pending_requests st !! request_id = Some h ->
  futures st !! h = Some Waiting ->
  pending_requests (on_disconnect client_id st) !! request_id = None /\
  futures (on_disconnect client_id st) !! h = Some Cancelled.
Proof.
  intros Hclean Hp Hw.
  destruct (on_disconnect_cases client_id st)
    as [(st1 & -> & Hp1 & Hf1 & _)|((v & Hv & Hk) & _)].
  - apply cancel_pending_cancels; [now rewrite Hp1 | now rewrite Hf1].
  - now destruct (Hclean v Hv).
Qed.

(** A client whose vault id cannot be a key leaves the requests as they
    are when it disconnects. *)
Lemma disconnect_without_clean_up (client_id : string) (st : State) (vault_id : PyVal) :
  dict_get client_id (client_to_vault st) = Some vault_id ->
  PyKey.key_of vault_id = None ->
  pending_requests (on_disconnect client_id st) = pending_requests st /\
  futures (on_disconnect client_id st) = futures st.
Proof.
  intros Hv Hk. unfold on_disconnect. rewrite Hv, Hk. split; reflexivity.
Qed.

Lemma start_request_inv (request_id : string) (vault_id operation params : PyVal)
    (st st' : State) :
  Inv st -> calls st !! request_id = None ->
  start_request request_id vault_id operation params st = Ok (Some st') ->
  Inv st'.
Proof.
  intros (Ha & Hb & Hc & Hd) Hfresh. unfold start_request, res_bind.
  destruct (find_client vault_id st) as [[client_id|]|e]; try discriminate.
  destruct (negb (Py.is_empty client_id) && bool_decide (client_id ∈ clients st));
    [|discriminate].
  intros [= <-]. apply send_inv. unfold Inv, set_pending. simpl.
  assert (Hnone : pending_requests st !! request_id = None).
  { destruct (pending_requests st !! request_id) as [h|] eqn:Hp; [|reflexivity].
    destruct (Ha _ _ Hp) as (c & Hcall & _). congruence. }
  repeat split.
  - intros rid h Hl. apply lookup_insert_Some in Hl.
    destruct Hl as [[<- <-]|[Hne Hl]].
    + eexists. rewrite lookup_insert_eq. split; reflexivity.
    + destruct (Ha _ _ Hl) as (c & Hcall & Hf). exists c.
      rewrite lookup_insert_ne; auto.
  - intros rid c Hl. rewrite length_app. simpl. apply lookup_insert_Some in Hl.
    destruct Hl as [[<- <-]|[Hne Hl]]; simpl; [lia|]. specialize (Hb _ _ Hl). lia.
  - intros rid c Hl Hw. apply lookup_insert_Some in Hl.
    destruct Hl as [[<- <-]|[Hne Hl]]; simpl.
    + now rewrite lookup_insert_eq.
    + rewrite lookup_insert_ne; [|exact Hne]. apply (Hc _ _ Hl).
      rewrite lookup_app_l in Hw; [exact Hw | now apply (Hb rid)].
  - intros r1 r2 c1 c2 H1 H2 He.
    apply lookup_insert_Some in H1. apply lookup_insert_Some in H2.
    destruct H1 as [[<- <-]|[N1 H1]], H2 as [[<- <-]|[N2 H2]]; simpl in *.
    + reflexivity.
    + specialize (Hb _ _ H2). lia.
    + specialize (Hb _ _ H1). lia.
    + now apply (Hd r1 r2 c1 c2).
Qed.

(** Leaving a call: its entry and its frame go, the others stay. *)
Lemma finish_request_inv (request_id : string) (st : State) :
  Inv st -> Inv (finish_request request_id st).
Proof.
  intros (Ha & Hb & Hc & Hd). unfold Inv, finish_request, set_pending. simpl.
  repeat split.
  - intros rid h Hl. apply lookup_delete_Some in Hl. destruct Hl as [Hne Hl].
    destruct (Ha _ _ Hl) as (c & Hcall & Hf). exists c.
    rewrite lookup_delete_ne; auto.
  - intros rid c Hl. apply lookup_delete_Some in Hl. destruct Hl as [_ Hl].
    now apply (Hb rid).
  - intros rid c Hl Hw. apply lookup_delete_Some in Hl. destruct Hl as [Hne Hl].
    rewrite lookup_delete_ne; [|exact Hne]. now apply Hc.
  - intros r1 r2 c1 c2 H1 H2. apply lookup_delete_Some in H1, H2.
    apply Hd; tauto.
Qed.

Lemma on_wake_inv (request_id : string) (st : State) :
  Inv st -> Inv (fst (on_wake request_id st)).
Proof.
  intros H. unfold on_wake.
  destruct (calls st !! request_id) as [c|]; [|exact H].
  destruct (futures st !! call_future c) as [[]|]; simpl;
    try exact H; now apply finish_request_inv.
Qed.

Lemma on_failure_inv (request_id : string) (e : Exn) (st : State) :
  Inv st -> Inv (fst (on_failure request_id e st)).
Proof.
  intros H. unfold on_failure.
  destruct (calls st !! request_id); simpl; [now apply finish_request_inv | exact H].
Qed.

Lemma on_timeout_inv (request_id : string) (st : State) :
  Inv st -> Inv (fst (on_timeout request_id st)).
Proof.
  intros H. unfold on_timeout.
  destruct (calls st !! request_id) as [c|] eqn:Hcall; [|exact H].
  destruct (futures st !! call_future c) as [[]|] eqn:Hf; simpl; try exact H.
  apply finish_request_inv.
  destruct H as (Ha & Hb & Hc & Hd). unfold Inv, set_pending. simpl.
  repeat split; auto.
  - intros rid c' Hl. rewrite length_insert. now apply (Hb rid).
  - intros rid c' Hl Hw.
    destruct (decide (call_future c' = call_future c)) as [He|Hne].
    + rewrite He, list_lookup_insert_eq in Hw; [discriminate|].
      now apply lookup_lt_Some in Hf.
    + rewrite list_lookup_insert_ne in Hw; [|congruence]. now apply Hc.
Qed.

Lemma init_inv (token : string) : Inv (init token).
Proof.
  unfold Inv, init. simpl. repeat split.
  - intros rid h Hl. rewrite lookup_empty in Hl. discriminate.
  - intros rid c Hl. rewrite lookup_empty in Hl. discriminate.
  - intros rid c Hl. rewrite lookup_empty in Hl. discriminate.
  - intros r1 r2 c1 c2 Hl. rewrite lookup_empty in Hl. discriminate.
Qed.

Lemma step_inv (st : State) (ev : Event) : Inv st -> enabled st ev -> Inv (step st ev).
Proof.
  intros H Hen. destruct ev as [c|c m|c|r v o p|r|r|r e]; simpl.
  - unfold connect. apply send_inv. exact H.
  - now apply on_message_inv.
  - now apply on_disconnect_inv.
  - destruct (start_request r v o p st) as [[st'|]|e] eqn:Hs; try exact H.
    now apply (start_request_inv r v o p st st').
  - now apply on_wake_inv.
  - now apply on_timeout_inv.
  - now apply on_failure_inv.
Qed.

(** In every reachable state the table, the futures and the calls agree. *)
Lemma reachable_inv (token : string) (st : State) : Reachable token st -> Inv st.
Proof.
  induction 1 as [|st ev Hst IH Hen]; [apply init_inv | now apply step_inv].
Qed.

(** Every request in flight has its entry in the pending table, and the
    entry names the future the call waits on. *)
Lemma in_flight_has_entry (token : string) (st : State) (request_id : string) :
  Reachable token st -> in_flight st request_id ->
  exists c, calls st !! request_id = Some c /\
            pending_requests st !! request_id = Some (call_future c) /\
            futures st !! call_future c = Some Waiting.
Proof.
  intros Hr (c & Hcall & Hw). destruct (reachable_inv _ _ Hr) as (_ & _ & Hc & _).
  exists c. auto.
Qed.

(** A response resolves the waiting future with the envelope and removes
    the entry; a second response with the same id finds nothing and
    changes nothing. *)
Lemma response_resolves_once (client_id request_id : string) (kind : string)
    (message : Dict) (st : State) (h : nat) :
  dict_get "type" message = Some (VStr kind) ->
  Py.contains "response" kind = true ->
  dict_get "id" message = Some (VStr request_id) ->
  request_id <> EmptyString ->
  pending_requests st !! request_id = Some h ->
  futures st !! h = Some Waiting ->
  let st' := on_message client_id message st in
  pending_requests st' !! request_id = None /\
  futures st' !! h = Some (Resolved (response_data message)) /\
  on_message client_id message st' = st'.
Proof.
  intros Ht Hk Hid Hne Hp Hf.
  assert (Hreg : kind <> "register"%string) by (intros ->; discriminate Hk).
  assert (Hpong : kind <> "pong"%string) by (intros ->; discriminate Hk).
  assert (Hkind : truthy (VStr kind) = true) by (destruct kind; [discriminate Hk | reflexivity]).
  assert (Hhandle : forall s,
            handle_message client_id message s = resolve_response message s).
  { intros s. unfold handle_message, get_or. rewrite Ht.
    assert (Hbranch :
              (if truthy (VStr kind)
               then match mentions_response (VStr kind) with
                    | Ok is_response =>
                        if is_response &&
                           match dict_get "id" message with Some _ => true | None => false end
                        then resolve_response message s
                        else (Ok tt, unknown_type client_id message s)
                    | Raise e => (Raise e, s)
                    end
               else (Ok tt, unknown_type client_id message s))
              = resolve_response message s).
    { rewrite Hkind. simpl. now rewrite Hk, Hid. }
    revert Hbranch. clear -Hreg Hpong.
    repeat (destruct kind as [|[[] [] [] [] [] [] [] []] kind];
            try exact (fun x => x); try congruence). }
  assert (Hres : forall s,
            resolve_response message s =
            match pending_requests s !! request_id with
            | Some h' =>
                (Ok tt,
                 set_pending s (delete request_id (pending_requests s))
                   match futures s !! h' with
                   | Some Waiting => <[h':=Resolved (response_data message)]> (futures s)
                   | _ => futures s
                   end (calls s))
            | None => (Ok tt, s)
            end).
  { intros s. unfold resolve_response. rewrite Hid.
    destruct request_id; [congruence | reflexivity]. }
  intros st'. subst st'. unfold on_message at 1 2 3.
  rewrite Hhandle, Hres, Hp, Hf. simpl.
  split; [apply lookup_delete_eq|]. split.
  - apply list_lookup_insert_eq. now apply lookup_lt_Some in Hf.
  - unfold on_message. rewrite !Hhandle, !Hres, Hp, Hf. simpl.
    replace (delete request_id (pending_requests st) !! request_id)
      with (@None nat) by (symmetry; apply lookup_delete_eq).
    reflexivity.
Qed.

(** Every way out of [request_file_operation] removes the entry. *)
Lemma exit_removes_entry (request_id : string) (st : State) (e : Exn) (x : Exit) :
  (snd (on_wake request_id st) = Some x ->
   pending_requests (fst (on_wake request_id st)) !! request_id = None) /\
  (snd (on_timeout request_id st) = Some x ->
   pending_requests (fst (on_timeout request_id st)) !! request_id = None) /\
  (snd (on_failure request_id e st) = Some x ->
   pending_requests (fst (on_failure request_id e st)) !! request_id = None).
Proof.
  unfold on_wake, on_timeout, on_failure.
  destruct (calls st !! request_id) as [c|]; [|repeat split; discriminate].
  repeat split.
  - destruct (futures st !! call_future c) as [[]|]; simpl; try discriminate;
      intros _; apply lookup_delete_eq.
  - destruct (futures st !! call_future c) as [[]|]; simpl; try discriminate;
      intros _; apply lookup_delete_eq.
  - intros _. apply lookup_delete_eq.
Qed.

End HubInvariant.

Section HubScenario.
Import Hub.

Lemma run_reachable (token : string) (evs : list Event) (st : State) :
  Reachable token st -> all_enabled st evs -> Reachable token (run st evs).
Proof.
  revert st; induction evs as [|ev evs IH]; intros st Hst Hen; simpl in *.
  - exact Hst.
  - destruct Hen as [He Hrest]. apply IH; [|exact Hrest].
    now apply reach_step.
Qed.

Ltac by_compute :=
  first [ vm_compute; reflexivity
        | let H := fresh in intros H; vm_compute in H; discriminate H ].

Lemma two_vaults_reachable : Reachable EmptyString (run (init EmptyString) two_vaults).
Proof.
  apply run_reachable; [apply reach_init|].
  unfold two_vaults, all_enabled, enabled. repeat split; by_compute.
Qed.

(** C2. In every reachable state of the hub a request in flight has its
    entry in the pending table; a response that carries its id removes the
    entry once and resolves its future with the envelope; and every way out
    of [request_file_operation] removes the entry. But a disconnection
    cancels every waiting request, whoever owns it: with the clients [A]
    and [B] and a request [r1] waiting for [B]'s vault, the disconnection
    of [A] removes the entry of [r1] and cancels its future, though [B]
    stays connected. This holds whenever the clean-up of the disconnection
    runs to its end, as it does for every client whose vault name is a
    string; a client that registered a list or an object as its vault name
    makes the clean-up raise before the loop, and then no request is
    touched. *)
Theorem disconnect_cancels_other_clients_requests :
  (forall token st request_id,
      Reachable token st -> in_flight st request_id ->
      exists c, calls st !! request_id = Some c /\
                pending_requests st !! request_id = Some (call_future c) /\
                futures st !! call_future c = Some Waiting) /\
  (forall client_id request_id kind message st h,
      dict_get "type" message = Some (VStr kind) ->
      Py.contains "response" kind = true ->
      dict_get "id" message = Some (VStr request_id) ->
      request_id <> EmptyString ->
      pending_requests st !! request_id = Some h ->
      futures st !! h = Some Waiting ->
      pending_requests (on_message client_id message st) !! request_id = None /\
      futures (on_message client_id message st) !! h
        = Some (Resolved (response_data message)) /\
      on_message client_id message (on_message client_id message st)
        = on_message client_id message st) /\
  (forall request_id st e x,
      (snd (on_wake request_id st) = Some x ->
       pending_requests (fst (on_wake request_id st)) !! request_id = None) /\
      (snd (on_timeout request_id st) = Some x ->
       pending_requests (fst (on_timeout request_id st)) !! request_id = None) /\
      (snd (on_failure request_id e st) = Some x ->
       pending_requests (fst (on_failure request_id e st)) !! request_id = None)) /\
  (forall client_id request_id st h,
      cleans_up client_id st ->
      pending_requests st !! request_id = Some h ->
      futures st !! h = Some Waiting ->
      pending_requests (on_disconnect client_id st) !! request_id = None /\
      futures (on_disconnect client_id st) !! h = Some Cancelled) /\
  (forall client_id st vault_id,
      dict_get client_id (client_to_vault st) = Some vault_id ->
      PyKey.key_of vault_id = None ->
      pending_requests (on_disconnect client_id st) = pending_requests st /\
      futures (on_disconnect client_id st) = futures st) /\
  let st := run (init EmptyString) two_vaults in
  let st' := step st (Disconnect "A") in
  Reachable EmptyString st /\ enabled st (Disconnect "A") /\
  cleans_up "A" st /\
  owner st "r1" = Some "B"%string /\
  pending_requests st !! "r1"%string = Some 0 /\
  futures st !! 0 = Some Waiting /\
  pending_requests st' !! "r1"%string = None /\
  futures st' !! 0 = Some Cancelled /\
  owner st' "r1" = Some "B"%string /\
  "B"%string ∈ clients st' /\
  on_wake "r1" st' = (finish_request "r1" st', Some CancelledExit).
Proof.
  split; [|split; [|split; [|split; [|split]]]].
  - intros token st request_id. apply in_flight_has_entry.
  - intros client_id request_id kind message st h Ht Hk Hid Hne Hp Hf.
    exact (response_resolves_once client_id request_id kind message st h Ht Hk Hid Hne Hp Hf).
  - intros request_id st e x. apply exit_removes_entry.
  - intros client_id request_id st h. apply disconnect_cancels_every_waiting_request.
  - intros client_id st vault_id. apply disconnect_without_clean_up.
  - intros st st'. split; [exact two_vaults_reachable|].
    split; [unfold enabled; by_compute|].
    split; [intros v Hv; vm_compute in Hv; injection Hv as <-; discriminate|].
    repeat split; by_compute.
Qed.

(** The run with two vaults, through the general statements: [r1] is in
    flight and has its entry, and the disconnection of [A] cancels it. *)
Lemma disconnect_cancels_other_clients_requests_witness :
  let st := run (init EmptyString) two_vaults in
  pending_requests st !! "r1"%string = Some 0 /\
  futures st !! 0 = Some Waiting /\
  pending_requests (on_disconnect "A" st) !! "r1"%string = None /\
  futures (on_disconnect "A" st) !! 0 = Some Cancelled.
Proof.
  intros st.
  assert (Hp : pending_requests st !! "r1"%string = Some 0) by by_compute.
  assert (Hf : futures st !! 0 = Some Waiting) by by_compute.
  assert (Hc : cleans_up "A" st).
  { intros v Hv. vm_compute in Hv. injection Hv as <-. discriminate. }
  split; [exact Hp|]. split; [exact Hf|].
  exact (proj1 (proj2 (proj2 (proj2 disconnect_cancels_other_clients_requests)))
           "A"%string "r1"%string st 0 Hc Hp Hf).
Defined.

End HubScenario.

(** ** Helpers of [utils.py] and [sync.py] *)
Section UtilsFacts.
Import Utils.

(** *** [chunk_list] *)

Lemma range_from_done fuel start stop step :
  stop <= start -> range_from fuel start stop step = [].
Proof.
  intros H. destruct fuel as [|fuel]; [reflexivity|]. simpl.
  destruct (Nat.ltb_spec start stop); [lia | reflexivity].
Qed.

Lemma range_from_bound fuel start stop step j :
  In j (range_from fuel start stop step) -> start <= j < stop.
Proof.
  revert start. induction fuel as [|fuel IH]; intros start; simpl; [tauto|].
  destruct (Nat.ltb_spec start stop) as [Hlt|Hge]; simpl; [|tauto].
  intros [<- | Hin]; [lia|]. apply IH in Hin. lia.
Qed.

Lemma slice_chunk {A} (items : list A) (i k : nat) :
  slice items i (Z.of_nat i + Z.of_nat k) = firstn k (skipn i items).
Proof.
  unfold slice. destruct (Z.ltb_spec (Z.of_nat i + Z.of_nat k) 0) as [H|H]; [lia|].
  f_equal. lia.
Qed.

(** The chunks from position [start] on. *)
Lemma chunks_from {A} (items : list A) (k : nat) :
  0 < k ->
  forall fuel start,
    start <= List.length items -> List.length items - start <= fuel ->
    let chunks :=
      List.map (fun i => firstn k (skipn i items))
               (range_from fuel start (List.length items) k) in
    concat chunks = skipn start items /\
    Forall (fun c => 0 < List.length c <= k) chunks /\
    Forall (fun c => List.length c = k) (removelast chunks) /\
    List.length chunks = (List.length items - start + k - 1) / k.
Proof.
  intros Hk. induction fuel as [|fuel IH]; intros start Hs Hf.
  - assert (start = List.length items) as -> by lia. simpl.
    rewrite skipn_all. repeat split; auto.
    replace (List.length items - List.length items + k - 1) with (k - 1) by lia.
    symmetry. apply Nat.div_small. lia.
  - cbn zeta. simpl range_from.
    destruct (Nat.ltb_spec start (List.length items)) as [Hlt|Hge].
    + destruct (Nat.le_gt_cases (start + k) (List.length items)) as [Hfit|Hlast].
      * destruct (IH (start + k) Hfit ltac:(lia)) as (Hc & Hl & Hfull & Hn).
        cbn zeta in Hc, Hl, Hfull, Hn. simpl map. simpl concat.
        assert (Hlen : List.length (firstn k (skipn start items)) = k).
        { rewrite length_firstn, length_skipn. lia. }
        repeat split.
        -- rewrite Hc. rewrite (Nat.add_comm start k), <- skipn_skipn.
           apply firstn_skipn.
        -- constructor; [lia | exact Hl].
        -- destruct (List.map _ (range_from fuel (start + k) _ k)) as [|c cs] eqn:E.
           ++ constructor.
           ++ change (removelast (?a :: c :: cs)) with (a :: removelast (c :: cs)).
              constructor; [exact Hlen | exact Hfull].
        -- simpl List.length. rewrite Hn.
           replace (List.length items - start + k - 1)
             with (List.length items - (start + k) + k - 1 + 1 * k) by lia.
           rewrite Nat.div_add by lia. lia.
      * rewrite (range_from_done fuel (start + k)) by lia. simpl.
        assert (Hlen : List.length (firstn k (skipn start items))
                       = List.length items - start).
        { rewrite length_firstn, length_skipn. lia. }
        repeat split.
        -- rewrite app_nil_r. apply firstn_all2. rewrite length_skipn. lia.
        -- constructor; [lia | constructor].
        -- constructor.
        -- apply Nat.div_unique with (r := List.length items - start - 1); lia.
    + assert (start = List.length items) as -> by lia. simpl.
      rewrite skipn_all. repeat split; auto.
      replace (List.length items - List.length items + k - 1) with (k - 1) by lia.
      symmetry. apply Nat.div_small. lia.
Qed.

(** X1. With a positive chunk size the chunks, put end to end, are the list
    again; no chunk is empty or longer than the chunk size, every chunk
    but the last is full, and there are [ceil(len / size)] of them. *)
Theorem chunk_list_partition {A} (items : list A) (chunk_size : Z) :
  (0 < chunk_size)%Z ->
  exists chunks,
    chunk_list items chunk_size = Ok chunks /\
    concat chunks = items /\
    Forall (fun c => 0 < List.length c /\ (Z.of_nat (List.length c) <= chunk_size)%Z) chunks /\
    Forall (fun c => Z.of_nat (List.length c) = chunk_size) (removelast chunks) /\
    Z.of_nat (List.length chunks)
    = ((Z.of_nat (List.length items) + chunk_size - 1) / chunk_size)%Z.
Proof.
  intros Hk. unfold chunk_list, range_0.
  destruct (Z.eqb_spec chunk_size 0) as [?|_]; [lia|].
  destruct (Z.ltb_spec chunk_size 0) as [?|_]; [lia|]. simpl res_bind.
  eexists. split; [reflexivity|].
  set (k := Z.to_nat chunk_size).
  assert (Ek : chunk_size = Z.of_nat k) by (unfold k; lia).
  assert (Hk' : 0 < k) by lia.
  rewrite (map_ext _ (fun i => firstn k (skipn i items)))
    by (intros i; rewrite Ek; apply slice_chunk).
  destruct (chunks_from items k Hk' (List.length items) 0 ltac:(lia) ltac:(lia))
    as (Hc & Hl & Hfull & Hn). cbn zeta in Hc, Hl, Hfull, Hn.
  repeat split.
  - exact Hc.
  - eapply Forall_impl; [exact Hl|]. simpl. intros c Hc'. lia.
  - eapply Forall_impl; [exact Hfull|]. simpl. intros c Hc'. lia.
  - rewrite Hn, Ek. rewrite Nat.sub_0_r.
    rewrite Nat2Z.inj_div. f_equal. lia.
Qed.

Lemma chunk_list_partition_witness :
  exists chunks,
    chunk_list [1; 2; 3; 4; 5] 2 = Ok chunks /\
    concat chunks = [1; 2; 3; 4; 5] /\
    Forall (fun c => 0 < List.length c /\ (Z.of_nat (List.length c) <= 2)%Z) chunks /\
    Forall (fun c => Z.of_nat (List.length c) = 2%Z) (removelast chunks) /\
    Z.of_nat (List.length chunks) = ((Z.of_nat 5 + 2 - 1) / 2)%Z.
Proof. apply (chunk_list_partition [1; 2; 3; 4; 5] 2). lia. Defined.

(** X2. A chunk size of zero raises [ValueError]; a negative one raises
    nothing and yields no chunk at all, whatever the list holds. *)
Theorem chunk_list_without_positive_size {A} (items : list A) (chunk_size : Z) :
  (chunk_size <= 0)%Z ->
  chunk_list items chunk_size
  = if (chunk_size =? 0)%Z
    then Raise (ValueError "range() arg 3 must not be zero")
    else Ok [].
Proof.
  intros H. unfold chunk_list, range_0.
  destruct (Z.eqb_spec chunk_size 0); [reflexivity|].
  destruct (Z.ltb_spec chunk_size 0); [reflexivity | lia].
Qed.

Lemma chunk_list_without_positive_size_witness :
  chunk_list [1; 2; 3] (-2) = Ok [].
Proof. apply (chunk_list_without_positive_size [1; 2; 3] (-2)). lia. Defined.

(** *** [sanitize_property_name] *)

Lemma all_chars_app p (a b : string) :
  Py.all_chars p (a +:+ b) = Py.all_chars p a && Py.all_chars p b.
Proof.
  induction a as [|c a IH]; simpl; [reflexivity|].
  rewrite IH. now rewrite andb_assoc.
Qed.

Lemma replace_invalid_word name :
  Py.all_chars is_word_char (replace_invalid name) = true.
Proof.
  induction name as [|c r IH]; simpl; [reflexivity|]. rewrite IH.
  destruct (is_word_char c) eqn:E; [now rewrite E | reflexivity].
Qed.

Lemma squeeze_all_chars p s :
  Py.all_chars p s = true -> Py.all_chars p (squeeze_underscores s) = true.
Proof.
  induction s as [|c r IH]; simpl; [auto|].
  intros H. apply andb_true_iff in H as [Hc Hr].
  destruct (Ascii.eqb c "_" && Py.startswith r "_"); simpl; [auto|].
  now rewrite Hc, IH.
Qed.

Lemma lstrip_by_all_chars p q s :
  Py.all_chars p s = true -> Py.all_chars p (lstrip_by q s) = true.
Proof.
  induction s as [|c r IH]; simpl; [auto|]. intros H.
  destruct (q c); [|exact H]. apply andb_true_iff in H as [_ Hr]. auto.
Qed.

Lemma rstrip_by_all_chars p q s :
  Py.all_chars p s = true -> Py.all_chars p (Py.rstrip_by q s) = true.
Proof.
  induction s as [|c r IH]; simpl; [auto|]. intros H.
  apply andb_true_iff in H as [Hc Hr].
  destruct (q c && Py.is_empty (Py.rstrip_by q r)); simpl; [reflexivity|].
  now rewrite Hc, IH.
Qed.

Lemma lstrip_by_first p s c :
  Py.first_char (lstrip_by p s) = Some c -> p c = false.
Proof.
  induction s as [|x r IH]; simpl; [discriminate|].
  destruct (p x) eqn:E; [exact IH|]. simpl. now intros [= <-].
Qed.

Lemma rstrip_by_first p s c :
  Py.first_char (Py.rstrip_by p s) = Some c -> Py.first_char s = Some c.
Proof.
  destruct s as [|x r]; simpl; [discriminate|].
  destruct (p x && Py.is_empty (Py.rstrip_by p r)); simpl; [discriminate | auto].
Qed.

Lemma rstrip_by_last p s c :
  Py.last_char (Py.rstrip_by p s) = Some c -> p c = false.
Proof.
  induction s as [|x r IH]; simpl; [discriminate|].
  destruct (Py.rstrip_by p r) as [|y r'] eqn:E; simpl.
  - rewrite andb_true_r. destruct (p x) eqn:Ex; simpl; [discriminate|].
    now intros [= <-].
  - rewrite andb_false_r. simpl. exact IH.
Qed.

Lemma startswith_underscore s : Py.startswith s "_" = underscore_first s.
Proof.
  destruct s as [|d r]; [reflexivity|].
  unfold Py.startswith, underscore_first.
  change (String.prefix "_" (String d r))
    with (if ascii_dec "_" d then String.prefix EmptyString r else false).
  change (Py.first_char (String d r)) with (Some d).
  destruct (ascii_dec "_" d) as [<-|Hd].
  - now destruct r.
  - symmetry. apply Ascii.eqb_neq. congruence.
Qed.

Lemma squeeze_cons c r :
  squeeze_underscores (String c r)
  = if Ascii.eqb c "_" && underscore_first r then squeeze_underscores r
    else String c (squeeze_underscores r).
Proof. simpl. now rewrite startswith_underscore. Qed.

Lemma squeeze_first s :
  Py.first_char (squeeze_underscores s) = Py.first_char s.
Proof.
  induction s as [|c r IH]; [reflexivity|]. rewrite squeeze_cons.
  destruct (Ascii.eqb_spec c "_") as [->|Hc]; [|reflexivity].
  unfold underscore_first. simpl andb.
  destruct (Py.first_char r) as [d|] eqn:E; [|reflexivity].
  destruct (Ascii.eqb_spec d "_") as [->|Hd]; [|reflexivity].
  rewrite IH. reflexivity.
Qed.

(** Whether a string begins with two underscores, by its first two
    characters. *)
Lemma double_prefix c s :
  String.prefix "__" (String c s) = Ascii.eqb c "_" && underscore_first s.
Proof.
  rewrite <- startswith_underscore. unfold Py.startswith.
  change (String.prefix "__" (String c s))
    with (if ascii_dec "_" c then String.prefix "_" s else false).
  destruct (ascii_dec "_" c) as [<-|Hc]; [reflexivity|].
  symmetry. apply andb_false_iff. left. apply Ascii.eqb_neq. congruence.
Qed.

Lemma contains_cons sub c s :
  Py.contains sub (String c s) = String.prefix sub (String c s) || Py.contains sub s.
Proof. reflexivity. Qed.

Lemma squeeze_no_double s :
  Py.contains "__" (squeeze_underscores s) = false.
Proof.
  induction s as [|c r IH]; [reflexivity|]. rewrite squeeze_cons.
  destruct (Ascii.eqb c "_" && underscore_first r) eqn:E; [exact IH|].
  rewrite contains_cons, IH, orb_false_r, double_prefix.
  unfold underscore_first in *. rewrite squeeze_first. exact E.
Qed.

Lemma lstrip_by_contains sub p s :
  Py.contains sub (lstrip_by p s) = true -> Py.contains sub s = true.
Proof.
  induction s as [|c r IH]; [auto|]. simpl lstrip_by.
  destruct (p c); [|auto]. intros H.
  rewrite contains_cons, (IH H). apply orb_true_r.
Qed.

Lemma rstrip_by_prefix sub p s :
  String.prefix sub (Py.rstrip_by p s) = true -> String.prefix sub s = true.
Proof.
  revert sub. induction s as [|c r IH]; intros sub; [auto|].
  simpl Py.rstrip_by.
  destruct (p c && Py.is_empty (Py.rstrip_by p r)).
  - destruct sub; [reflexivity | discriminate].
  - destruct sub as [|x sub]; [reflexivity|]. simpl.
    destruct (ascii_dec x c); [apply IH | auto].
Qed.

Lemma rstrip_by_contains sub p s :
  sub <> EmptyString ->
  Py.contains sub (Py.rstrip_by p s) = true -> Py.contains sub s = true.
Proof.
  intros Hsub. induction s as [|c r IH]; [auto|].
  rewrite contains_cons. intros H.
  destruct (String.prefix sub (String c r)) eqn:Ep; [reflexivity|]. simpl.
  apply IH.
  assert (Hp := rstrip_by_prefix sub p (String c r)).
  simpl Py.rstrip_by in H, Hp.
  destruct (p c && Py.is_empty (Py.rstrip_by p r)) eqn:E.
  - destruct sub; [congruence | discriminate H].
  - rewrite contains_cons in H.
    apply orb_true_iff in H as [H|H]; [|exact H].
    apply Hp in H. congruence.
Qed.

(** X3. Whatever the name, the sanitized name is not empty, is made of
    letters, digits and underscores only, neither begins nor ends with an
    underscore and has no two underscores in a row. *)
Theorem sanitize_property_name_shape (name : string) :
  let s := sanitize_property_name name in
  Py.is_empty s = false /\
  Py.all_chars is_word_char s = true /\
  Py.first_char s <> Some "_"%char /\
  Py.last_char s <> Some "_"%char /\
  Py.contains "__" s = false.
Proof.
  unfold sanitize_property_name.
  set (s0 := replace_invalid name).
  set (s1 := match s0 with
             | String c _ => if Py.isdigit_char c then "prop_" +:+ s0 else s0
             | EmptyString => s0
             end).
  assert (H1 : Py.all_chars is_word_char s1 = true).
  { assert (H0 := replace_invalid_word name). fold s0 in H0. unfold s1.
    destruct s0 as [|c r]; [exact H0|].
    destruct (Py.isdigit_char c); [|exact H0].
    rewrite all_chars_app, H0. reflexivity. }
  set (s3 := strip_char "_" (squeeze_underscores s1)).
  assert (H3 : Py.all_chars is_word_char s3 = true).
  { apply rstrip_by_all_chars, lstrip_by_all_chars, squeeze_all_chars, H1. }
  assert (Hf : Py.first_char s3 <> Some "_"%char).
  { intros H. apply rstrip_by_first, lstrip_by_first in H. discriminate H. }
  assert (Hl : Py.last_char s3 <> Some "_"%char).
  { intros H. apply rstrip_by_last in H. discriminate H. }
  assert (Hd : Py.contains "__" s3 = false).
  { destruct (Py.contains "__" s3) eqn:E; [|reflexivity].
    apply rstrip_by_contains in E; [|discriminate].
    apply lstrip_by_contains in E. now rewrite squeeze_no_double in E. }
  cbn zeta. destruct (Py.is_empty s3) eqn:E.
  - repeat split; try reflexivity; discriminate.
  - repeat split; assumption.
Qed.

Lemma letter_not_digit c : is_letter c = true -> Py.isdigit_char c = false.
Proof.
  unfold is_letter, Py.isdigit_char, Py.between. intros H.
  repeat match goal with
         | |- context [?a <=? ?b] => destruct (Nat.leb_spec a b)
         | H : context [?a <=? ?b] |- _ => destruct (Nat.leb_spec a b)
         | |- context [?a =? ?b] => destruct (Nat.eqb_spec a b)
         end; simpl in *; try reflexivity; try discriminate; lia.
Qed.

Lemma letter_not_underscore c : is_letter c = true -> Ascii.eqb c "_" = false.
Proof.
  intros H. apply Ascii.eqb_neq. intros ->. discriminate H.
Qed.

Lemma decimal_is_digit c : Py.is_decimal c = true -> Py.isdigit_char c = true.
Proof. unfold Py.is_decimal, Py.isdigit_char. intros ->. reflexivity. Qed.

Lemma decimal_not_underscore c : Py.is_decimal c = true -> Ascii.eqb c "_" = false.
Proof.
  intros H. apply Ascii.eqb_neq. intros ->. discriminate H.
Qed.

Lemma lstrip_by_keep p c r :
  p c = false -> lstrip_by p (String c r) = String c r.
Proof. intros H. simpl. now rewrite H. Qed.

Lemma rstrip_by_keep p c r :
  p c = false -> Py.rstrip_by p (String c r) = String c (Py.rstrip_by p r).
Proof. intros H. simpl. now rewrite H. Qed.

(** What [strip('_')] and the last test leave of a string that begins with
    a character other than the underscore. *)
Lemma sanitize_tail_first c r :
  Ascii.eqb c "_" = false ->
  let s := strip_char "_" (squeeze_underscores (String c r)) in
  Py.first_char (if Py.is_empty s then "property"%string else s) = Some c.
Proof.
  intros Hc. rewrite squeeze_cons, Hc. simpl andb. cbv iota.
  assert (Hc' : Ascii.eqb "_" c = false) by (rewrite Ascii.eqb_sym; exact Hc).
  unfold strip_char. rewrite lstrip_by_keep, rstrip_by_keep by exact Hc'.
  reflexivity.
Qed.

(** X4. A name that begins with a letter keeps it, and a name that begins
    with a decimal digit gets the prefix [prop]: either way the sanitized
    name begins with a letter. *)
Theorem sanitize_begins_with_letter (name : string) (c : ascii) :
  Py.first_char name = Some c ->
  is_letter c || Py.is_decimal c = true ->
  Py.first_char (sanitize_property_name name)
  = Some (if is_letter c then c else "p"%char).
Proof.
  intros Hf Hc. destruct name as [|x r]; [discriminate|].
  injection Hf as ->. unfold sanitize_property_name. simpl replace_invalid.
  assert (Hw : is_word_char c = true).
  { unfold is_word_char. apply orb_true_iff in Hc as [-> | ->]; [reflexivity|].
    now rewrite orb_true_r. }
  rewrite Hw. destruct (is_letter c) eqn:El.
  - rewrite (letter_not_digit c El).
    apply sanitize_tail_first, letter_not_underscore, El.
  - simpl in Hc. rewrite (decimal_is_digit c Hc).
    apply (sanitize_tail_first "p"). reflexivity.
Qed.

Lemma sanitize_begins_with_letter_witness :
  Py.first_char (sanitize_property_name "2nd place") = Some "p"%char.
Proof.
  apply (sanitize_begins_with_letter "2nd place" "2"); reflexivity.
Defined.

(** X5. The guard against a leading digit looks at the first character
    only: when the name begins with a character that is neither a letter
    nor a decimal digit and a decimal digit follows, the sanitized name
    begins with that digit. *)
Theorem sanitize_leading_digit_survives (c d : ascii) (rest : string) :
  is_letter c = false -> Py.is_decimal c = false ->
  Py.is_decimal d = true ->
  Py.first_char (sanitize_property_name (String c (String d rest))) = Some d.
Proof.
  intros Hl Hn Hd. unfold sanitize_property_name. simpl replace_invalid.
  assert (Hw : is_word_char d = true).
  { unfold is_word_char. now rewrite Hd, orb_true_r. }
  rewrite Hw.
  assert (Hu : (if is_word_char c then c else "_"%char) = "_"%char).
  { unfold is_word_char. rewrite Hl, Hn. simpl.
    destruct (Ascii.eqb_spec c "_"); [assumption | reflexivity]. }
  rewrite Hu. change (Py.isdigit_char "_") with false. cbv iota.
  assert (Hdu := decimal_not_underscore d Hd).
  rewrite (squeeze_cons "_").
  change (underscore_first (String d ?x)) with (Ascii.eqb d "_").
  rewrite Hdu, andb_false_r, (squeeze_cons d), Hdu. simpl andb. cbv iota.
  assert (Hd' : Ascii.eqb "_" d = false) by (rewrite Ascii.eqb_sym; exact Hdu).
  unfold strip_char.
  change (lstrip_by (Ascii.eqb "_") (String "_" ?x))
    with (lstrip_by (Ascii.eqb "_") x).
  rewrite lstrip_by_keep, rstrip_by_keep by exact Hd'.
  reflexivity.
Qed.

Lemma sanitize_leading_digit_survives_witness :
  Py.first_char (sanitize_property_name "#1 hit") = Some "1"%char.
Proof.
  apply (sanitize_leading_digit_survives "#" "1" " hit"); reflexivity.
Defined.

(** *** [_get_ollama_base_url] *)

Lemma str_app_assoc (a b c : string) : (a +:+ b) +:+ c = a +:+ (b +:+ c).
Proof. induction a as [|x a IH]; simpl; [reflexivity | now rewrite IH]. Qed.

Lemma endswith_app (a b : string) : endswith (a +:+ b) b = true.
Proof.
  induction a as [|c a IH].
  - destruct b; cbn [endswith append]; now rewrite String.eqb_refl.
  - cbn [endswith append]. rewrite IH. apply orb_true_r.
Qed.

Lemma endswith_split (s suffix : string) :
  endswith s suffix = true -> exists pre, s = pre +:+ suffix.
Proof.
  induction s as [|c r IH]; cbn [endswith].
  - rewrite orb_false_r. intros H. apply String.eqb_eq in H as <-.
    now exists EmptyString.
  - intros H. apply orb_true_iff in H as [H|H].
    + apply String.eqb_eq in H as <-. now exists EmptyString.
    + destruct (IH H) as [pre ->]. now exists (String c pre).
Qed.

(** Stripping on the right does not reach past a suffix it leaves
    something of. *)
Lemma rstrip_by_app p (a b : string) :
  Py.is_empty (Py.rstrip_by p b) = false ->
  Py.rstrip_by p (a +:+ b) = a +:+ Py.rstrip_by p b.
Proof.
  intros H. induction a as [|c a IH]; [reflexivity|].
  simpl. rewrite IH.
  destruct (Py.rstrip_by p b); [discriminate H|].
  destruct a; simpl; now rewrite andb_false_r.
Qed.

Lemma nonempty_app (a b : string) :
  Py.is_empty b = false -> Config.nonempty (Some (a +:+ b)) = Some (a +:+ b).
Proof.
  intros H. unfold Config.nonempty.
  destruct a; simpl; [|reflexivity]. now rewrite H.
Qed.

(** A URL that ends in [/v1] is left as it is. *)
Lemma ollama_fixed (pre : string) :
  _get_ollama_base_url (Some (pre +:+ "/v1")) = pre +:+ "/v1".
Proof.
  unfold _get_ollama_base_url. rewrite nonempty_app by reflexivity.
  rewrite endswith_app. simpl negb. cbv iota.
  unfold Py.rstrip_char. now rewrite rstrip_by_app.
Qed.

Lemma ollama_form (url : option string) :
  exists pre, _get_ollama_base_url url = pre +:+ "/v1".
Proof.
  unfold _get_ollama_base_url. destruct (Config.nonempty url) as [u|].
  - destruct (endswith u "/v1") eqn:E1; simpl.
    + apply endswith_split in E1 as [pre ->]. exists pre.
      unfold Py.rstrip_char. now rewrite rstrip_by_app.
    + destruct (endswith u "/v1/") eqn:E2; simpl.
      * apply endswith_split in E2 as [pre ->]. exists pre.
        unfold Py.rstrip_char. now rewrite rstrip_by_app.
      * now exists (Py.rstrip_char "/" u).
  - now exists "http://localhost:11434"%string.
Qed.

(** X6. Whatever is configured, the Ollama base URL that is used ends in
    [/v1], and normalizing it once more changes nothing. *)
Theorem ollama_base_url_normalized (url : option string) :
  let base := _get_ollama_base_url url in
  endswith base "/v1" = true /\ _get_ollama_base_url (Some base) = base.
Proof.
  cbn zeta. destruct (ollama_form url) as [pre ->]. split.
  - apply endswith_app.
  - apply ollama_fixed.
Qed.

End UtilsFacts.

(** ** The vault registry of the hub *)
Section RegistryFacts.
Import Hub HubApi.

(** *** Dictionaries as association lists *)

Lemma has_key_set {V} (k k' : string) (v : V) (d : list (string * V)) :
  has_key k (dict_set k' v d) = String.eqb k' k || has_key k d.
Proof.
  unfold has_key. induction d as [|[x y] d IH]; simpl.
  - destruct (String.eqb k' k); reflexivity.
  - destruct (String.eqb_spec x k') as [->|Hx]; simpl.
    + destruct (String.eqb k' k); reflexivity.
    + destruct (String.eqb_spec x k) as [->|Hk].
      * now rewrite orb_true_r.
      * exact IH.
Qed.

Lemma has_key_del {V} (k k' : string) (d : list (string * V)) :
  has_key k (dict_del k' d) = true -> has_key k d = true.
Proof.
  unfold has_key. induction d as [|[x y] d IH]; simpl; [auto|].
  destruct (String.eqb x k'); simpl.
  - intros H. destruct (String.eqb x k); [reflexivity | exact H].
  - destruct (String.eqb x k); [reflexivity | exact IH].
Qed.

Lemma has_key_in {V} (k : string) (d : list (string * V)) :
  has_key k d = true <-> k ∈ List.map fst d.
Proof.
  unfold has_key. induction d as [|[x y] d IH]; simpl.
  - split; [discriminate | intros H; inversion H].
  - rewrite elem_of_cons. destruct (String.eqb_spec x k) as [->|Hx].
    + split; auto.
    + rewrite IH. split; [auto | intros [?|?]; [congruence | assumption]].
Qed.

Lemma has_key_del_eq {V} (k : string) (d : list (string * V)) :
  NoDup (List.map fst d) -> has_key k (dict_del k d) = false.
Proof.
  induction d as [|[x y] d IH]; simpl; [reflexivity|]. intros Hn.
  apply NoDup_cons in Hn as [Hx Hn].
  destruct (String.eqb_spec x k) as [->|Hne].
  - destruct (has_key k d) eqn:E; [|reflexivity].
    apply has_key_in in E. contradiction.
  - unfold has_key in *. simpl.
    destruct (String.eqb_spec x k); [congruence | now apply IH].
Qed.

Lemma keys_set {V} (k k' : string) (v : V) (d : list (string * V)) :
  k ∈ List.map fst (dict_set k' v d) -> k = k' \/ k ∈ List.map fst d.
Proof.
  intros H. apply has_key_in in H. rewrite has_key_set in H.
  apply orb_true_iff in H as [H|H].
  - left. symmetry. now apply String.eqb_eq.
  - right. now apply has_key_in.
Qed.

Lemma nodup_set {V} (k : string) (v : V) (d : list (string * V)) :
  NoDup (List.map fst d) -> NoDup (List.map fst (dict_set k v d)).
Proof.
  induction d as [|[x y] d IH]; simpl; intros Hn.
  - apply NoDup_singleton.
  - apply NoDup_cons in Hn as [Hx Hn].
    destruct (String.eqb_spec x k) as [->|Hne]; simpl.
    + now apply NoDup_cons.
    + apply NoDup_cons. split; [|now apply IH].
      intros Hin. apply keys_set in Hin as [?|?]; [congruence | contradiction].
Qed.

Lemma nodup_del {V} (k : string) (d : list (string * V)) :
  NoDup (List.map fst d) -> NoDup (List.map fst (dict_del k d)).
Proof.
  induction d as [|[x y] d IH]; simpl; intros Hn; [apply NoDup_nil_2|].
  apply NoDup_cons in Hn as [Hx Hn].
  destruct (String.eqb x k); simpl; [exact Hn|].
  apply NoDup_cons. split; [|now apply IH].
  intros Hin. apply has_key_in, has_key_del, has_key_in in Hin. contradiction.
Qed.

Lemma dict_get_del_ne {V} (k k' : string) (d : list (string * V)) :
  k <> k' -> dict_get k (dict_del k' d) = dict_get k d.
Proof.
  intros Hne. induction d as [|[x y] d IH]; simpl; [reflexivity|].
  destruct (String.eqb_spec x k') as [->|Hx]; simpl.
  - destruct (String.eqb_spec k' k); [congruence | reflexivity].
  - destruct (String.eqb x k); [reflexivity | exact IH].
Qed.

(** *** Keys *)

Lemma triple_eqb_eq (a b : Z * Z * Z) : PyKey.triple_eqb a b = true <-> a = b.
Proof.
  destruct a as [[x y] z], b as [[x' y'] z']. unfold PyKey.triple_eqb.
  rewrite !andb_true_iff, !Z.eqb_eq. split.
  - intros [[-> ->] ->]. reflexivity.
  - intros [= -> -> ->]. auto.
Qed.

Lemma quad_eqb_eq (a b : Z * Z * Z * Z) : PyKey.quad_eqb a b = true <-> a = b.
Proof.
  destruct a as [[[w x] y] z], b as [[[w' x'] y'] z']. unfold PyKey.quad_eqb.
  rewrite !andb_true_iff, !Z.eqb_eq. split.
  - intros [[[-> ->] ->] ->]. reflexivity.
  - intros [= -> -> -> ->]. auto.
Qed.

(** The test of a lookup is the equality of keys. *)
Lemma key_eqb_eq (a b : PyKey.Key) : PyKey.key_eqb a b = true <-> a = b.
Proof.
  destruct a, b; cbn [PyKey.key_eqb];
    try (split; [discriminate | intros H; discriminate H]);
    try (split; reflexivity).
  - rewrite Z.eqb_eq. split; [now intros -> | now intros [= ->]].
  - rewrite !andb_true_iff, Pos.eqb_eq, Z.eqb_eq, Bool.eqb_true_iff. split.
    + intros [[-> ->] ->]. reflexivity.
    + intros [= -> -> ->]. auto.
  - rewrite Bool.eqb_true_iff. split; [now intros -> | now intros [= ->]].
  - rewrite String.eqb_eq. split; [now intros -> | now intros [= ->]].
  - rewrite triple_eqb_eq. split; [now intros [= -> -> ->] | now intros [= -> -> ->]].
  - rewrite andb_true_iff, triple_eqb_eq, quad_eqb_eq. split.
    + intros [-> ->]. reflexivity.
    + intros [= -> ->]. auto.
  - rewrite Z.eqb_eq. split; [now intros -> | now intros [= ->]].
Qed.

Lemma key_eqb_refl (k : PyKey.Key) : PyKey.key_eqb k k = true.
Proof. now apply key_eqb_eq. Qed.

Lemma key_eqb_neq (a b : PyKey.Key) : PyKey.key_eqb a b = false <-> a <> b.
Proof.
  destruct (PyKey.key_eqb a b) eqn:E.
  - apply key_eqb_eq in E. split; [discriminate | congruence].
  - split; [|reflexivity]. intros _ H. apply key_eqb_eq in H. congruence.
Qed.

Lemma holds_iff (k : PyKey.Key) (x : PyVal) :
  PyKey.holds k x = true <-> PyKey.key_of x = Some k.
Proof.
  unfold PyKey.holds. destruct (PyKey.key_of x) as [k'|].
  - rewrite key_eqb_eq. split; [now intros -> | now intros [= ->]].
  - split; discriminate.
Qed.

(** [==] on a value that is not NaN is the equality of keys. *)
Lemma equals_iff (k : PyKey.Key) (b : PyVal) :
  PyKey.equals k b = true <-> k <> PyKey.KNaN /\ PyKey.key_of b = Some k.
Proof.
  unfold PyKey.equals.
  destruct (PyKey.key_of b) as [k'|].
  - destruct k; rewrite ?key_eqb_eq;
      try (split; [intros <-; split; [discriminate | reflexivity]
                  | intros [_ [= <-]]; reflexivity]).
    split; [discriminate | intros [H _]; congruence].
  - destruct k; split; try discriminate; intros [_ H]; discriminate H.
Qed.

Lemma odd_part_pos (m : positive) (e : Z) :
  (0 < Zpos (fst (PyKey.odd_part m e)))%Z.
Proof. lia. Qed.

Lemma float_key_truthy (x : spec_float) :
  key_truthy (PyKey.float_key x) = negb (Binary64.is_zero x).
Proof.
  destruct x as [s|s| |s m e]; try reflexivity. simpl.
  destruct (PyKey.odd_part m e) as [m' e'].
  destruct (Z.leb_spec 0 e') as [He|He]; [|reflexivity]. simpl.
  apply negb_true_iff, Z.eqb_neq.
  assert (0 < 2 ^ e')%Z by (apply Z.pow_pos_nonneg; lia).
  destruct s; nia.
Qed.

(** The truth value of a hashable value is that of its key. *)
Lemma truthy_key (v : PyVal) (k : PyKey.Key) :
  PyKey.key_of v = Some k -> truthy v = key_truthy k.
Proof.
  destruct v as [|b|n|x|s|d|dt|l|d]; simpl; try discriminate; intros [= <-];
    try reflexivity.
  - now destruct b.
  - now rewrite float_key_truthy.
  - now destruct (Time.tzinfo dt).
Qed.

(** A string is the only value with the key of a string. *)
Lemma key_of_string (x : PyVal) (s : string) :
  PyKey.key_of x = Some (PyKey.KStr s) -> x = VStr s.
Proof.
  destruct x as [|b|n|f|t|d|dt|l|d]; simpl; try discriminate.
  - unfold PyKey.float_key. destruct f as [?|?| |? m e]; try discriminate.
    destruct (PyKey.odd_part m e) as [m' e'].
    destruct (0 <=? e')%Z; discriminate.
  - now intros [= ->].
  - destruct (Time.tzinfo dt); discriminate.
Qed.

(** *** Tables with values as keys *)

Lemma key_in_cons {V} (k : PyKey.Key) (x : PyVal) (v : V) (d : list (PyVal * V)) :
  PyKey.key_in k ((x, v) :: d) = PyKey.holds k x || PyKey.key_in k d.
Proof. unfold PyKey.key_in. simpl. now destruct (PyKey.holds k x). Qed.

Lemma key_in_set {V} (k k' : PyKey.Key) (key : PyVal) (v : V) (d : list (PyVal * V)) :
  PyKey.key_of key = Some k ->
  PyKey.key_in k' (PyKey.key_set k key v d) = PyKey.key_eqb k k' || PyKey.key_in k' d.
Proof.
  intros Hk. induction d as [|[x y] d IH].
  - simpl. rewrite key_in_cons. unfold PyKey.holds. now rewrite Hk.
  - simpl. destruct (PyKey.holds k x) eqn:E.
    + rewrite !key_in_cons. apply holds_iff in E.
      unfold PyKey.holds. rewrite E.
      now destruct (PyKey.key_eqb k k').
    + rewrite !key_in_cons, IH.
      destruct (PyKey.holds k' x), (PyKey.key_eqb k k'); reflexivity.
Qed.

Lemma key_in_del_other {V} (k k' : PyKey.Key) (d : list (PyVal * V)) :
  k <> k' -> PyKey.key_in k' (PyKey.key_del k d) = PyKey.key_in k' d.
Proof.
  intros Hne. induction d as [|[x y] d IH]; [reflexivity|].
  simpl. destruct (PyKey.holds k x) eqn:E.
  - rewrite key_in_cons. apply holds_iff in E.
    destruct (PyKey.holds k' x) eqn:E'; [|reflexivity].
    apply holds_iff in E'. congruence.
  - now rewrite !key_in_cons, IH.
Qed.

Lemma key_in_del {V} (k k' : PyKey.Key) (d : list (PyVal * V)) :
  PyKey.key_in k' (PyKey.key_del k d) = true -> PyKey.key_in k' d = true.
Proof.
  induction d as [|[x y] d IH]; [auto|].
  simpl. rewrite key_in_cons. destruct (PyKey.holds k x).
  - intros ->. apply orb_true_r.
  - rewrite key_in_cons. intros H. apply orb_true_iff in H as [H|H].
    + now rewrite H.
    + rewrite (IH H). apply orb_true_r.
Qed.

Lemma key_in_del_same {V} (k : PyKey.Key) (d : list (PyVal * V)) :
  distinct_keys d -> PyKey.key_in k (PyKey.key_del k d) = false.
Proof.
  induction d as [|[x y] d IH]; [reflexivity|]. intros [Hx Hd]. simpl.
  destruct (PyKey.holds k x) eqn:E.
  - apply holds_iff in E. now apply Hx.
  - rewrite key_in_cons, E. now apply IH.
Qed.

Lemma key_in_entry {V} (k : PyKey.Key) (d : list (PyVal * V)) :
  PyKey.key_in k d = true <-> exists x v, In (x, v) d /\ PyKey.key_of x = Some k.
Proof.
  induction d as [|[x y] d IH].
  - split; [discriminate | intros (? & ? & [] & _)].
  - rewrite key_in_cons, orb_true_iff, IH, holds_iff. split.
    + intros [H|(x' & v & Hin & H)].
      * exists x, y. split; [now left | exact H].
      * exists x', v. split; [now right | exact H].
    + intros (x' & v & [Heq|Hin] & Hx).
      * injection Heq as <- <-. now left.
      * right. eauto.
Qed.

Lemma in_key_set {V} (k : PyKey.Key) (key x : PyVal) (v w : V) (d : list (PyVal * V)) :
  In (x, w) (PyKey.key_set k key v d) -> x = key \/ exists w', In (x, w') d.
Proof.
  induction d as [|[x' y] d IH]; simpl.
  - intros [[= <- <-]|[]]. now left.
  - destruct (PyKey.holds k x').
    + intros [[= <- <-]|H]; right; eauto.
    + intros [[= <- <-]|H]; [right; eauto|].
      destruct (IH H) as [->|(w' & Hw)]; [now left | right; eauto].
Qed.

Lemma in_key_del {V} (k : PyKey.Key) (x : PyVal) (w : V) (d : list (PyVal * V)) :
  In (x, w) (PyKey.key_del k d) -> In (x, w) d.
Proof.
  induction d as [|[x' y] d IH]; simpl; [auto|].
  destruct (PyKey.holds k x'); [auto|].
  intros [H|H]; [now left | right; auto].
Qed.

Lemma in_key_del_other {V} (k : PyKey.Key) (x : PyVal) (w : V) (d : list (PyVal * V)) :
  In (x, w) d -> PyKey.holds k x = false -> In (x, w) (PyKey.key_del k d).
Proof.
  induction d as [|[x' y] d IH]; simpl; [auto|].
  intros [[= -> ->]|H] Hk.
  - rewrite Hk. now left.
  - destruct (PyKey.holds k x'); [exact H | right; auto].
Qed.

Lemma distinct_set {V} (k : PyKey.Key) (key : PyVal) (v : V) (d : list (PyVal * V)) :
  PyKey.key_of key = Some k -> distinct_keys d -> distinct_keys (PyKey.key_set k key v d).
Proof.
  intros Hk. induction d as [|[x y] d IH]; simpl.
  - intros _. split; [reflexivity | exact I].
  - intros [Hx Hd]. destruct (PyKey.holds k x) eqn:E; simpl.
    + split; assumption.
    + split; [|now apply IH].
      intros k' Hk'. rewrite (key_in_set k k' key v d Hk), (Hx k' Hk'), orb_false_r.
      apply key_eqb_neq. intros <-.
      assert (PyKey.holds k x = true) by now apply holds_iff.
      congruence.
Qed.

Lemma distinct_del {V} (k : PyKey.Key) (d : list (PyVal * V)) :
  distinct_keys d -> distinct_keys (PyKey.key_del k d).
Proof.
  induction d as [|[x y] d IH]; simpl; [auto|]. intros [Hx Hd].
  destruct (PyKey.holds k x); [exact Hd|]. simpl. split; [|now apply IH].
  intros k' Hk'. destruct (PyKey.key_in k' (PyKey.key_del k d)) eqn:E; [|reflexivity].
  apply key_in_del in E. now rewrite (Hx k' Hk') in E.
Qed.

(** *** What the handlers do to the registry *)

Lemma registry_ok_ext (st st' : State) :
  registry st' = registry st -> registry_ok st -> registry_ok st'.
Proof.
  unfold registry, registry_ok. intros [= -> -> -> -> ->]. auto.
Qed.

Lemma send_registry (client_id : string) (message : Dict) (st : State) :
  registry (send_to_client client_id message st) = registry st.
Proof. unfold send_to_client. now destruct (decide _). Qed.

Lemma cancel_pending_registry (st : State) : registry (cancel_pending st) = registry st.
Proof. reflexivity. Qed.

Lemma resolve_response_registry (message : Dict) (st : State) :
  registry (snd (resolve_response message st)) = registry st.
Proof.
  unfold resolve_response.
  destruct (dict_get "id" message) as [[| | | |rid| | |[|? ?]|[|? ?]]|]; try reflexivity.
  destruct (Py.is_empty rid); [reflexivity|].
  destruct (pending_requests st !! rid); reflexivity.
Qed.

(** The cases of [handle_message]. *)
Lemma handle_message_cases (P : Res unit * State -> Prop)
    (client_id : string) (message : Dict) (st : State) :
  P (register client_id message st) ->
  P (Ok tt, st) ->
  P (resolve_response message st) ->
  P (Ok tt, unknown_type client_id message st) ->
  (forall e, P (Raise e, st)) ->
  P (handle_message client_id message st).
Proof.
  intros Hreg Hpong Hres Hunk Hraise. unfold handle_message.
  set (t := get_or "type" VNone message).
  assert (Hother : P (if truthy t
            then match mentions_response t with
                 | Ok is_response =>
                     if is_response &&
                        match dict_get "id" message with Some _ => true | None => false end
                     then resolve_response message st
                     else (Ok tt, unknown_type client_id message st)
                 | Raise e => (Raise e, st)
                 end
            else (Ok tt, unknown_type client_id message st))).
  { destruct (truthy t); [|exact Hunk].
    destruct (mentions_response t) as [b|e]; [|apply Hraise].
    destruct (b && _); assumption. }
  destruct t as [| | | |s| | | |]; try exact Hother.
  destruct (String.eqb s "register") eqn:E1.
  - apply String.eqb_eq in E1. subst s. exact Hreg.
  - destruct (String.eqb s "pong") eqn:E2.
    + apply String.eqb_eq in E2. subst s. exact Hpong.
    + revert Hother. clear -E1 E2.
      repeat (destruct s as [|[[] [] [] [] [] [] [] []] s]; try exact (fun x => x);
              try discriminate).
Qed.

(** The vault id of a registration is truthy. *)
Lemma vault_id_truthy (client_id : string) (payload : Dict) :
  truthy (vault_id_of client_id payload) = true.
Proof.
  unfold vault_id_of.
  destruct (truthy (get_or "vaultName" (VStr EmptyString) payload)) eqn:E; [exact E|].
  reflexivity.
Qed.

Lemma register_registry_ok (client_id : string) (message : Dict) (st : State) :
  client_id ∈ clients st ->
  registry_ok st -> registry_ok (snd (register client_id message st)).
Proof.
  intros Hc (HK & HA & HN & Hinfo & Hc2v & Ni & Nc & Nv).
  assert (Hinfo' : forall payload c,
            has_key c (dict_set client_id payload (vault_info st)) = true ->
            c ∈ clients st).
  { intros payload c H. rewrite has_key_set in H.
    apply orb_true_iff in H as [H|H]; [|now apply Hinfo].
    apply String.eqb_eq in H. now subst c. }
  assert (Hc2v' : forall v c,
            has_key c (dict_set client_id v (client_to_vault st)) = true ->
            c ∈ clients st).
  { intros v c H. rewrite has_key_set in H.
    apply orb_true_iff in H as [H|H]; [|now apply Hc2v].
    apply String.eqb_eq in H. now subst c. }
  unfold register.
  destruct (get_or "payload" (VDict []) message) as [| | | | | | | |p];
    try (unfold registry_ok; simpl; repeat split; eauto using nodup_set; fail).
  pose proof (vault_id_truthy client_id p) as Ht.
  set (vault_id := vault_id_of client_id p) in *.
  destruct (PyKey.key_of vault_id) as [k|] eqn:Ek.
  - cbn [snd]. apply (registry_ok_ext _ _ (send_registry _ _ _)).
    assert (Hkt : key_truthy k = true) by now rewrite <- (truthy_key _ _ Ek).
    unfold registry_ok, set_vaults.
    cbn [vault_to_client active_vault_id vault_info client_to_vault clients].
    split; [|split; [|split; [|split; [|split; [|split; [|split]]]]]];
      eauto using nodup_set, distinct_set.
    + intros v c Hin. apply in_key_set in Hin as [->|(w & Hin)]; [eauto|].
      now apply (HK v w).
    + right. destruct (truthy (active_vault_id st)) eqn:Ea.
      * destruct HA as [Hn|(ka & Hka & Hkat & Hin)]; [now rewrite Hn in Ea|].
        exists ka. split; [exact Hka|]. split; [exact Hkat|].
        intros Hnan. rewrite (key_in_set k ka vault_id client_id _ Ek), (Hin Hnan).
        apply orb_true_r.
      * exists k. split; [exact Ek|]. split; [exact Hkt|]. intros _.
        now rewrite (key_in_set k k vault_id client_id _ Ek), key_eqb_refl.
    + intros Hn. destruct (truthy (active_vault_id st)) eqn:Ea.
      * now rewrite Hn in Ea.
      * now rewrite Hn in Ht.
  - unfold registry_ok, set_vaults.
    cbn [snd vault_to_client active_vault_id vault_info client_to_vault clients].
    repeat split; eauto using nodup_set.
Qed.

Lemma on_message_registry_ok (client_id : string) (message : Dict) (st : State) :
  client_id ∈ clients st ->
  registry_ok st -> registry_ok (on_message client_id message st).
Proof.
  intros Hc H. unfold on_message.
  assert (Hm : registry_ok (snd (handle_message client_id message st))).
  { apply handle_message_cases.
    - now apply register_registry_ok.
    - exact H.
    - exact (registry_ok_ext _ _ (resolve_response_registry _ _) H).
    - exact (registry_ok_ext _ _ (send_registry _ _ _) H).
    - intros e. exact H. }
  destruct (handle_message client_id message st) as [[[]|e] st']; simpl in Hm.
  - exact Hm.
  - exact (registry_ok_ext _ _ (send_registry _ _ _) Hm).
Qed.

Lemma on_disconnect_registry_ok (client_id : string) (st : State) :
  registry_ok st -> registry_ok (on_disconnect client_id st).
Proof.
  intros (HK & HA & HN & Hinfo & Hc2v & Ni & Nc & Nv).
  assert (Hgone : forall V (d : list (string * V)) c,
            NoDup (List.map fst d) ->
            (forall c, has_key c d = true -> c ∈ clients st) ->
            has_key c (dict_del client_id d) = true ->
            c ∈ clients st ∖ {[client_id]}).
  { intros V d c Hn Hd H. apply elem_of_difference. split.
    - apply Hd. now apply has_key_del in H.
    - intros Hs. apply elem_of_singleton in Hs. subst c.
      now rewrite has_key_del_eq in H. }
  assert (Hstay : forall c, has_key c (client_to_vault st) = true ->
            dict_get client_id (client_to_vault st) = None ->
            c ∈ clients st ∖ {[client_id]}).
  { intros c H E. apply elem_of_difference. split; [now apply Hc2v|].
    intros Hs. apply elem_of_singleton in Hs. subst c.
    unfold has_key in H. now rewrite E in H. }
  unfold on_disconnect.
  destruct (dict_get client_id (client_to_vault st)) as [vault_id|] eqn:E.
  - destruct (PyKey.key_of vault_id) as [k|] eqn:Ek.
    + apply (registry_ok_ext _ _ (cancel_pending_registry _)).
      unfold registry_ok, set_vaults.
      cbn [vault_to_client active_vault_id vault_info client_to_vault clients].
      split; [|split; [|split; [|split; [|split; [|split; [|split]]]]]];
        eauto using nodup_del, distinct_del.
      * intros v c Hin. apply in_key_del in Hin. now apply (HK v c).
      * destruct (PyKey.equals k (active_vault_id st)) eqn:Eq.
        -- destruct (PyKey.key_del k (vault_to_client st)) as [|[first c] rest] eqn:Ed;
             [now left|].
           right. destruct (HK first c) as (kf & Hkf & Hkft).
           { apply (in_key_del k). rewrite Ed. now left. }
           exists kf. split; [exact Hkf|]. split; [exact Hkft|]. intros _.
           rewrite key_in_cons. apply orb_true_iff. left. now apply holds_iff.
        -- destruct HA as [Hn|(ka & Hka & Hkat & Hin)]; [now left|].
           right. exists ka. split; [exact Hka|]. split; [exact Hkat|].
           intros Hnan. rewrite key_in_del_other; [now apply Hin|].
           intros ->. assert (PyKey.equals ka (active_vault_id st) = true)
             by now apply equals_iff.
           congruence.
      * destruct (PyKey.equals k (active_vault_id st)) eqn:Eq.
        -- destruct (PyKey.key_del k (vault_to_client st)) as [|[first c] rest] eqn:Ed;
             [reflexivity|].
           intros ->. destruct (HK VNone c) as (kf & Hkf & Hkft).
           { apply (in_key_del k). rewrite Ed. now left. }
           simpl in Hkf. injection Hkf as <-. discriminate Hkft.
        -- intros Hn. now rewrite (HN Hn).
    + unfold registry_ok, set_vaults.
      cbn [vault_to_client active_vault_id vault_info client_to_vault clients].
      repeat split; eauto using nodup_del.
  - apply (registry_ok_ext _ _ (cancel_pending_registry _)).
    unfold registry_ok.
    cbn [vault_to_client active_vault_id vault_info client_to_vault clients].
    repeat split; eauto using nodup_del.
Qed.

Lemma start_request_registry (request_id : string) (vault_id operation params : PyVal)
    (st st' : State) :
  start_request request_id vault_id operation params st = Ok (Some st') ->
  registry st' = registry st.
Proof.
  unfold start_request, res_bind.
  destruct (find_client vault_id st) as [[client_id|]|]; try discriminate.
  destruct (negb _ && _); [|discriminate].
  intros [= <-]. now rewrite send_registry.
Qed.

Lemma set_active_vault_registry_ok (vault_id : PyVal) (st : State) :
  registry_ok st -> registry_ok (snd (set_active_vault vault_id st)).
Proof.
  intros H. unfold set_active_vault.
  destruct (PyKey.key_of vault_id) as [k|] eqn:Ek; [|exact H].
  destruct (PyKey.key_in k (vault_to_client st)) eqn:E; [|exact H].
  destruct H as (HK & HA & HN & Hinfo & Hc2v & Ni & Nc & Nv).
  assert (Hkt : key_truthy k = true).
  { apply key_in_entry in E as (x & c & Hin & Hx).
    destruct (HK x c Hin) as (k' & Hk' & Ht). congruence. }
  unfold registry_ok. simpl. repeat split; auto.
  - right. exists k. auto.
  - intros ->. simpl in Ek. injection Ek as <-. discriminate Hkt.
Qed.

Lemma api_step_registry_ok (st : State) (op : Op) :
  api_enabled st op -> registry_ok st -> registry_ok (api_step st op).
Proof.
  intros He H. destruct op as [[c|c m|c|r v o p|r|r|r e]|v]; simpl in *.
  - unfold connect. apply (registry_ok_ext _ _ (send_registry _ _ _)).
    destruct H as (HK & HA & HN & Hinfo & Hc2v & Ni & Nc & Nv).
    unfold registry_ok. simpl.
    repeat split; auto; intros c' Hc'; apply elem_of_union; right; auto.
  - now apply on_message_registry_ok.
  - now apply on_disconnect_registry_ok.
  - destruct (start_request r v o p st) as [[st'|]|] eqn:E; try exact H.
    exact (registry_ok_ext _ _ (start_request_registry _ _ _ _ _ _ E) H).
  - unfold on_wake. destruct (calls st !! r) as [c|]; [|exact H].
    destruct (futures st !! call_future c) as [[]|]; exact H.
  - unfold on_timeout. destruct (calls st !! r) as [c|]; [|exact H].
    destruct (futures st !! call_future c) as [[]|]; exact H.
  - unfold on_failure. destruct (calls st !! r) as [c|]; exact H.
  - now apply set_active_vault_registry_ok.
Qed.

Lemma api_run_reachable (token : string) (ops : list Op) :
  forall st, ApiReachable token st -> api_all_enabled st ops ->
             ApiReachable token (api_run st ops).
Proof.
  induction ops as [|op ops IH]; intros st Hr He; [exact Hr|].
  destruct He as [He Hrest]. apply (IH (api_step st op)); [|exact Hrest].
  now apply api_next.
Qed.

Lemma reachable_registry_ok (token : string) (st : State) :
  ApiReachable token st -> registry_ok st.
Proof.
  intros Hr. induction Hr as [|st op _ IH He].
  - unfold registry_ok, init. simpl.
    repeat split; try discriminate; try apply NoDup_nil_2; auto;
      try (intros c Hc; discriminate Hc).
    intros v c [].
  - now apply api_step_registry_ok.
Qed.

Ltac run_enabled :=
  simpl; repeat split;
  first [ vm_compute; reflexivity
        | intros H; vm_compute in H; discriminate H
        | exact I ].

Lemma both_registered_reachable (token : string) :
  ApiReachable token (api_run (init token) both_registered).
Proof. apply api_run_reachable; [apply api_init | run_enabled]. Qed.

Lemma nan_vault_reachable (token : string) :
  ApiReachable token (api_run (init token) nan_vault).
Proof. apply api_run_reachable; [apply api_init | run_enabled]. Qed.

Lemma renamed_vault_reachable (token : string) :
  ApiReachable token (api_run (init token) renamed_vault).
Proof. apply api_run_reachable; [apply api_init | run_enabled]. Qed.

Lemma numbered_vault_reachable (token : string) :
  ApiReachable token (api_run (init token) numbered_vault).
Proof. apply api_run_reachable; [apply api_init | run_enabled]. Qed.

(** A listed string is among the connected vaults. *)
Lemma listed_string (s : string) (st : State) :
  listed (VStr s) st -> In (VStr s) (get_connected_vaults st).
Proof.
  intros (k & Hk & Hin). simpl in Hk. injection Hk as <-.
  apply key_in_entry in Hin as (x & c & Hin & Hx).
  apply key_of_string in Hx. subst x.
  unfold get_connected_vaults. apply in_map_iff. exists (VStr s, c). auto.
Qed.

Lemma shared_name_reachable (token : string) :
  ApiReachable token (api_run (init token) shared_name).
Proof. apply api_run_reachable; [apply api_init | run_enabled]. Qed.

(** The active vault in a reachable state. *)
Lemma active_vault_is_registered_aux (token : string) (st : State) :
  ApiReachable token st ->
  (get_active_vault st = VNone -> get_connected_vaults st = []) /\
  (get_active_vault st <> VNone ->
   truthy (get_active_vault st) = true /\
   exists k, PyKey.key_of (get_active_vault st) = Some k /\
             (k <> PyKey.KNaN -> listed (get_active_vault st) st)) /\
  (forall s, get_active_vault st = VStr s ->
             s <> EmptyString /\ In (VStr s) (get_connected_vaults st)).
Proof.
  intros Hr. destruct (reachable_registry_ok token st Hr) as (HK & HA & HN & _).
  unfold get_active_vault, get_connected_vaults.
  assert (Hact : active_vault_id st <> VNone ->
            truthy (active_vault_id st) = true /\
            exists k, PyKey.key_of (active_vault_id st) = Some k /\
                      (k <> PyKey.KNaN -> listed (active_vault_id st) st)).
  { intros Hne. destruct HA as [Hn|(k & Hk & Hkt & Hin)]; [contradiction|].
    split; [now rewrite (truthy_key _ _ Hk)|].
    exists k. split; [exact Hk|]. intros Hnan. exists k. auto. }
  split; [|split].
  - intros Hn. now rewrite (HN Hn).
  - exact Hact.
  - intros s Hs. destruct Hact as (Ht & k & Hk & Hl); [rewrite Hs; discriminate|].
    rewrite Hs in *. split.
    + intros ->. discriminate Ht.
    + apply listed_string. apply Hl. simpl in Hk. injection Hk as <-. discriminate.
Qed.

(** X7. In every state the hub can reach, by connections, messages,
    disconnections, requests and [set_active_vault], the active vault is
    [None] only when no vault is listed as connected; otherwise it is a
    truthy value that can be a key and, unless it is NaN, it is the key of
    a listed vault. So an active vault that is a string is not empty and is
    among the connected vaults. The exception is real: [json.loads] reads
    NaN, NaN is not equal to itself, and after a client has registered
    under the name NaN and left, NaN is still the active vault and no vault
    is connected. *)
Theorem active_vault_is_registered (token : string) (st : State) :
  ApiReachable token st ->
  (get_active_vault st = VNone -> get_connected_vaults st = []) /\
  (get_active_vault st <> VNone ->
   truthy (get_active_vault st) = true /\
   exists k, PyKey.key_of (get_active_vault st) = Some k /\
             (k <> PyKey.KNaN -> listed (get_active_vault st) st)) /\
  (forall s, get_active_vault st = VStr s ->
             s <> EmptyString /\ In (VStr s) (get_connected_vaults st)) /\
  (let after := api_run (init token) nan_vault in
   ApiReachable token after /\
   get_active_vault after = VFloat S754_nan /\
   get_connected_vaults after = []).
Proof.
  intros Hr. destruct (active_vault_is_registered_aux token st Hr) as (H1 & H2 & H3).
  split; [exact H1|]. split; [exact H2|]. split; [exact H3|].
  split; [apply nan_vault_reachable|]. split; reflexivity.
Qed.

Lemma active_vault_is_registered_witness :
  "notes"%string <> EmptyString /\
  In (VStr "notes") (get_connected_vaults (api_run (init "t") both_registered)).
Proof.
  apply (proj1 (proj2 (proj2 (active_vault_is_registered "t" _
                                (both_registered_reachable "t"))))).
  reflexivity.
Defined.

(** X8. The payload and the vault id of a client do not outlive its
    connection: in every reachable state the clients that have one are
    connected. The table from vaults to clients is not so: the clean-up
    removes the entry of the name the client registered last, so when a
    client has registered under two names the entry of the other name stays
    after it has left; then a vault is listed as connected, and can be the
    active vault, whose client is gone. *)
Theorem registrations_belong_to_connected_clients (token : string) (st : State)
    (client_id : string) :
  ApiReachable token st ->
  (has_key client_id (vault_info st) || has_key client_id (client_to_vault st) = true ->
   client_id ∈ clients st) /\
  (forall vault_id k x,
      dict_get client_id (client_to_vault st) = Some vault_id ->
      PyKey.key_of vault_id = Some k ->
      In (x, client_id) (vault_to_client st) -> PyKey.holds k x = false ->
      In (x, client_id) (vault_to_client (on_disconnect client_id st)) /\
      client_id ∉ clients (on_disconnect client_id st)) /\
  (let after := api_run (init token) renamed_vault in
   ApiReachable token after /\
   ("A"%string ∉ clients after) /\
   vault_to_client after = [(VStr "old", "A"%string)] /\
   get_active_vault after = VStr "old").
Proof.
  intros Hr.
  destruct (reachable_registry_ok token st Hr) as (_ & _ & _ & Hinfo & Hc2v & _).
  split; [|split].
  - intros H. apply orb_true_iff in H as [H|H]; auto.
  - intros vault_id k x Hv Hk Hin Hx. unfold on_disconnect. rewrite Hv, Hk.
    cbn [cancel_pending set_pending set_vaults vault_to_client clients]. split.
    + now apply in_key_del_other.
    + intros H. apply elem_of_difference in H as [_ H]. apply H.
      now apply elem_of_singleton.
  - split; [apply renamed_vault_reachable|].
    split; [intros H; vm_compute in H; discriminate H|]. split; reflexivity.
Qed.

Lemma registrations_belong_to_connected_clients_witness :
  "B"%string ∈ clients (api_run (init "t") shared_name).
Proof.
  apply (proj1 (registrations_belong_to_connected_clients "t" _ "B"
                  (shared_name_reachable "t"))).
  vm_compute. reflexivity.
Defined.

(** X9. A vault name is listed for one client only. When two connected
    clients have registered the same name and one of them disconnects, the
    name is no longer among the connected vaults, although the other client
    is still connected and still registered for it. *)
Theorem disconnect_unlists_shared_vault (token : string) (st : State)
    (a b : string) (vault_id : PyVal) :
  ApiReachable token st ->
  a <> b ->
  dict_get a (client_to_vault st) = Some vault_id ->
  dict_get b (client_to_vault st) = Some vault_id ->
  let st' := api_step st (OfEvent (Disconnect a)) in
  ~ In vault_id (get_connected_vaults st') /\
  ~ listed vault_id st' /\
  b ∈ clients st' /\
  dict_get b (client_to_vault st') = Some vault_id.
Proof.
  intros Hr Hab Ha Hb.
  destruct (reachable_registry_ok token st Hr) as (HK & _ & _ & _ & Hc2v & _ & _ & Nv).
  cbn zeta.
  assert (Hb' : b ∈ clients st ∖ {[a]}).
  { apply elem_of_difference. split.
    - apply Hc2v. unfold has_key. now rewrite Hb.
    - intros Hs. apply elem_of_singleton in Hs. congruence. }
  assert (Hlisted : forall d : list (PyVal * string),
            (forall k, PyKey.key_of vault_id = Some k -> PyKey.key_in k d = false) ->
            (forall v c, In (v, c) d -> exists k, PyKey.key_of v = Some k) ->
            ~ In vault_id (List.map fst d) /\
            ~ (exists k, PyKey.key_of vault_id = Some k /\ PyKey.key_in k d = true)).
  { intros d Hd Hkeys. split.
    - intros Hin. apply in_map_iff in Hin as ([v c] & Hv & Hin). simpl in Hv. subst v.
      destruct (Hkeys _ _ Hin) as (k & Hk).
      assert (PyKey.key_in k d = true) by (apply key_in_entry; eauto).
      rewrite (Hd k Hk) in *. discriminate.
    - intros (k & Hk & Hin). rewrite (Hd k Hk) in Hin. discriminate. }
  unfold api_step, step, on_disconnect, get_connected_vaults, listed. rewrite Ha.
  destruct (PyKey.key_of vault_id) as [k|] eqn:Ek.
  - cbn [cancel_pending set_pending set_vaults vault_to_client client_to_vault clients].
    destruct (Hlisted (PyKey.key_del k (vault_to_client st))) as [H1 H2].
    { intros k' [= <-]. now apply key_in_del_same. }
    { intros v c Hin. apply in_key_del in Hin.
      destruct (HK v c Hin) as (k' & Hk' & _). eauto. }
    repeat split; auto. rewrite dict_get_del_ne by congruence. exact Hb.
  - cbn [set_vaults vault_to_client client_to_vault clients].
    destruct (Hlisted (vault_to_client st)) as [H1 H2].
    { discriminate. }
    { intros v c Hin. destruct (HK v c Hin) as (k' & Hk' & _). eauto. }
    repeat split; auto. rewrite dict_get_del_ne by congruence. exact Hb.
Qed.

Lemma disconnect_unlists_shared_vault_witness :
  let st' := api_step (api_run (init "t") both_registered) (OfEvent (Disconnect "A")) in
  ~ In (VStr "notes") (get_connected_vaults st') /\
  ~ listed (VStr "notes") st' /\
  "B"%string ∈ clients st' /\
  dict_get "B" (client_to_vault st') = Some (VStr "notes").
Proof.
  apply (disconnect_unlists_shared_vault "t" _ "A" "B" (VStr "notes")).
  - exact (both_registered_reachable "t").
  - discriminate.
  - vm_compute. reflexivity.
  - vm_compute. reflexivity.
Defined.

(** *** Vault validation of the file tools *)

Section ValidateFacts.
Import FileTools.
Variable py_str : PyVal -> string.
Variable repr_list : list PyVal -> string.

(** X10. Against the hub of its own process, vault validation answers with
    the vault id of the request only if a vault of that name is among the
    connected vaults. Without a vault id it answers with the text of the
    active vault, and when the active vault is a string that string is
    among the connected vaults. Its error is [NO_ACTIVE_VAULT] in no
    reachable state, unless [str] gave the empty text for an active vault
    that is not a string. A vault registered under a name that is not a
    string is answered by its text, which is not the value listed: for the
    number 123 the answer is the text of 123 and the list holds the number. *)
Theorem validated_vault_is_connected (token : string) (st : State)
    (vault_id : option string) :
  ApiReachable token st ->
  match _validate_vault_connection py_str repr_list (Some st) vault_id with
  | inl v =>
      match vault_id with
      | Some given => v = given /\ In (VStr v) (get_connected_vaults st)
      | None =>
          v = Namespace.str_of py_str (get_active_vault st) /\
          truthy (get_active_vault st) = true /\
          (forall s, get_active_vault st = VStr s ->
                     In (VStr v) (get_connected_vaults st))
      end
  | inr e =>
      error_code e = "NO_ACTIVE_VAULT"%string ->
      (forall s, get_active_vault st <> VStr s) /\
      py_str (get_active_vault st) = EmptyString
  end /\
  (let numbered := api_run (init token) numbered_vault in
   ApiReachable token numbered /\
   get_connected_vaults numbered = [VInt 123] /\
   (py_str (VInt 123) <> EmptyString ->
    _validate_vault_connection py_str repr_list (Some numbered) None
    = inl (py_str (VInt 123)))).
Proof.
  intros Hr. split.
  - destruct (active_vault_is_registered_aux token st Hr) as (Hnone & Hact & Hstr).
    unfold _validate_vault_connection.
    destruct (get_all_vault_info st) as [infos|e]; [|discriminate].
    destruct (get_connected_vaults st) as [|v0 vs] eqn:Ev; [discriminate|].
    destruct vault_id as [v|].
    + destruct (existsb (PyKey.equals (PyKey.KStr v)) (v0 :: vs)) eqn:Ex; [|discriminate].
      split; [reflexivity|].
      apply existsb_exists in Ex as (x & Hin & Hx).
      apply equals_iff in Hx as [_ Hx]. apply key_of_string in Hx. now subst x.
    + destruct (truthy (get_active_vault st)) eqn:Et.
      * cbn [Config.nonempty].
        destruct (Py.is_empty (Namespace.str_of py_str (get_active_vault st))) eqn:Ee.
        -- intros _. destruct (Namespace.str_of py_str (get_active_vault st)) eqn:Es;
             [|discriminate Ee].
           split.
           ++ intros s Hs. rewrite Hs in Es, Et. simpl in Es. subst s. discriminate Et.
           ++ destruct (get_active_vault st); try exact Es. simpl in Es. subst.
              discriminate Et.
        -- split; [reflexivity|]. split; [reflexivity|].
           intros s Hs. rewrite Hs. cbn [Namespace.str_of].
           exact (proj2 (Hstr s Hs)).
      * cbn [Config.nonempty]. intros _. exfalso.
        destruct (get_active_vault st) eqn:Ea;
          try (destruct Hact as [Ht _]; [discriminate | discriminate Ht]).
        discriminate (Hnone eq_refl).
  - split; [apply numbered_vault_reachable|]. split; [reflexivity|].
    intros Hne. unfold _validate_vault_connection.
    change (get_all_vault_info (api_run (init token) numbered_vault))
      with (Ok [(VInt 123,
                 [("vaultName"%string, VInt 123); ("vaultId"%string, VInt 123);
                  ("clientId"%string, VStr "A"); ("isActive"%string, VBool true)])]
            : Res (list (PyVal * Dict))).
    change (get_connected_vaults (api_run (init token) numbered_vault)) with [VInt 123].
    change (get_active_vault (api_run (init token) numbered_vault)) with (VInt 123).
    cbn [truthy Namespace.str_of Config.nonempty Z.eqb negb].
    destruct (py_str (VInt 123)); [congruence | reflexivity].
Qed.

End ValidateFacts.

Lemma validated_vault_is_connected_witness :
  "notes"%string = "notes"%string /\
  In (VStr "notes") (get_connected_vaults (api_run (init "t") both_registered)).
Proof.
  exact (proj1 (validated_vault_is_connected (fun _ => "?"%string) (fun _ => EmptyString)
                  "t" (api_run (init "t") both_registered) (Some "notes"%string)
                  (both_registered_reachable "t"))).
Defined.

End RegistryFacts.

(** ** The futures of the hub are assigned once *)
Section FutureFacts.
Import Hub HubApi.

Lemma continues_refl (fs : list FutureState) : continues fs fs.
Proof. split; auto. Qed.

Lemma continues_trans (a b c : list FutureState) :
  continues a b -> continues b c -> continues a c.
Proof. intros [L1 H1] [L2 H2]. split; [lia | eauto]. Qed.

Lemma continues_insert (fs : list FutureState) (h : nat) (f : FutureState) :
  fs !! h = Some Waiting -> continues fs (<[h := f]> fs).
Proof.
  intros Hw. split; [now rewrite length_insert|].
  intros h' f' Hl Hd. destruct (decide (h' = h)) as [->|Hne].
  - rewrite Hw in Hl. injection Hl as <-. discriminate Hd.
  - rewrite list_lookup_insert_ne by congruence. exact Hl.
Qed.

Lemma continues_app (fs more : list FutureState) : continues fs (fs ++ more).
Proof.
  split; [rewrite length_app; lia|].
  intros h f Hl _. rewrite lookup_app_l; [exact Hl|].
  now apply lookup_lt_Some in Hl.
Qed.

Lemma send_futures (client_id : string) (message : Dict) (st : State) :
  futures (send_to_client client_id message st) = futures st.
Proof. unfold send_to_client. now destruct (decide _). Qed.

Lemma resolve_response_continues (message : Dict) (st : State) :
  continues (futures st) (futures (snd (resolve_response message st))).
Proof.
  unfold resolve_response.
  destruct (dict_get "id" message) as [[| | | |rid| | |[|? ?]|[|? ?]]|];
    try apply continues_refl.
  destruct (Py.is_empty rid); [apply continues_refl|].
  destruct (pending_requests st !! rid) as [h|]; [|apply continues_refl].
  simpl. destruct (futures st !! h) as [[]|] eqn:E; try apply continues_refl.
  now apply continues_insert.
Qed.

Lemma on_message_continues (client_id : string) (message : Dict) (st : State) :
  continues (futures st) (futures (on_message client_id message st)).
Proof.
  unfold on_message.
  assert (Hm : continues (futures st)
                 (futures (snd (handle_message client_id message st)))).
  { apply handle_message_cases with
      (P := fun r => continues (futures st) (futures (snd r))).
    - destruct (register_keeps client_id message st) as (_ & -> & _).
      apply continues_refl.
    - apply continues_refl.
    - apply resolve_response_continues.
    - simpl. unfold unknown_type. rewrite send_futures. apply continues_refl.
    - intros e. apply continues_refl. }
  destruct (handle_message client_id message st) as [[[]|e] st']; simpl in Hm.
  - exact Hm.
  - now rewrite send_futures.
Qed.

Lemma not_done_waiting (fs : list FutureState) (h : nat) :
  future_done fs h = false -> fs !! h = Some Waiting.
Proof.
  unfold future_done. destruct (fs !! h) as [[]|]; simpl; congruence.
Qed.

Lemma cancel_request_continues (acc : gmap string nat * list FutureState)
    (rh : string * nat) :
  continues (snd acc) (snd (cancel_request acc rh)).
Proof.
  unfold cancel_request. destruct (fst acc !! fst rh) as [h|]; [|apply continues_refl].
  simpl. destruct (future_done (snd acc) h) eqn:E; [apply continues_refl|].
  apply continues_insert. now apply not_done_waiting.
Qed.

Lemma cancel_loop_continues (l : list (string * nat))
    (acc : gmap string nat * list FutureState) :
  continues (snd acc) (snd (List.fold_left cancel_request l acc)).
Proof.
  revert acc. induction l as [|rh l IH]; intros acc; [apply continues_refl|].
  simpl. eapply continues_trans; [apply cancel_request_continues | apply IH].
Qed.

Lemma step_continues (st : State) (ev : Event) :
  continues (futures st) (futures (step st ev)).
Proof.
  destruct ev as [c|c m|c|r v o p|r|r|r e]; simpl.
  - unfold connect. rewrite send_futures. apply continues_refl.
  - apply on_message_continues.
  - destruct (on_disconnect_cases c st) as [(st1 & -> & Hp & Hf & _)|(_ & _ & -> & _)];
      [|apply continues_refl].
    unfold cancel_pending. cbn [set_pending futures]. rewrite <- Hf.
    apply (cancel_loop_continues _ (pending_requests st1, futures st1)).
  - unfold start_request, res_bind.
    destruct (find_client v st) as [[client_id|]|]; try apply continues_refl.
    destruct (negb _ && _); [|apply continues_refl].
    rewrite send_futures. simpl. apply continues_app.
  - unfold on_wake. destruct (calls st !! r) as [c|]; [|apply continues_refl].
    destruct (futures st !! call_future c) as [[]|]; apply continues_refl.
  - unfold on_timeout. destruct (calls st !! r) as [c|]; [|apply continues_refl].
    destruct (futures st !! call_future c) as [[]|] eqn:E; try apply continues_refl.
    simpl. now apply continues_insert.
  - unfold on_failure. destruct (calls st !! r) as [c|]; apply continues_refl.
Qed.

Lemma api_step_continues (st : State) (op : Op) :
  continues (futures st) (futures (api_step st op)).
Proof.
  destruct op as [ev|v]; simpl; [apply step_continues|].
  unfold set_active_vault. destruct (PyKey.key_of v) as [k|]; [|apply continues_refl].
  destruct (PyKey.key_in k (vault_to_client st)); apply continues_refl.
Qed.

(** X11. A future is assigned once. Whatever happens afterwards (messages,
    replies with the same id, disconnections, timeouts, new requests), a
    future that was resolved keeps its response, a cancelled future stays
    cancelled, and no future is dropped from the store. *)
Theorem settled_future_stays (st : State) (ops : list Op) (h : nat) (f : FutureState) :
  futures st !! h = Some f ->
  is_done f = true ->
  futures (api_run st ops) !! h = Some f /\
  List.length (futures st) <= List.length (futures (api_run st ops)).
Proof.
  intros Hl Hd.
  assert (H : continues (futures st) (futures (api_run st ops))).
  { revert st Hl. induction ops as [|op ops IH]; intros st Hl; [apply continues_refl|].
    simpl. pose proof (api_step_continues st op) as Hs.
    eapply continues_trans; [exact Hs|]. apply IH.
    now apply (proj2 Hs). }
  destruct H as [Hlen Hkeep]. split; [now apply Hkeep | exact Hlen].
Qed.

Lemma settled_future_stays_witness :
  futures (api_run (api_run (init EmptyString) answered) afterwards) !! 0
  = Some (Resolved (response_data (reply_msg "r1" (VStr "first")))) /\
  List.length (futures (api_run (init EmptyString) answered))
  <= List.length (futures (api_run (api_run (init EmptyString) answered) afterwards)).
Proof.
  apply (settled_future_stays (api_run (init EmptyString) answered) afterwards 0).
  - vm_compute. reflexivity.
  - reflexivity.
Defined.

End FutureFacts.

(** ** What the RPC endpoint hands to a vault, and what escapes it *)
Section RpcGuard.
Import Hub.

Variable request_file_operation :
  PyVal -> PyVal -> PyVal -> spec_float -> Awaited (option Dict).

(** Comparing the other way round gives the opposite answer. *)
Lemma SFcompare_antisym (a b : spec_float) :
  SFcompare b a = option_map CompOpp (SFcompare a b).
Proof.
  destruct a as [sa|sa| |sa ma ea], b as [sb|sb| |sb mb eb]; simpl;
    try reflexivity; try (destruct sa; reflexivity);
    try (destruct sb; reflexivity); try (destruct sa, sb; reflexivity).
  f_equal.
  change PosDef.Pos.compare_cont with Pos.compare_cont.
  rewrite (Z.compare_antisym ea eb).
  destruct sa, sb; try reflexivity;
    destruct (ea ?= eb)%Z; simpl; try reflexivity.
  - f_equal. now rewrite Pos.compare_cont_antisym.
  - now rewrite Pos.compare_cont_antisym.
Qed.

(** [min(seconds, 30.0)] is at most thirty, or not a number. *)
Lemma py_min_cap (seconds : spec_float) :
  Binary64.py_min seconds Binary64.thirty = S754_nan \/
  SFleb (Binary64.py_min seconds Binary64.thirty) Binary64.thirty = true.
Proof.
  unfold Binary64.py_min, SFltb.
  destruct (SFcompare Binary64.thirty seconds) as [[]|] eqn:E.
  - right. unfold SFleb. rewrite (SFcompare_antisym Binary64.thirty seconds), E.
    reflexivity.
  - right. reflexivity.
  - right. unfold SFleb. rewrite (SFcompare_antisym Binary64.thirty seconds), E.
    reflexivity.
  - left. destruct seconds; try reflexivity; discriminate E.
Qed.

Lemma request_timeout_cap (timeout_ms : PyVal) (t : spec_float) :
  request_timeout timeout_ms = Ok t ->
  t = S754_nan \/ SFleb t Binary64.thirty = true.
Proof.
  unfold request_timeout, res_bind.
  destruct (if truthy timeout_ms then seconds_of timeout_ms else Ok Binary64.twenty)
    as [seconds|e]; [|discriminate].
  intros [= <-]. apply py_min_cap.
Qed.

Lemma rpc_body_dispatch (request : HttpRequest) (v o p : PyVal) (t : spec_float) :
  In (Dispatched v o p t) (snd (rpc_body request_file_operation request)) ->
  truthy o = true /\
  (t = S754_nan \/ SFleb t Binary64.thirty = true) /\
  exists data, json_body request = Ok (VDict data).
Proof.
  unfold rpc_body.
  destruct (json_body request) as [[| | | | | | | |data]|e];
    try (simpl; intros [H|[]]; discriminate H).
  destruct (truthy (get_or "operation" VNone data)) eqn:Eo; simpl negb; cbv iota;
    [|simpl; intros [H|[]]; discriminate H].
  destruct (request_timeout (get_or "timeoutMs" VNone data)) as [t'|e] eqn:Et;
    [|simpl; intros [H|[]]; discriminate H].
  assert (Hin : In (Dispatched v o p t)
                  [ReadBody;
                   Dispatched (get_or "vaultId" VNone data)
                     (get_or "operation" VNone data)
                     (get_or "params" (VDict []) data) t'] ->
                truthy o = true /\
                (t = S754_nan \/ SFleb t Binary64.thirty = true) /\
                exists data', Ok (VDict data) = Ok (VDict data') :> Awaited PyVal).
  { simpl. intros [H|[H|[]]]; [discriminate H|].
    injection H as <- <- <- <-. split; [exact Eo|]. split; [|eauto].
    now apply (request_timeout_cap _ _ Et). }
  destruct (request_file_operation _ _ _ _) as [[r|]|e]; exact Hin.
Qed.

(** What the handler did when it got as far as the [try]. *)
Lemma rpc_handler_effects (st : State) (request : HttpRequest) (x : RpcEffect) :
  In x (snd (rpc_handler request_file_operation st request)) ->
  authorized st request = true /\
  (forall declared n,
      header "Content-Length" request = Some declared ->
      py_int declared = Ok n -> (n <= max_payload)%Z) /\
  In x (snd (rpc_body request_file_operation request)).
Proof.
  unfold rpc_handler.
  destruct (authorized st request) eqn:Ea; simpl negb; cbv iota; [|intros []].
  assert (Hbody : In x (snd (let '(r, effects) := rpc_body request_file_operation request in
                             match r with
                             | Ok answer => (Ok answer, effects)
                             | Raise (Exception (TimeoutError _)) =>
                                 (Ok (504, failure_body "Request timeout"), effects)
                             | Raise (Exception (JSONDecodeError _)) =>
                                 (Ok (400, error_body "Invalid JSON"), effects)
                             | Raise (Exception e) =>
                                 (Ok (500, failure_body (exn_text e)), effects)
                             | Raise CancelledError => (Raise CancelledError, effects)
                             end)) ->
                  In x (snd (rpc_body request_file_operation request))).
  { destruct (rpc_body request_file_operation request) as [[a|[[]|]] effects]; auto. }
  destruct (Config.nonempty (header "Content-Length" request)) as [cl|] eqn:Ec.
  - unfold res_bind. destruct (py_int cl) as [n|e] eqn:Ei; [|intros []].
    destruct (Z.ltb_spec max_payload n) as [Hbig|Hok]; [intros []|].
    intros Hin. split; [reflexivity|]. split; [|now apply Hbody].
    intros declared n' Hh Hn'. rewrite Hh in Ec. unfold Config.nonempty in Ec.
    destruct (Py.is_empty declared); [discriminate|]. injection Ec as <-.
    rewrite Hn' in Ei. injection Ei as <-. exact Hok.
  - intros Hin. split; [reflexivity|]. split; [|now apply Hbody].
    intros declared n' Hh Hn'. rewrite Hh in Ec. unfold Config.nonempty in Ec.
    destruct declared; [discriminate Hn' | discriminate Ec].
Qed.

(** X12. Whatever a [POST /rpc] request holds, a file operation reaches the
    hub only if the request is authorized and does not declare more than
    2 MiB, its body is one the framework reads (not above its limit of
    1 MiB), the operation is named, and the time the hub may wait is at
    most thirty seconds or is not a number. The last case is real:
    [json.loads] reads NaN, [min(nan, 30.0)] is NaN, and a request whose
    [timeoutMs] is NaN is handed to the hub with a NaN timeout. *)
Theorem rpc_dispatch_guard (st : State) (request : HttpRequest)
    (vault_id operation params : PyVal) (timeout : spec_float) :
  In (Dispatched vault_id operation params timeout)
     (snd (rpc_handler request_file_operation st request)) ->
  authorized st request = true /\
  truthy operation = true /\
  (timeout = S754_nan \/ SFleb timeout Binary64.thirty = true) /\
  (forall declared n,
      header "Content-Length" request = Some declared ->
      py_int declared = Ok n -> (n <= max_payload)%Z) /\
  (within_limits request -> body_size request <= client_max_size) /\
  snd (rpc_handler request_file_operation (init "secret") (HubApi.small_request HubApi.nan_call))
    = [ReadBody; Dispatched (VStr "va") (VStr "read_file") (VDict []) S754_nan].
Proof.
  intros Hin. apply rpc_handler_effects in Hin as (Ha & Hlen & Hin).
  apply rpc_body_dispatch in Hin as (Ho & Ht & data & Hdata).
  repeat split; auto.
  - intros Hw. destruct (Nat.le_gt_cases (body_size request) client_max_size) as [H|H];
      [exact H|].
    now destruct (Hw H (VDict data)).
  - unfold rpc_handler, HubApi.small_request, HubApi.nan_call.
    vm_compute.
    now destruct (request_file_operation _ _ _ _) as [[r|]|[e|]]; try destruct e.
Qed.

(** The request is let through to the [try] block: it is authorized and
    declares no length above the limit. *)
Lemma rpc_handler_try (st : State) (request : HttpRequest) :
  authorized st request = true ->
  (forall declared,
      Config.nonempty (header "Content-Length" request) = Some declared ->
      exists n, py_int declared = Ok n /\ (n <= max_payload)%Z) ->
  rpc_handler request_file_operation st request
  = match rpc_body request_file_operation request with
    | (Ok answer, effects) => (Ok answer, effects)
    | (Raise (Exception (TimeoutError _)), effects) =>
        (Ok (504, failure_body "Request timeout"), effects)
    | (Raise (Exception (JSONDecodeError _)), effects) =>
        (Ok (400, error_body "Invalid JSON"), effects)
    | (Raise (Exception e), effects) => (Ok (500, failure_body (exn_text e)), effects)
    | (Raise CancelledError, effects) => (Raise CancelledError, effects)
    end.
Proof.
  intros Ha Hlen. unfold rpc_handler. rewrite Ha. simpl negb. cbv iota.
  destruct (Config.nonempty (header "Content-Length" request)) as [cl|]; [|reflexivity].
  destruct (Hlen cl eq_refl) as (n & Hn & Hle). rewrite Hn. unfold res_bind.
  destruct (Z.ltb_spec max_payload n) as [Hbig|_]; [lia | reflexivity].
Qed.

(** X13. The handler turns every exception of its [try] block into an
    answer, whatever the hub raises: 504 for a timeout, 400 for a body
    that is not JSON, 500 with the text of the exception otherwise. The
    one exception that leaves the handler is the [ValueError] of a
    [Content-Length] header that is not a number, and it leaves before the
    body is read. A cancellation is not an exception the handler catches:
    when reading the body or the call of the hub is cancelled, as it is
    when a disconnection cancels the future the call waits for, the
    cancellation leaves the handler and no answer is built. *)
Theorem rpc_only_content_length_escapes (st : State) (request : HttpRequest) :
  (forall raised,
      fst (rpc_handler request_file_operation st request) = Raise raised ->
      (exists declared e,
          raised = Exception e /\
          header "Content-Length" request = Some declared /\
          py_int declared = Raise e /\
          snd (rpc_handler request_file_operation st request) = []) \/
      (raised = CancelledError /\
       (json_body request = Raise CancelledError \/
        exists vault_id operation params timeout,
          In (Dispatched vault_id operation params timeout)
             (snd (rpc_handler request_file_operation st request)) /\
          request_file_operation vault_id operation params timeout
          = Raise CancelledError))) /\
  (authorized st request = true ->
   (forall declared,
       Config.nonempty (header "Content-Length" request) = Some declared ->
       exists n, py_int declared = Ok n /\ (n <= max_payload)%Z) ->
   forall e,
     fst (rpc_body request_file_operation request) = Raise (Exception e) ->
     fst (rpc_handler request_file_operation st request)
     = Ok (match e with
           | TimeoutError _ => (504, failure_body "Request timeout")
           | JSONDecodeError _ => (400, error_body "Invalid JSON")
           | _ => (500, failure_body (exn_text e))
           end)).
Proof.
  split.
  2:{ intros Ha Hlen e He. rewrite (rpc_handler_try st request Ha Hlen).
      destruct (rpc_body request_file_operation request) as [r effects].
      simpl in He. subst r. now destruct e. }
  intros raised.
  assert (Hbody : forall b, fst (rpc_body request_file_operation request) = Raise b ->
            (exists e, b = Exception e) \/
            json_body request = Raise CancelledError \/
            exists vault_id operation params timeout,
              In (Dispatched vault_id operation params timeout)
                 (snd (rpc_body request_file_operation request)) /\
              request_file_operation vault_id operation params timeout
              = Raise CancelledError).
  { intros b. unfold rpc_body.
    destruct (json_body request) as [[| | | | | | | |data]|[e|]];
      try (intros [= <-]; eauto; fail).
    destruct (negb (truthy (get_or "operation" VNone data))); [discriminate|].
    destruct (request_timeout (get_or "timeoutMs" VNone data)) as [t|e];
      [|intros [= <-]; eauto].
    destruct (request_file_operation _ _ _ t) as [[r|]|[e|]] eqn:Eh; try discriminate.
    - intros [= <-]. eauto.
    - intros _. right. right. do 4 eexists. split; [|exact Eh]. simpl. auto. }
  unfold rpc_handler.
  destruct (authorized st request); simpl negb; cbv iota; [|discriminate].
  assert (Htry : fst (let '(r, effects) := rpc_body request_file_operation request in
                      match r with
                      | Ok answer => (Ok answer, effects)
                      | Raise (Exception (TimeoutError _)) =>
                          (Ok (504, failure_body "Request timeout"), effects)
                      | Raise (Exception (JSONDecodeError _)) =>
                          (Ok (400, error_body "Invalid JSON"), effects)
                      | Raise (Exception e) =>
                          (Ok (500, failure_body (exn_text e)), effects)
                      | Raise CancelledError => (Raise CancelledError, effects)
                      end) = Raise raised ->
                 raised = CancelledError /\
                 (json_body request = Raise CancelledError \/
                  exists vault_id operation params timeout,
                    In (Dispatched vault_id operation params timeout)
                       (snd (let '(r, effects) :=
                               rpc_body request_file_operation request in
                             match r with
                             | Ok answer => (Ok answer, effects)
                             | Raise (Exception (TimeoutError _)) =>
                                 (Ok (504, failure_body "Request timeout"), effects)
                             | Raise (Exception (JSONDecodeError _)) =>
                                 (Ok (400, error_body "Invalid JSON"), effects)
                             | Raise (Exception e) =>
                                 (Ok (500, failure_body (exn_text e)), effects)
                             | Raise CancelledError => (Raise CancelledError, effects)
                             end)) /\
                    request_file_operation vault_id operation params timeout
                    = Raise CancelledError)).
  { destruct (rpc_body request_file_operation request) as [[a|[[]|]] effects] eqn:Eb;
      try discriminate.
    intros [= <-]. split; [reflexivity|].
    destruct (Hbody CancelledError eq_refl) as [(e & He)|H]; [discriminate He|].
    exact H. }
  destruct (Config.nonempty (header "Content-Length" request)) as [cl|] eqn:Ec.
  - unfold res_bind. destruct (py_int cl) as [n|e'] eqn:Ei.
    + destruct (max_payload <? n)%Z; [discriminate|]. intros H. right. now apply Htry.
    + simpl. intros [= <-]. left. exists cl, e'. repeat split; [|exact Ei].
      unfold Config.nonempty in Ec.
      destruct (header "Content-Length" request) as [d|]; [|discriminate].
      destruct (Py.is_empty d); [discriminate | congruence].
  - intros H. right. now apply Htry.
Qed.

End RpcGuard.

Section RpcGuardExamples.
Import Hub HubApi.

Lemma rpc_dispatch_guard_witness :
  authorized (init "secret") (small_request rpc_call) = true /\
  truthy (VStr "read_file") = true /\
  (Binary64.twenty = S754_nan \/ SFleb Binary64.twenty Binary64.thirty = true) /\
  (within_limits (small_request rpc_call) ->
   body_size (small_request rpc_call) <= client_max_size).
Proof.
  destruct (rpc_dispatch_guard no_vault (init "secret") (small_request rpc_call)
              (VStr "va") (VStr "read_file") (VDict []) Binary64.twenty)
    as (H1 & H2 & H3 & _ & H5 & _).
  - vm_compute. right. left. reflexivity.
  - repeat split; assumption.
Defined.

(** A header that is not a number, and a hub that times out. *)
Example rpc_escapes_and_answers :
  rpc_handler no_vault (init "secret") malformed_request
  = (Raise (Exception (ValueError "invalid literal for int() with base 10")), []) /\
  fst (rpc_handler (fun _ _ _ _ => Raise (Exception (TimeoutError "timed out")))
         (init "secret") (small_request rpc_call))
  = Ok (504, failure_body "Request timeout").
Proof. split; vm_compute; reflexivity. Qed.

(** A call of the hub that is cancelled: the cancellation leaves the
    handler. *)
Example rpc_cancelled_call :
  rpc_handler cancelled_hub (init "secret") (small_request rpc_call)
  = (Raise CancelledError,
     [ReadBody; Dispatched (VStr "va") (VStr "read_file") (VDict []) Binary64.twenty]).
Proof. vm_compute. reflexivity. Qed.

End RpcGuardExamples.

(** ** What one note hands to the graph *)
Section LedgerFacts.
Import Time Episode Pipeline Ledger.

Context {G : Type}.
Variable py_str : PyVal -> string.
Variable json_dumps : PyVal -> string.
Variable add_episode :
  EpisodeKwargs -> G -> RefTime.Clock -> Res (option AddResult) * G * RefTime.Clock.
Variable get_schema : Res Schema.
Variable yaml : Frontmatter.Yaml.
Variable clean_markdown : string -> string.
Variable notes : string -> option string.
Variable fs : string -> Saga.SyncFile.

Variable P : EpisodeKwargs -> Prop.

Lemma adds_refl (w : World G) : adds 0 P w w.
Proof. exists []. rewrite app_nil_r. repeat split; auto. Qed.

Lemma adds_weaken (n m : nat) (w w' : World G) :
  n <= m -> adds n P w w' -> adds m P w w'.
Proof. intros Hle (new & H1 & H2 & H3). exists new. repeat split; auto; lia. Qed.

Lemma adds_trans (n m : nat) (w w' w'' : World G) :
  adds n P w w' -> adds m P w' w'' -> adds (n + m) P w w''.
Proof.
  intros (a & Ha & La & Pa) (b & Hb & Lb & Pb). exists (a ++ b). repeat split.
  - rewrite Hb, Ha. now rewrite app_assoc.
  - rewrite length_app. lia.
  - apply Forall_app. now split.
Qed.

Lemma adds_from (n : nat) (w0 w w' : World G) :
  submitted w0 = submitted w -> adds n P w w' -> adds n P w0 w'.
Proof. intros E (new & H1 & H2 & H3). exists new. rewrite E. auto. Qed.

Lemma submit_adds (kwargs : EpisodeKwargs) (w : World G) :
  P kwargs -> adds 1 P w (snd (submit add_episode kwargs w)).
Proof.
  intros Hk. unfold submit.
  destruct (add_episode kwargs (graph w) (clock w)) as [[r g'] c'].
  exists [kwargs]. repeat split; auto.
Qed.

Variables (note_name clean_text : string) (reference_time : Datetime)
          (group database_type : string) (config : Config.BridgeConfig)
          (instructions saga_name saga_previous_uuid : option string).

Hypothesis base_ok : forall metadata sch,
  P (base_kwargs py_str json_dumps note_name clean_text reference_time group
       database_type config metadata instructions saga_name saga_previous_uuid sch).

Lemma generic_adds (metadata : option Dict) (w : World G) :
  adds 1 P w
    (snd (create_generic_text_episode py_str json_dumps add_episode note_name clean_text
            reference_time group database_type config metadata instructions saga_name
            saga_previous_uuid w)).
Proof. unfold create_generic_text_episode. apply submit_adds, base_ok. Qed.

Lemma custom_attempt_adds (metadata : Dict) (w : World G) :
  adds 1 P w
    (snd (custom_attempt py_str json_dumps add_episode get_schema note_name clean_text
            reference_time group metadata database_type config instructions saga_name
            saga_previous_uuid w)).
Proof.
  unfold custom_attempt, bind, lift. destruct get_schema as [sch|e]; simpl.
  - destruct (entity_types sch); [apply generic_adds | apply submit_adds, base_ok].
  - apply (adds_weaken 0 1); [lia | apply adds_refl].
Qed.

Lemma custom_adds (metadata : Dict) (w : World G) :
  adds 2 P w
    (snd (create_custom_entity_episode py_str json_dumps add_episode get_schema note_name
            clean_text reference_time group metadata database_type config instructions
            saga_name saga_previous_uuid w)).
Proof.
  unfold create_custom_entity_episode, try_with.
  pose proof (custom_attempt_adds metadata w) as H1.
  destruct (custom_attempt _ _ _ _ _ _ _ _ _ _ _ _ _ _ w) as [[r|e] w1]; simpl in H1.
  - apply (adds_weaken 1 2); [lia | exact H1].
  - simpl. apply (adds_trans 1 1 w w1); [exact H1|].
    unfold bind, warning. simpl.
    eapply adds_from; [|apply generic_adds]. reflexivity.
Qed.

End LedgerFacts.

Section NoteLedger.
Import Time Episode Pipeline Ledger.

Context {G : Type}.
Variable py_str : PyVal -> string.
Variable json_dumps : PyVal -> string.
Variable add_episode :
  EpisodeKwargs -> G -> RefTime.Clock -> Res (option AddResult) * G * RefTime.Clock.
Variable get_schema : Res Schema.
Variable yaml : Frontmatter.Yaml.
Variable clean_markdown : string -> string.
Variable notes : string -> option string.
Variable fs : string -> Saga.SyncFile.

Lemma formatted_has_zone (t : Datetime) :
  is_aware (RefTime.formatted_reference_time t) = true.
Proof.
  unfold RefTime.formatted_reference_time, is_aware.
  destruct (tzinfo t) eqn:E; simpl; now rewrite ?E.
Qed.

(** The episodes of the note at [note_path]. *)
Lemma on_exception_world (path : string) (start : Datetime) (e : Exn) (w : World G) :
  snd (on_exception path start e w) = w.
Proof.
  unfold on_exception, bind, read_clock, lift. simpl.
  destruct e; try reflexivity;
    (destruct (is_rate_limit _); [|reflexivity]);
    destruct (rate_limit_fields _ _); reflexivity.
Qed.

(** X15. One call of [process_note] hands at most two episodes to the graph,
    and at most one when the custom ontology is off; it removes none. Every
    episode it hands over is named after the stem of the note's path and
    carries a reference time with a time zone. This holds whatever the
    graph answers or raises, also when the call itself ends in an
    exception. *)
Theorem process_note_hands_over_at_most_two (note_path : string)
    (config : Config.BridgeConfig) (w : World G) :
  adds (if Config.use_custom_ontology config then 2 else 1) (of_note note_path) w
       (snd (process_note py_str json_dumps add_episode get_schema yaml clean_markdown
               notes fs note_path config w)).
Proof.
  set (n := if Config.use_custom_ontology config then 2 else 1).
  assert (Hz : adds n (of_note note_path) w w).
  { apply (adds_weaken _ 0); [lia | apply adds_refl]. }
  unfold process_note, bind, read_clock. simpl.
  destruct (notes (full_note_path note_path config)) as [content|]; [|exact Hz].
  unfold try_with.
  assert (Hbody : adds n (of_note note_path) w
            (snd (process_body py_str json_dumps add_episode get_schema yaml
                    clean_markdown fs note_path content config
                    (RefTime.now (clock w)) w))).
  { unfold process_body, bind, lift.
    destruct (Frontmatter.extract_frontmatter yaml content) as [[metadata body]|e];
      [|exact Hz]. cbv zeta. cbn [fst].
    destruct (match dict_get "private" metadata with
              | Some v => truthy v | None => false end); [exact Hz|].
    unfold read_clock. simpl.
    match goal with
    | |- adds _ _ _ (snd (match ?c w with _ => _ end)) =>
        assert (Hc : adds n (of_note note_path) w (snd (c w)));
        [| destruct (c w) as [[[r|]|e] w1]; simpl in Hc |- *; exact Hc]
    end.
    unfold n. destruct (Config.use_custom_ontology config).
    - apply custom_adds. intros md sch. split; [reflexivity|].
      apply formatted_has_zone.
    - apply generic_adds. intros md sch. split; [reflexivity|].
      apply formatted_has_zone. }
  destruct (process_body _ _ _ _ _ _ _ _ _ _ _ w) as [[r|e] w1]; simpl in Hbody.
  - exact Hbody.
  - simpl. now rewrite on_exception_world.
Qed.

End NoteLedger.

(** ** The delay of a rate limit *)
Section RetryAfter.
Import Time Pipeline.

Lemma digits_value_nonneg (s : string) (acc : Z) :
  (0 <= acc)%Z -> (0 <= Py.digits_value acc s)%Z.
Proof.
  revert acc. induction s as [|c r IH]; intros acc H; simpl; [exact H|].
  apply IH. lia.
Qed.

Lemma match_retry_after_nonneg (s : string) (n : Z) :
  match_retry_after s = Some (Ok n) -> (0 <= n)%Z.
Proof.
  unfold match_retry_after.
  destruct (expect_nocase "retry" s) as [s1|]; [|discriminate].
  destruct (expect_nocase "after" _) as [[|c r]|]; try discriminate.
  destruct (is_sep c); [|discriminate].
  destruct (Py.is_empty _); [discriminate|].
  unfold int_of_digits. destruct (_ <=? _); [|discriminate].
  intros [= <-]. now apply digits_value_nonneg.
Qed.

Lemma search_some {A} (m : string -> option A) (s : string) (a : A) :
  search m s = Some a -> exists t, m t = Some a.
Proof.
  induction s as [|c r IH]; simpl.
  - destruct (m EmptyString) eqn:E; [intros [= <-]; eauto | discriminate].
  - destruct (m (String c r)) eqn:E; [intros [= <-]; eauto | exact IH].
Qed.

(** X16. The delay of a rate-limited result is never negative, whatever the
    provider's text and the clock are; and a reset time given in ISO form
    lies after the moment the text was read and gives the delay, unless
    that delay is sixty seconds. There is no result only when the text
    holds a retry-after marker whose number [int] refuses. *)
Theorem retry_after_is_not_negative (now_utc : Datetime) (original_error : string) :
  match rate_limit_fields now_utc original_error with
  | Ok fields =>
      (0 <= fst fields)%Z /\
      (forall text,
          snd fields = ResetIso text ->
          exists reset,
            text = isoformat reset /\
            (instant_us now_utc < instant_us reset)%Z /\
            (whole_seconds now_utc reset <> 60%Z ->
             fst fields = whole_seconds now_utc reset))
  | Raise e => search match_retry_after original_error = Some (Raise e)
  end.
Proof.
  assert (Hp : (0 <= fst (parse_reset now_utc original_error))%Z /\
               (forall text,
                   snd (parse_reset now_utc original_error) = ResetIso text ->
                   exists reset,
                     text = isoformat reset /\
                     (instant_us now_utc < instant_us reset)%Z /\
                     fst (parse_reset now_utc original_error)
                     = whole_seconds now_utc reset)).
  { unfold parse_reset.
    destruct (search match_regain original_error) as [[d t]|];
      [|split; [unfold default_retry_after; simpl; lia | discriminate]].
    destruct (strptime _ FmtDateMinute) as [parsed|e];
      [|split; [unfold default_retry_after; simpl; lia | discriminate]].
    destruct (Z.ltb_spec (instant_us now_utc)
                         (instant_us (replace_tzinfo parsed utc))) as [Hlt|Hge].
    - split.
      + simpl. unfold whole_seconds. apply Z.quot_pos; lia.
      + simpl. intros text [= <-]. eexists. repeat split. exact Hlt.
    - split; [unfold default_retry_after; simpl; lia | discriminate]. }
  destruct Hp as [Hn Hiso]. unfold rate_limit_fields.
  destruct (parse_reset now_utc original_error) as [retry reset] eqn:E.
  simpl in Hn, Hiso.
  destruct (Z.eqb_spec retry 60) as [->|Hne].
  - destruct (search match_retry_after original_error) as [[n|e]|] eqn:Es; simpl.
    + split.
      * apply search_some in Es as [t Ht]. now apply match_retry_after_nonneg in Ht.
      * intros text Ht. destruct (Hiso text Ht) as (r & -> & Hlt & Hw).
        exists r. repeat split; auto. intros Hne. congruence.
    + reflexivity.
    + split; [lia|].
      intros text Ht. destruct (Hiso text Ht) as (r & -> & Hlt & Hw).
      exists r. repeat split; auto.
  - simpl. split; [exact Hn|].
    intros text Ht. destruct (Hiso text Ht) as (r & -> & Hlt & Hw).
    exists r. repeat split; auto.
Qed.

End RetryAfter.

(** ** What a successful result reports *)
Section SuccessFacts.
Import Time Episode Pipeline Ledger.

Context {G : Type}.
Variable py_str : PyVal -> string.
Variable json_dumps : PyVal -> string.
Variable add_episode :
  EpisodeKwargs -> G -> RefTime.Clock -> Res (option AddResult) * G * RefTime.Clock.
Variable get_schema : Res Schema.
Variable yaml : Frontmatter.Yaml.
Variable clean_markdown : string -> string.
Variable notes : string -> option string.
Variable fs : string -> Saga.SyncFile.

Lemma submit_answered (k : EpisodeKwargs) (w : World G) :
  answered_by add_episode (Episode.name k)
              (fst (submit add_episode k w)) (snd (submit add_episode k w)).
Proof.
  exists k, w. unfold submit.
  destruct (add_episode k (graph w) (clock w)) as [[r g'] c']. simpl. auto.
Qed.

Lemma custom_answered (note_name clean_text : string) (reference_time : Datetime)
    (group : string) (metadata : Dict) (database_type : string)
    (config : Config.BridgeConfig)
    (instructions saga_name saga_previous_uuid : option string) (w : World G) :
  let run :=
    create_custom_entity_episode py_str json_dumps add_episode get_schema note_name
      clean_text reference_time group metadata database_type config instructions
      saga_name saga_previous_uuid w in
  answered_by add_episode note_name (fst run) (snd run).
Proof.
  cbn zeta. unfold create_custom_entity_episode, try_with, custom_attempt, bind, lift.
  destruct get_schema as [sch|e]; simpl.
  - destruct (entity_types sch).
    + unfold create_generic_text_episode.
      pose proof (submit_answered
                    (base_kwargs py_str json_dumps note_name clean_text reference_time
                       group database_type config None instructions saga_name
                       saga_previous_uuid None) w) as H.
      destruct (submit add_episode _ w) as [[r|e] w1]; [exact H|].
      simpl. apply submit_answered.
    + pose proof (submit_answered
                    (base_kwargs py_str json_dumps note_name clean_text reference_time
                       group database_type config (Some metadata) instructions saga_name
                       saga_previous_uuid (Some sch)) w) as H.
      destruct (submit add_episode _ w) as [[r|e] w1]; [exact H|].
      simpl. apply submit_answered.
  - apply submit_answered.
Qed.

(** X17. A result with the status [success] is never made up: the note was
    handed to the graph, the last call of the graph client returned an
    answer, and the episode id and the counts of entities and relationships
    in the result are those of that answer. *)
Theorem success_reports_the_graphs_answer (note_path : string)
    (config : Config.BridgeConfig) (w w' : World G) (r : NoteResult) :
  process_note py_str json_dumps add_episode get_schema yaml clean_markdown notes fs
    note_path config w = (Ok (Some r), w') ->
  status r = success ->
  exists k w0 answer,
    add_episode k (graph w0) (clock w0) = (Ok (Some answer), graph w', clock w') /\
    submitted w' = submitted w0 ++ [k] /\
    Episode.name k = note_name r /\
    episode_uuid r = uuid answer /\
    option_map entities_count (metrics r) = Some (nodes answer) /\
    option_map relationships_count (metrics r) = Some (edges answer).
Proof.
  unfold process_note, bind, read_clock. simpl.
  destruct (notes (full_note_path note_path config)) as [content|]; [|discriminate].
  unfold try_with.
  destruct (process_body _ _ _ _ _ _ _ _ _ _ _ w) as [[res|e] w1] eqn:Eb.
  - intros [= -> ->] Hs. revert Eb.
    unfold process_body, bind, lift.
    destruct (Frontmatter.extract_frontmatter yaml content) as [[metadata body]|e];
      [|discriminate]. cbv zeta. cbn [fst].
    destruct (match dict_get "private" metadata with
              | Some v => truthy v | None => false end); [discriminate|].
    unfold read_clock. simpl.
    match goal with
    | |- (match ?c w with _ => _ end) = _ -> _ =>
        assert (Ha : answered_by add_episode (path_stem note_path)
                                 (fst (c w)) (snd (c w)));
        [| destruct (c w) as [[[answer|]|e] w1]; simpl in Ha |- *;
           [| intros [= <- <-]; discriminate Hs | discriminate ] ]
    end.
    + destruct (Config.use_custom_ontology config).
      * apply custom_answered.
      * unfold create_generic_text_episode. apply submit_answered.
    + intros [= <- <-]. destruct Ha as (k & w0 & Hadd & Hsub & Hname).
      exists k, w0, answer. repeat split; auto.
  - unfold on_exception, bind, read_clock, lift. simpl.
    destruct e; simpl;
      try (destruct (is_rate_limit _); simpl;
           [destruct (rate_limit_fields _ _); simpl|]);
      try discriminate; intros [= <- <-]; discriminate.
Qed.

End SuccessFacts.

Section SuccessExamples.
Import Time Episode Pipeline.

Lemma success_reports_the_graphs_answer_witness :
  let out := run_note accepting plain_note clock_east in
  exists r,
    fst out = Ok (Some r) /\
    exists k w0 answer,
      accepting k (graph w0) (clock w0)
      = (Ok (Some answer), graph (snd out), clock (snd out)) /\
      submitted (snd out) = submitted w0 ++ [k] /\
      Episode.name k = note_name r /\
      episode_uuid r = uuid answer /\
      option_map entities_count (metrics r) = Some (nodes answer) /\
      option_map relationships_count (metrics r) = Some (edges answer).
Proof.
  cbv zeta.
  assert (Hr : exists r,
             run_note accepting plain_note clock_east
             = (Ok (Some r), snd (run_note accepting plain_note clock_east)) /\
             status r = success).
  { vm_compute. eexists. split; reflexivity. }
  destruct Hr as (r & Hr & Hs). exists r. split; [now rewrite Hr|].
  exact (success_reports_the_graphs_answer plain_str plain_str accepting (Ok empty_schema)
           None (fun text => text) (fun _ => Some plain_note) (fun _ => Saga.Missing)
           "Projects/2025/notes/today.md" Namespace.config_books (world_at clock_east)
           _ r Hr Hs).
Defined.

End SuccessExamples.

(** ** The path a note is read from, and its namespace *)
Section PathFacts.
Import Pipeline.

Lemma splitroot_slash (r : string) :
  Py.is_empty (fst (Namespace.splitroot (String "/" r))) = false.
Proof.
  destruct r as [|c2 r2]; [reflexivity|].
  destruct c2 as [[] [] [] [] [] [] [] []]; try reflexivity.
  destruct r2 as [|c3 r3]; [reflexivity|].
  destruct c3 as [[] [] [] [] [] [] [] []]; reflexivity.
Qed.

Lemma splitroot_other (c : ascii) (r : string) :
  c <> "/"%char -> fst (Namespace.splitroot (String c r)) = EmptyString.
Proof.
  intros H. destruct c as [[] [] [] [] [] [] [] []]; try reflexivity.
  congruence.
Qed.

Lemma absolute_first (p : string) :
  is_absolute p = true <-> Py.first_char p = Some "/"%char.
Proof.
  unfold is_absolute. destruct p as [|c r]; [split; discriminate|].
  destruct (Ascii.eqb_spec c "/") as [->|Hc].
  - rewrite splitroot_slash. split; reflexivity.
  - rewrite (splitroot_other c r Hc). simpl. split; [discriminate|].
    intros [= ->]. congruence.
Qed.

Lemma first_char_app (a b : string) (c : ascii) :
  Py.first_char a = Some c -> Py.first_char (a +:+ b) = Some c.
Proof. destruct a; [discriminate | auto]. Qed.

Lemma root_first (p : string) :
  Py.first_char p = Some "/"%char ->
  Py.first_char (fst (Namespace.splitroot p)) = Some "/"%char.
Proof.
  destruct p as [|c r]; [discriminate|]. intros [= ->].
  destruct r as [|c2 r2]; [reflexivity|].
  destruct c2 as [[] [] [] [] [] [] [] []]; try reflexivity.
  destruct r2 as [|c3 r3]; [reflexivity|].
  destruct c3 as [[] [] [] [] [] [] [] []]; reflexivity.
Qed.

(** The root of an absolute path is one slash or two. *)
Lemma absolute_root (p : string) :
  is_absolute p = true ->
  fst (Namespace.splitroot p) = "/"%string \/ fst (Namespace.splitroot p) = "//"%string.
Proof.
  unfold is_absolute. destruct p as [|c r]; [discriminate|].
  destruct (Ascii.eqb_spec c "/") as [->|Hc].
  - intros _. destruct r as [|c2 r2]; [now left|].
    destruct c2 as [[] [] [] [] [] [] [] []]; try (now left).
    destruct r2 as [|c3 r3]; [now right|].
    destruct c3 as [[] [] [] [] [] [] [] []]; try (now right). now left.
  - rewrite (splitroot_other c r Hc). discriminate.
Qed.

Lemma splitroot_one (c : ascii) (r : string) :
  c <> "/"%char ->
  Namespace.splitroot (String "/" (String c r)) = ("/"%string, String c r).
Proof.
  intros H. destruct c as [[] [] [] [] [] [] [] []]; try reflexivity. congruence.
Qed.

Lemma splitroot_two (c : ascii) (r : string) :
  c <> "/"%char ->
  Namespace.splitroot (String "/" (String "/" (String c r))) = ("//"%string, String c r).
Proof.
  intros H. destruct c as [[] [] [] [] [] [] [] []]; try reflexivity. congruence.
Qed.

Lemma split_char_pieces (sep : ascii) (s : string) :
  Forall (fun x => Py.contains (String sep EmptyString) x = false) (Py.split_char sep s).
Proof.
  induction s as [|c r IH]; [now repeat constructor|].
  cbn [Py.split_char]. destruct (Ascii.eqb c sep) eqn:Ec.
  - constructor; [reflexivity | exact IH].
  - destruct (Py.split_char sep r) as [|h t]; inversion IH; subst.
    + constructor; [|constructor]. now rewrite contains_char, Ec.
    + constructor; [|assumption]. now rewrite contains_char, Ec.
Qed.

Lemma components_parts (p : string) : Forall is_part (components p).
Proof.
  unfold components. apply List.Forall_forall. intros x Hx.
  apply filter_In in Hx as [Hin Hk]. split; [exact Hk|].
  pose proof (split_char_pieces "/" (snd (Namespace.splitroot p))) as H.
  rewrite List.Forall_forall in H. now apply H.
Qed.

Lemma split_join_parts (parts : list string) :
  parts <> [] ->
  Forall is_part parts ->
  Py.split_char "/" (Py.join "/" parts) = parts.
Proof.
  intros Hne Hl. induction Hl as [|x rest [_ Hx] Hrest IH]; [congruence|].
  destruct rest as [|next rest].
  - simpl. now apply split_char_one.
  - change (Py.join "/" (x :: next :: rest))
      with (x +:+ String "/" (Py.join "/" (next :: rest))).
    rewrite split_char_app by exact Hx. f_equal. apply IH. discriminate.
Qed.

Lemma filter_parts (parts : list string) :
  Forall is_part parts -> List.filter Namespace.keep_part parts = parts.
Proof.
  induction 1 as [|x rest [Hk _] _ IH]; [reflexivity|]. simpl. now rewrite Hk, IH.
Qed.

(** The joined parts begin with a character that is not a slash. *)
Lemma join_first (x : string) (rest : list string) :
  is_part x ->
  exists c r, Py.join "/" (x :: rest) = String c r /\ c <> "/"%char.
Proof.
  intros [Hk Hx]. destruct x as [|c x']; [discriminate Hk|].
  rewrite contains_char in Hx. apply orb_false_elim in Hx as [Hc _].
  exists c. destruct rest as [|y rest].
  - exists x'. split; [reflexivity|]. intros ->. discriminate Hc.
  - exists (x' +:+ "/" +:+ Py.join "/" (y :: rest)). split; [reflexivity|].
    intros ->. discriminate Hc.
Qed.

(** The parts of a root followed by joined parts are that root and those
    parts. *)
Lemma parts_of_joined (root : string) (parts : list string) :
  root = "/"%string \/ root = "//"%string ->
  Forall is_part parts ->
  path_parts (root +:+ Py.join "/" parts) = root :: parts.
Proof.
  intros Hroot Hparts. destruct parts as [|x rest].
  - destruct Hroot as [->| ->]; reflexivity.
  - inversion Hparts as [|? ? Hx Hrest]; subst.
    destruct (join_first x rest Hx) as (c & r & Hj & Hc).
    assert (Hs : Namespace.splitroot (root +:+ Py.join "/" (x :: rest))
                 = (root, Py.join "/" (x :: rest))).
    { rewrite Hj. destruct Hroot as [->| ->].
      - apply (splitroot_one c r Hc).
      - apply (splitroot_two c r Hc). }
    unfold path_parts, components. rewrite Hs. cbn [fst snd].
    rewrite split_join_parts by (discriminate || exact Hparts).
    rewrite filter_parts by exact Hparts.
    destruct Hroot as [->| ->]; reflexivity.
Qed.

Lemma joined_absolute (root rest : string) :
  root = "/"%string \/ root = "//"%string ->
  is_absolute (root +:+ rest) = true /\ Py.is_empty (root +:+ rest) = false.
Proof.
  intros [->| ->]; (split; [apply absolute_first|]); reflexivity.
Qed.

(** A relative path joined to an absolute one. *)
Lemma joinpath_relative (vault note_path : string) :
  is_absolute vault = true ->
  is_absolute note_path = false ->
  joinpath vault note_path
  = fst (Namespace.splitroot vault)
    +:+ Py.join "/" (components vault ++ components note_path) /\
  path_parts (joinpath vault note_path) = path_parts vault ++ path_parts note_path /\
  is_absolute (joinpath vault note_path) = true.
Proof.
  intros Hv Hn. pose proof (absolute_root vault Hv) as Hroot.
  destruct (joined_absolute _ (Py.join "/" (components vault ++ components note_path)) Hroot)
    as [Habs Hne].
  assert (Hj : joinpath vault note_path
               = fst (Namespace.splitroot vault)
                 +:+ Py.join "/" (components vault ++ components note_path)).
  { unfold joinpath. now rewrite Hn, Hne. }
  split; [exact Hj|]. rewrite Hj. split; [|exact Habs].
  rewrite parts_of_joined;
    [|exact Hroot | apply Forall_app; split; apply components_parts].
  unfold path_parts. unfold is_absolute in Hv, Hn.
  apply negb_true_iff in Hv. apply negb_false_iff in Hn. rewrite Hv, Hn.
  reflexivity.
Qed.

(** X18. With an absolute vault path, a relative note path whose first
    part is not the vault's directory name is changed: it is read from the
    path made of the parts of the vault followed by the parts of the note
    path, which is absolute. An absolute note path, and one whose first
    part is the vault's directory name, are read as they are. In all
    cases one resolution settles the path: resolving the result again
    changes nothing. *)
Theorem full_note_path_settles (note_path vault : string) (config : Config.BridgeConfig) :
  Config.vault_path config = Some vault ->
  is_absolute vault = true ->
  let resolved := full_note_path note_path config in
  full_note_path resolved config = resolved /\
  (is_absolute note_path = false ->
   (forall first rest, path_parts note_path = first :: rest -> first <> path_name vault) ->
   resolved = joinpath vault note_path /\
   path_parts resolved = path_parts vault ++ path_parts note_path /\
   is_absolute resolved = true /\
   resolved <> note_path) /\
  (is_absolute note_path = true -> resolved = note_path) /\
  (forall rest, path_parts note_path = path_name vault :: rest -> resolved = note_path).
Proof.
  intros Hv Ha. cbn zeta.
  assert (Hne : Config.nonempty (Some vault) = Some vault).
  { apply absolute_first in Ha. destruct vault; [discriminate | reflexivity]. }
  assert (Hres : forall p,
            full_note_path p config
            = if negb (is_absolute p) &&
                 negb (match path_parts p with
                       | [] => false
                       | first :: _ => String.eqb first (path_name vault)
                       end)
              then joinpath vault p else p).
  { intros p. unfold full_note_path. now rewrite Hv, Hne. }
  split; [|split; [|split]].
  - rewrite (Hres note_path).
    destruct (negb (is_absolute note_path) && negb _) eqn:E.
    + apply andb_true_iff in E as [En _]. apply negb_true_iff in En.
      destruct (joinpath_relative vault note_path Ha En) as (_ & _ & Habs).
      now rewrite Hres, Habs.
    + rewrite Hres. now rewrite E.
  - intros Hn Hfirst.
    destruct (joinpath_relative vault note_path Ha Hn) as (_ & Hparts & Habs).
    assert (E : full_note_path note_path config = joinpath vault note_path).
    { rewrite Hres, Hn. destruct (path_parts note_path) as [|first rest] eqn:Ep;
        [reflexivity|].
      destruct (String.eqb_spec first (path_name vault)) as [He|_]; [|reflexivity].
      now destruct (Hfirst first rest eq_refl). }
    rewrite E. repeat split; auto.
    intros Heq. rewrite Heq in Habs. congruence.
  - intros Hn. now rewrite Hres, Hn.
  - intros rest Hp. rewrite Hres, Hp, String.eqb_refl.
    now rewrite andb_false_r.
Qed.

Lemma full_note_path_settles_witness :
  let config :=
    Config.mkConfig "neo4j" (Some "/home/me/vault"%string) false "books" false false
                    "vault" None None None "obsidian" [] false in
  let resolved := full_note_path "journal/today.md" config in
  full_note_path resolved config = resolved /\
  resolved = "/home/me/vault/journal/today.md"%string /\
  path_parts resolved = ["/"; "home"; "me"; "vault"; "journal"; "today.md"]%string.
Proof.
  destruct (full_note_path_settles "journal/today.md" "/home/me/vault"
              (Config.mkConfig "neo4j" (Some "/home/me/vault"%string) false "books"
                 false false "vault" None None None "obsidian" [] false)
              eq_refl eq_refl) as (H1 & H2 & _).
  split; [exact H1|].
  destruct H2 as (H3 & H4 & _).
  - reflexivity.
  - intros first rest [= <- _]. discriminate.
  - split; [exact H3 | exact H4].
Defined.

End PathFacts.

Section NamespaceFacts.

Variable py_str : PyVal -> string.

(** X19. A note is never put in an empty namespace: when the default
    namespace of the configuration is not empty, neither is the resolved
    namespace, whatever the frontmatter, the folder mappings and the
    strategy are. *)
Theorem resolved_namespace_is_not_empty (note_path : string) (metadata : Dict)
    (config : Config.BridgeConfig) :
  Py.is_empty (Config.default_namespace config) = false ->
  Py.is_empty (Namespace.resolve_namespace py_str note_path metadata config) = false.
Proof.
  intros Hd. unfold Namespace.resolve_namespace.
  destruct (Namespace.property_namespace py_str metadata config) as [ns|] eqn:Ep.
  - unfold Namespace.property_namespace in Ep.
    destruct (Config.enable_property_namespacing config); [|discriminate].
    destruct (dict_get "g_group_id" metadata); [|discriminate].
    destruct (Py.is_empty (Py.strip _)) eqn:E; [discriminate|].
    now injection Ep as <-.
  - destruct (Namespace.folder_namespace note_path config) as [g|] eqn:Ef.
    + unfold Namespace.folder_namespace in Ef.
      destruct (Config.enable_folder_namespacing config); [|discriminate].
      destruct (Config.mappings_of config); [discriminate|].
      unfold Config.nonempty in Ef.
      destruct (Namespace._resolve_custom_folder_mapping _ _) as [s|]; [|discriminate].
      destruct (Py.is_empty s) eqn:E; [discriminate|]. now injection Ef as <-.
    + unfold Namespace.strategy_namespace, Namespace._extract_vault_name_from_path.
      destruct (String.eqb _ "vault"); [exact Hd|].
      destruct (String.eqb _ "custom"); exact Hd.
Qed.

End NamespaceFacts.

Section NamespaceExamples.

Lemma resolved_namespace_is_not_empty_witness :
  Py.is_empty (Namespace.resolve_namespace Episode.plain_str
                 "Projects/2025/notes/today.md" [] Namespace.config_books) = false.
Proof.
  apply (resolved_namespace_is_not_empty Episode.plain_str). reflexivity.
Defined.

End NamespaceExamples.

(** ** The database URL of a configuration *)
Section DbConfigFacts.
Import DbConfig.

Variable py_str : PyVal -> string.

Lemma objects_item (configs : Dict) (k : string) (v : PyVal) :
  forallb (fun kv => match snd kv with VDict _ => true | _ => false end) configs = true ->
  dict_get k configs = Some v -> exists c, v = VDict c.
Proof.
  induction configs as [|[x y] d IH]; simpl; [discriminate|].
  intros H. apply andb_true_iff in H as [Hy Hd].
  destruct (String.eqb x k); [|now apply IH].
  intros [= <-]. destruct y; try discriminate. eauto.
Qed.

Lemma is_str_eq (v : PyVal) (s : string) : is_str v s = true <-> v = VStr s.
Proof.
  destruct v; simpl; try (split; discriminate).
  split; [intros H; apply String.eqb_eq in H; now subst | intros [= ->]; apply String.eqb_refl].
Qed.

Lemma is_str_neq (v : PyVal) (s : string) : is_str v s = false <-> v <> VStr s.
Proof.
  rewrite <- is_str_eq. destruct (is_str v s); split; congruence.
Qed.

(** X20. A configuration whose [databaseConfigs], if present, is an object
    of objects always gets a database URL, never an empty or otherwise
    false one, by this precedence: [databaseUrl] or else [database_url]
    when it is not false; otherwise the settings of the database type (for
    [neo4j] its [uri] when that is not false, for [falkordb] its [host] and
    [port], [localhost] and 6379 when they are missing); otherwise the
    default of the type, [falkor://localhost:6379] for [falkordb] and
    [bolt://localhost:7687] for every other type. *)
Theorem database_url_is_set (config_dict : Dict) :
  configs_are_objects config_dict = true ->
  let direct_url := get_either config_dict "databaseUrl" "database_url" VNone in
  let database_type :=
    get_either config_dict "database_type" "databaseType" (VStr "neo4j") in
  exists url,
    _get_database_url_from_config py_str config_dict = Ok url /\
    truthy url = true /\
    (truthy direct_url = true -> url = direct_url) /\
    (truthy direct_url = false ->
     (database_type = VStr "neo4j" ->
      match settings_of "neo4j" config_dict with
      | Some settings =>
          if truthy (Hub.get_or "uri" VNone settings)
          then url = Hub.get_or "uri" VNone settings
          else url = VStr "bolt://localhost:7687"
      | None => url = VStr "bolt://localhost:7687"
      end) /\
     (database_type = VStr "falkordb" ->
      match settings_of "falkordb" config_dict with
      | Some settings =>
          url = VStr ("falkor://"
                      +:+ Namespace.str_of py_str (Hub.get_or "host" (VStr "localhost") settings)
                      +:+ ":"
                      +:+ Namespace.str_of py_str (Hub.get_or "port" (VInt 6379) settings))
      | None => url = VStr "falkor://localhost:6379"
      end) /\
     (database_type <> VStr "neo4j" -> database_type <> VStr "falkordb" ->
      url = VStr "bolt://localhost:7687")).
Proof.
  unfold configs_are_objects, _get_database_url_from_config, settings_of. intros Hw.
  cbn zeta.
  destruct (truthy (get_either config_dict "databaseUrl" "database_url" VNone)) eqn:Ed.
  { eexists. split; [reflexivity|]. split; [exact Ed|]. split; [reflexivity|discriminate]. }
  set (database_type := get_either config_dict "database_type" "databaseType" _).
  unfold default_url, Hub.get_or.
  destruct (is_str database_type "neo4j") eqn:En;
    [|destruct (is_str database_type "falkordb") eqn:Ef].
  - apply is_str_eq in En.
    assert (Hnf : database_type <> VStr "falkordb") by (rewrite En; discriminate).
    apply is_str_neq in Hnf. rewrite Hnf.
    destruct (dict_get "databaseConfigs" config_dict) as [[| | | | | | | |configs]|];
      try discriminate; simpl res_bind.
    + unfold HubApi.has_key.
      destruct (dict_get "neo4j" configs) as [v|] eqn:Ev.
      * destruct (objects_item _ _ _ Hw Ev) as [c ->]. simpl. unfold Hub.get_or.
        destruct (truthy (match dict_get "uri" c with Some v => v | None => VNone end))
          eqn:Eu;
          (eexists; split; [reflexivity|]; split; [try exact Eu; reflexivity|];
           split; [discriminate|]; intros _; repeat split; congruence).
      * eexists. split; [reflexivity|]. split; [reflexivity|].
        split; [discriminate|]. intros _. repeat split; congruence.
    + eexists. split; [reflexivity|]. split; [reflexivity|].
      split; [discriminate|]. intros _. repeat split; congruence.
  - apply is_str_eq in Ef. apply is_str_neq in En.
    destruct (dict_get "databaseConfigs" config_dict) as [[| | | | | | | |configs]|];
      try discriminate; simpl res_bind.
    + unfold HubApi.has_key.
      destruct (dict_get "falkordb" configs) as [v|] eqn:Ev.
      * destruct (objects_item _ _ _ Hw Ev) as [c ->]. simpl.
        eexists. split; [reflexivity|]. split; [reflexivity|].
        split; [discriminate|]. intros _. repeat split; congruence.
      * eexists. split; [reflexivity|]. split; [reflexivity|].
        split; [discriminate|]. intros _. repeat split; congruence.
    + eexists. split; [reflexivity|]. split; [reflexivity|].
      split; [discriminate|]. intros _. repeat split; congruence.
  - apply is_str_neq in En, Ef.
    eexists. split; [reflexivity|]. split; [reflexivity|].
    split; [discriminate|]. intros _. repeat split; congruence.
Qed.

End DbConfigFacts.

Section DbConfigExamples.
Import DbConfig.

Lemma database_url_is_set_witness :
  _get_database_url_from_config int_str falkor_settings
  = Ok (VStr "falkor://db.local:6379").
Proof.
  destruct (database_url_is_set int_str falkor_settings eq_refl)
    as (url & Hurl & _ & _ & Hrest).
  destruct (Hrest eq_refl) as (_ & Hfalkor & _).
  rewrite Hurl. f_equal. exact (Hfalkor eq_refl).
Defined.

End DbConfigExamples.
